(** * git_revision: revision chains for Pelican content, verified

    A shallow embedding of the [git_revision] Pelican plugin
    ([__init__.py]) and the properties of its revision-chain construction.

    The plugin is Python code that mutates Pelican content objects in place
    and re-enters itself through Pelican's [content_object_init] signal.  The
    embedding therefore uses an explicit object store (content objects and
    Python lists are addressed by reference), an exception/state monad and a
    fuel parameter for the re-entrant signal dispatch.

    What the model takes from outside the plugin:
    - paths are Python [str] values on a POSIX system ([os.path] is
      [posixpath]); the functions of [posixpath] that the plugin calls are
      written after CPython's implementation;
    - GitPython and Pelican are the class [World]: [git.Repo],
      [os.path.relpath], [strftime] and [Readers.read_file] are functions of
      the world, a commit carries the blobs of its tree;
    - [git.Repo] opens a repository or raises [InvalidGitRepositoryError]
      or [NoSuchPathError]; [iter_commits] yields the commits or raises
      [ValueError], as it does in a repository without commits; the plugin
      catches the first of the three only;
    - whatever [Readers.read_file] raises is one exception to the plugin,
      be it raised by the reader or by a receiver of the signal that Pelican
      sends while it constructs the object;
    - a repository and a content object are true in a Python condition, so
      [if not repository] and [if not previous_revision] test for [None];
    - [pelican.signals.content_object_init.send] runs the receiver that
      [register] connects, [on_content_object_init]; the signal Pelican
      itself sends while [read_file] constructs a revision belongs to the
      world, so the lookups of a receiver run by that signal (for the
      directory of the temporary file) are in neither [repo_cache] nor
      [probes];
    - for the publisher, the generator's templates and the writer are the
      class [Host]; [template] and [category] of a revision, which the
      plugin reads but never assigns, are given by the host as well. *)

From Stdlib Require Import ZArith Ascii String List Lia Bool.
From stdpp Require Import base option list gmap strings.

Local Open Scope Z_scope.

(** ** Python strings *)

Module Str.

(** [s[:n]] for [0 <= n]. *)
Fixpoint take (n : nat) (s : string) : string :=
  match n, s with
  | S n', String a s' => String a (take n' s')
  | _, _ => ""
  end.

(** [s[n:]] for [0 <= n]. *)
Fixpoint drop (n : nat) (s : string) : string :=
  match n, s with
  | S n', String _ s' => drop n' s'
  | _, _ => s
  end.

(** [s.rfind(c)]: index of the last occurrence of [c], [-1] if absent. *)
Fixpoint rfind (c : ascii) (s : string) : Z :=
  match s with
  | "" => -1
  | String a s' =>
      let r := rfind c s' in
      if 0 <=? r then r + 1 else if Ascii.eqb a c then 0 else -1
  end.

(** [s == c * len(s)]. *)
Fixpoint all_eq (c : ascii) (s : string) : bool :=
  match s with
  | "" => true
  | String a s' => Ascii.eqb a c && all_eq c s'
  end.

(** [s.rstrip(c)]. *)
Fixpoint rstrip (c : ascii) (s : string) : string :=
  match s with
  | "" => ""
  | String a s' =>
      match rstrip c s' with
      | "" => if Ascii.eqb a c then "" else String a ""
      | r => String a r
      end
  end.

Definition is_empty (s : string) : bool :=
  match s with "" => true | _ => false end.

(** [s.startswith(c)] for a one-character [c]. *)
Definition startswith (c : ascii) (s : string) : bool :=
  match s with
  | String a _ => Ascii.eqb a c
  | "" => false
  end.

(** [s.endswith(c)] for a one-character [c]. *)
Fixpoint endswith (c : ascii) (s : string) : bool :=
  match s with
  | "" => false
  | String a "" => Ascii.eqb a c
  | String _ s' => endswith c s'
  end.

(** [s.replace(a, b)] for one-character [a] and [b]. *)
Fixpoint replace (a b : ascii) (s : string) : string :=
  match s with
  | "" => ""
  | String x s' => String (if Ascii.eqb x a then b else x) (replace a b s')
  end.

(** [s.split(c)]: the pieces between the occurrences of [c]. *)
Fixpoint split (c : ascii) (s : string) : list string :=
  match s with
  | "" => [""]
  | String a s' =>
      if Ascii.eqb a c then "" :: split c s'
      else match split c s' with
           | [] => [String a ""]
           | w :: ws => String a w :: ws
           end
  end.

(** [c in s]. *)
Fixpoint contains (c : ascii) (s : string) : bool :=
  match s with
  | "" => false
  | String a s' => Ascii.eqb a c || contains c s'
  end.

End Str.

(** ** posixpath *)

Module posixpath.

Definition sep : ascii := "/"%char.
Definition extsep : ascii := "."%char.

(** [i = p.rfind(sep) + 1; head, tail = p[:i], p[i:]] *)
Definition cut (p : string) : string * string :=
  let i := Z.to_nat (Str.rfind sep p + 1) in
  (Str.take i p, Str.drop i p).

(** [if head and head != sep*len(head): head = head.rstrip(sep)] *)
Definition strip_head (head : string) : string :=
  if negb (Str.is_empty head) && negb (Str.all_eq sep head)
  then Str.rstrip sep head else head.

Definition split (p : string) : string * string :=
  let '(head, tail) := cut p in (strip_head head, tail).

Definition dirname (p : string) : string := strip_head (fst (cut p)).

Definition basename (p : string) : string := snd (cut p).

(** One round of the loop of [join]: [path] extended by the component
    [b]. *)
Definition join_step (path b : string) : string :=
  if Str.startswith sep b then b
  else if Str.is_empty path || Str.endswith sep path then path +:+ b
  else path +:+ "/" +:+ b.

(** [posixpath.join(a, *p)] *)
Definition join (a : string) (p : list string) : string :=
  fold_left join_step p a.

(** The scan of [genericpath._splitext] over [p[filenameIndex:dotIndex]]:
    is there a character other than the dot? *)
Fixpoint has_non_dot (s : string) : bool :=
  match s with
  | "" => false
  | String a s' => if Ascii.eqb a extsep then has_non_dot s' else true
  end.

(** [posixpath.splitext(p)] *)
Definition splitext (p : string) : string * string :=
  let sepIndex := Str.rfind sep p in
  let dotIndex := Str.rfind extsep p in
  if (sepIndex <? dotIndex)
     && has_non_dot
          (Str.take (Z.to_nat (dotIndex - (sepIndex + 1)))
                    (Str.drop (Z.to_nat (sepIndex + 1)) p))
  then (Str.take (Z.to_nat dotIndex) p, Str.drop (Z.to_nat dotIndex) p)
  else (p, "").

End posixpath.

(** ** Data model *)

(** [pelican.utils.SafeDatetime.fromtimestamp(ts)]: the datetime of a POSIX
    timestamp. *)
Inductive SafeDatetime : Type := fromtimestamp (ts : Z).

(** A commit as GitPython presents it: [hexsha], [authored_date] and the
    blobs of its tree by path ([commit.tree / path]). *)
Record Commit : Type := {
  hexsha : string;
  authored_date : Z;
  tree : gmap string (list Byte.byte)
}.

(** [Commit.__ne__] of GitPython compares the hashes. *)
Definition commit_ne (a b : Commit) : bool :=
  negb (String.eqb (hexsha a) (hexsha b)).

(** A [git.Repo]: its working directory and [iter_commits(paths=p)], newest
    commit first; [None] when [iter_commits] raises [ValueError], which it
    does in a repository that has no commit yet. *)
Record Repo : Type := {
  working_dir : string;
  iter_commits : string -> option (list Commit)
}.

(** What [git.Repo(path)] does: it opens the repository, or raises
    [InvalidGitRepositoryError] for a directory that is none, or raises
    [NoSuchPathError] for a directory that does not exist. *)
Inductive opening : Type :=
| Opened (r : Repo)
| InvalidGitRepositoryError
| NoSuchPath.

(** The content classes of Pelican; only [Static] is told apart by the
    plugin. *)
Inductive ContentClass : Type := Page | Article | Static.

Definition is_Static (k : ContentClass) : bool :=
  match k with Static => true | _ => false end.

(** The settings dictionary, of which the plugin reads ['PATH']. *)
Record Settings : Type := { PATH : string }.

Definition Context : Type := list string.

(** References into the store: content objects and Python lists. *)
Abbreviation ref := nat (only parsing).
Abbreviation lref := nat (only parsing).

(** The [git] named tuple. [revisions] is a reference to the list shared by
    every node of a chain; [previous_revision] and [next_revision] refer to
    content objects. *)
Record git_class : Type := {
  commit : Commit;
  file_path : string;
  revisions : lref;
  previous_revision : option ref;
  next_revision : option ref
}.

(** A Pelican content object with the attributes the plugin reads or
    writes.  An attribute that may be absent ([hasattr]) is an option.
    [url_setting] and [save_as_setting] stand for what Pelican expands from
    the URL settings when no override is present. *)
Record Content : Type := {
  cls : ContentClass;
  settings : Settings;
  context_ : Context;
  source_path : string;
  date_format : string;
  date : option SafeDatetime;
  locale_date : option string;
  modified : option SafeDatetime;
  locale_modified : option string;
  url_setting : string;
  save_as_setting : string;
  override_url : option string;
  override_save_as : option string;
  git : option git_class
}.

(** The properties [Content.url] and [Content.save_as]: the override when
    there is one ([Content.get_url_setting]). *)
Definition url (c : Content) : string :=
  default (url_setting c) (override_url c).
Definition save_as (c : Content) : string :=
  default (save_as_setting c) (override_save_as c).

(** *** Attribute assignment *)

Definition set_source_path (v : string) (c : Content) : Content :=
  {| cls := cls c; settings := settings c; context_ := context_ c;
     source_path := v; date_format := date_format c; date := date c;
     locale_date := locale_date c; modified := modified c;
     locale_modified := locale_modified c; url_setting := url_setting c;
     save_as_setting := save_as_setting c; override_url := override_url c;
     override_save_as := override_save_as c; git := git c |}.

Definition set_date (v : option SafeDatetime) (c : Content) : Content :=
  {| cls := cls c; settings := settings c; context_ := context_ c;
     source_path := source_path c; date_format := date_format c; date := v;
     locale_date := locale_date c; modified := modified c;
     locale_modified := locale_modified c; url_setting := url_setting c;
     save_as_setting := save_as_setting c; override_url := override_url c;
     override_save_as := override_save_as c; git := git c |}.

Definition set_locale_date (v : option string) (c : Content) : Content :=
  {| cls := cls c; settings := settings c; context_ := context_ c;
     source_path := source_path c; date_format := date_format c;
     date := date c; locale_date := v; modified := modified c;
     locale_modified := locale_modified c; url_setting := url_setting c;
     save_as_setting := save_as_setting c; override_url := override_url c;
     override_save_as := override_save_as c; git := git c |}.

Definition set_modified (v : option SafeDatetime) (c : Content) : Content :=
  {| cls := cls c; settings := settings c; context_ := context_ c;
     source_path := source_path c; date_format := date_format c;
     date := date c; locale_date := locale_date c; modified := v;
     locale_modified := locale_modified c; url_setting := url_setting c;
     save_as_setting := save_as_setting c; override_url := override_url c;
     override_save_as := override_save_as c; git := git c |}.

Definition set_locale_modified (v : option string) (c : Content) : Content :=
  {| cls := cls c; settings := settings c; context_ := context_ c;
     source_path := source_path c; date_format := date_format c;
     date := date c; locale_date := locale_date c; modified := modified c;
     locale_modified := v; url_setting := url_setting c;
     save_as_setting := save_as_setting c; override_url := override_url c;
     override_save_as := override_save_as c; git := git c |}.

Definition set_override_url (v : option string) (c : Content) : Content :=
  {| cls := cls c; settings := settings c; context_ := context_ c;
     source_path := source_path c; date_format := date_format c;
     date := date c; locale_date := locale_date c; modified := modified c;
     locale_modified := locale_modified c; url_setting := url_setting c;
     save_as_setting := save_as_setting c; override_url := v;
     override_save_as := override_save_as c; git := git c |}.

Definition set_override_save_as (v : option string) (c : Content) : Content :=
  {| cls := cls c; settings := settings c; context_ := context_ c;
     source_path := source_path c; date_format := date_format c;
     date := date c; locale_date := locale_date c; modified := modified c;
     locale_modified := locale_modified c; url_setting := url_setting c;
     save_as_setting := save_as_setting c; override_url := override_url c;
     override_save_as := v; git := git c |}.

Definition set_git (v : option git_class) (c : Content) : Content :=
  {| cls := cls c; settings := settings c; context_ := context_ c;
     source_path := source_path c; date_format := date_format c;
     date := date c; locale_date := locale_date c; modified := modified c;
     locale_modified := locale_modified c; url_setting := url_setting c;
     save_as_setting := save_as_setting c; override_url := override_url c;
     override_save_as := override_save_as c; git := v |}.

(** ** The world outside the plugin

    What the plugin consumes from Pelican, GitPython and the operating
    system.  [git_Repo root] is [git.Repo(root)].  [read_file] is
    [Readers.read_file] applied to the temporary file holding the given
    bytes; it yields the content object Pelican constructs (of the
    requested class, with the requested settings and context, its
    [source_path] the temporary path and no [git] attribute), or [None]
    when the call raises. *)
Record Parsed : Type := {
  p_source_path : string;
  p_date_format : string;
  p_date : option SafeDatetime;
  p_locale_date : option string;
  p_modified : option SafeDatetime;
  p_locale_modified : option string;
  p_url_setting : string;
  p_save_as_setting : string;
  p_override_url : option string;
  p_override_save_as : option string
}.

Class World : Type := {
  strftime : SafeDatetime -> string -> string;
  relpath : string -> string -> string;
  git_Repo : string -> opening;
  read_file : string -> list Byte.byte -> ContentClass -> string ->
              Context -> option Parsed
}.

(** The object [content_class(...)] that [read_file] returns. *)
Definition new_content (k : ContentClass) (s : Settings) (ctx : Context)
    (p : Parsed) : Content :=
  {| cls := k; settings := s; context_ := ctx;
     source_path := p_source_path p; date_format := p_date_format p;
     date := p_date p; locale_date := p_locale_date p;
     modified := p_modified p; locale_modified := p_locale_modified p;
     url_setting := p_url_setting p; save_as_setting := p_save_as_setting p;
     override_url := p_override_url p;
     override_save_as := p_override_save_as p; git := None |}.

(** ** Store, exceptions and the monad of the plugin's code *)

(** [objs] and [lists] are the heap: content objects and Python lists by
    reference.  [repo_cache] is the table of [functools.lru_cache] on
    [discover_repository]; [probes] records, oldest first, every path handed
    to [git.Repo]. *)
Record State : Type := {
  objs : list Content;
  lists : list (list ref);
  repo_cache : gmap string (option Repo);
  probes : list string
}.

Inductive exn : Type :=
| NoSuchPathError (* [git.Repo] on a directory that does not exist *)
| ValueError      (* [iter_commits] in a repository without commits *)
| KeyError        (* the tracked path is not in the commit's tree *)
| ReaderError     (* [read_file] raised *)
| IndexError      (* list index out of range *)
| AttributeError  (* an attribute read on an object that lacks it *)
| InvalidRef.     (* a reference that the store does not hold *)

Inductive outcome (A : Type) : Type :=
| Ret (a : A)
| Raise (e : exn)
| OutOfFuel.
Arguments Ret {A} a.
Arguments Raise {A} e.
Arguments OutOfFuel {A}.

Definition M (A : Type) : Type := State -> outcome A * State.

Definition ret {A} (a : A) : M A := fun st => (Ret a, st).
Definition raise {A} (e : exn) : M A := fun st => (Raise e, st).
Definition out_of_fuel {A} : M A := fun st => (OutOfFuel, st).

Definition bind {A B} (m : M A) (k : A -> M B) : M B :=
  fun st =>
    match m st with
    | (Ret a, st') => k a st'
    | (Raise e, st') => (Raise e, st')
    | (OutOfFuel, st') => (OutOfFuel, st')
    end.

Notation "x <- m ;; k" := (bind m (fun x => k))
  (at level 100, m at next level, right associativity).
Notation "m ;;; k" := (bind m (fun _ => k))
  (at level 100, right associativity).

Definition of_option {A} (e : exn) (o : option A) : M A :=
  match o with Some a => ret a | None => raise e end.

Definition with_objs (f : list Content -> list Content) (st : State) : State :=
  {| objs := f (objs st); lists := lists st; repo_cache := repo_cache st;
     probes := probes st |}.

Definition with_lists (f : list (list ref) -> list (list ref)) (st : State)
    : State :=
  {| objs := objs st; lists := f (lists st); repo_cache := repo_cache st;
     probes := probes st |}.

(** Reading an object, assigning to its attributes, creating one. *)
Definition get_obj (r : ref) : M Content :=
  fun st => of_option InvalidRef (objs st !! r) st.

Definition modify_obj (r : ref) (f : Content -> Content) : M unit :=
  fun st =>
    match objs st !! r with
    | Some c => (Ret tt, with_objs (fun os => <[r := f c]> os) st)
    | None => (Raise InvalidRef, st)
    end.

Definition new_obj (c : Content) : M ref :=
  fun st => (Ret (length (objs st)), with_objs (fun os => os ++ [c]) st).

(** [hasattr(obj, name)] and [obj.git]. *)
Definition hasattr {A} (attr : option A) : bool :=
  match attr with Some _ => true | None => false end.

Definition get_git (r : ref) : M git_class :=
  c <- get_obj r ;; of_option AttributeError (git c).

(** [[]], [l.append(x)] and reading a list. *)
Definition new_list : M lref :=
  fun st => (Ret (length (lists st)), with_lists (fun ls => ls ++ [[]]) st).

Definition list_append (l : lref) (x : ref) : M unit :=
  fun st =>
    match lists st !! l with
    | Some xs => (Ret tt, with_lists (fun ls => <[l := xs ++ [x]]> ls) st)
    | None => (Raise InvalidRef, st)
    end.

Definition get_list (l : lref) : M (list ref) :=
  fun st => of_option InvalidRef (lists st !! l) st.

(** [xs[i]] with Python's negative indices and [IndexError]. *)
Definition py_getitem {A} (xs : list A) (i : Z) : M A :=
  let n := Z.of_nat (length xs) in
  let j := if i <? 0 then i + n else i in
  if (0 <=? j) && (j <? n) then of_option IndexError (xs !! Z.to_nat j)
  else raise IndexError.

(** [for x in xs: body(x)] *)
Fixpoint for_each {A} (xs : list A) (body : A -> M unit) : M unit :=
  match xs with
  | [] => ret tt
  | x :: xs' => body x ;;; for_each xs' body
  end.

(** [enumerate(xs)] from a start index. *)
Fixpoint enumerate_from {A} (i : Z) (xs : list A) : list (Z * A) :=
  match xs with
  | [] => []
  | x :: xs' => (i, x) :: enumerate_from (i + 1) xs'
  end.
Definition enumerate {A} (xs : list A) : list (Z * A) := enumerate_from 0 xs.

(** [zip(xs, ys)] *)
Fixpoint zip {A B} (xs : list A) (ys : list B) : list (A * B) :=
  match xs, ys with
  | x :: xs', y :: ys' => (x, y) :: zip xs' ys'
  | _, _ => []
  end.

(** ** The plugin *)

(** The condition of the loop of [discover_repository]:
    [tail or tail is None]. *)
Definition goes_on (tail : option string) : bool :=
  match tail with
  | None => true
  | Some t => negb (Str.is_empty t)
  end.

Section Plugin.
Context `{W : World}.

(** The loop of [discover_repository]: [root] and [tail] are the loop
    variables, [tail = None] is Python's [tail is None].  The result is how
    the loop ends, with the repository found (or [None] once the loop is
    left) or with the exception that the [except] clause lets through,
    together with the paths handed to [git.Repo], in order.  [OutOfFuel] is
    a loop cut short by the fuel. *)
Fixpoint discover_loop (fuel : nat) (root : string) (tail : option string)
    : outcome (option Repo) * list string :=
  match fuel with
  | O => (OutOfFuel, [])
  | S fuel' =>
      if goes_on tail then
        match git_Repo root with
        | Opened r => (Ret (Some r), [root])
        | NoSuchPath => (Raise NoSuchPathError, [root])
        | InvalidGitRepositoryError =>
            let '(root', tail') := posixpath.split root in
            let '(out, visited) :=
              discover_loop fuel' root' (Some tail') in
            (out, root :: visited)
        end
      else (Ret None, [])
  end.

(** [discover_repository] under [functools.lru_cache(None)]: a path in the
    table is answered from the table; otherwise the loop runs, and the
    result it returns is stored; a call that ends with an exception stores
    nothing.  The loop is given more rounds than it can use (lemma
    [discover_loop_total]). *)
Definition discover_repository (path : string) : M (option Repo) :=
  fun st =>
    match repo_cache st !! path with
    | Some r => (Ret r, st)
    | None =>
        match discover_loop (String.length path + 2) path None with
        | (Ret r, visited) =>
            (Ret r,
             {| objs := objs st; lists := lists st;
                repo_cache := <[path := r]> (repo_cache st);
                probes := probes st ++ visited |})
        | (Raise e, visited) =>
            (Raise e,
             {| objs := objs st; lists := lists st;
                repo_cache := repo_cache st;
                probes := probes st ++ visited |})
        | (OutOfFuel, _) => (OutOfFuel, st)
        end
    end.

Definition make_repository_file_path (repository : Repo) (path : string)
    : string :=
  let relative_path := relpath path (working_dir repository) in
  Str.replace "\"%char "/"%char relative_path.

(** The path assigned to [revision.override_save_as] (lines 98-107). *)
Definition revision_save_as (content : Content) (c : Commit) : string :=
  let filename := posixpath.basename (save_as content) in
  let '(root, extension) := posixpath.splitext filename in
  let url := url content in
  posixpath.join
    (if Str.endswith posixpath.sep url then url else posixpath.dirname url)
    [ (if negb (String.eqb root "index") then root else "");
      hexsha c;
      "index" +:+ extension ].

(** The body of the first loop: one commit is materialized as a revision
    object, which is appended to the list [revisions]. *)
Definition materialize (content : ref) (repository_file_path : string)
    (revisions : lref) (c : Commit) : M unit :=
  blob <- of_option KeyError (tree c !! repository_file_path) ;;
  let format_ :=
    Str.drop 1 (snd (posixpath.splitext repository_file_path)) in
  live <- get_obj content ;;
  parsed <- of_option ReaderError
              (read_file (PATH (settings live)) blob (cls live) format_
                         (context_ live)) ;;
  revision <- new_obj (new_content (cls live) (settings live)
                                   (context_ live) parsed) ;;
  live <- get_obj content ;;
  modify_obj revision (set_source_path (source_path live)) ;;;
  live <- get_obj content ;;
  modify_obj revision
    (set_override_save_as (Some (revision_save_as live c))) ;;;
  r <- get_obj revision ;;
  modify_obj revision
    (set_override_url (Some (posixpath.dirname (save_as r)))) ;;;
  list_append revisions revision.

(** The branch for an object that already has the [git] attribute
    (lines 53-70). *)
Definition on_revision (content : ref) : M unit :=
  g <- get_git content ;;
  let created := fromtimestamp (authored_date (commit g)) in
  modify_obj content (set_date (Some created)) ;;;
  c <- get_obj content ;;
  modify_obj content
    (set_locale_date (Some (strftime created (date_format c)))) ;;;
  g <- get_git content ;;
  match previous_revision g with
  | None => ret tt
  | Some previous_revision =>
      modify_obj previous_revision (set_modified (Some created)) ;;;
      c <- get_obj content ;;
      modify_obj previous_revision
        (set_locale_modified (Some (strftime created (date_format c))))
  end.

(** The body of the second loop (lines 113-126); [send] is
    [pelican.signals.content_object_init.send]. *)
Definition link (send : ref -> M unit) (content : ref)
    (repository_file_path : string) (revisions : lref)
    (item : Z * (Commit * ref)) : M unit :=
  let '(index, (c, revision)) := item in
  revs <- get_list revisions ;;
  let revision_count := Z.of_nat (length revs) in
  previous_revision <-
    (if 0 <? index then r <- py_getitem revs (index - 1) ;; ret (Some r)
     else ret None) ;;
  next_revision <-
    (if index =? revision_count - 2 then ret (Some content)
     else if index <? revision_count - 1
          then r <- py_getitem revs (index + 1) ;; ret (Some r)
          else ret None) ;;
  modify_obj revision
    (set_git (Some {| commit := c; file_path := repository_file_path;
                      revisions := revisions;
                      previous_revision := previous_revision;
                      next_revision := next_revision |})) ;;;
  send revision.

(** Lines 83-130 of [on_content_object_init]: the revisions are
    materialized, linked and announced, and the live document gets its
    [git] tuple. *)
Definition build_chain (send : ref -> M unit) (content : ref)
    (repository_file_path : string) (commits : list Commit)
    (latest_commit : Commit) : M unit :=
  revisions <- new_list ;;
  for_each commits
    (materialize content repository_file_path revisions) ;;;
  revs <- get_list revisions ;;
  for_each (enumerate (zip commits revs))
    (link send content repository_file_path revisions) ;;;
  revs <- get_list revisions ;;
  let revision_count := Z.of_nat (length revs) in
  previous_revision <-
    (if 1 <? revision_count
     then r <- py_getitem revs (-2) ;; ret (Some r)
     else ret None) ;;
  modify_obj content
    (set_git
       (Some {| commit := latest_commit;
                file_path := repository_file_path;
                revisions := revisions;
                previous_revision := previous_revision;
                next_revision := None |})).

(** [on_content_object_init], the receiver of Pelican's
    [content_object_init] signal.  The plugin sends that signal itself for
    every revision it creates, which re-enters this function; [fuel] bounds
    the depth of that re-entry. *)
Fixpoint on_content_object_init (fuel : nat) (content : ref) : M unit :=
  match fuel with
  | O => out_of_fuel
  | S fuel' =>
      c <- get_obj content ;;
      if is_Static (cls c) then ret tt
      else
        let source_path := source_path c in
        repository <- discover_repository (posixpath.dirname source_path) ;;
        match repository with
        | None => ret tt
        | Some repository =>
            let repository_file_path :=
              make_repository_file_path repository source_path in
            listed <- of_option ValueError
                        (iter_commits repository repository_file_path) ;;
            let commits := rev listed in
            match commits with
            | [] => ret tt
            | first_commit :: _ =>
                let latest_commit := List.last commits first_commit in
                c <- get_obj content ;;
                if hasattr (git c) then on_revision content
                else
                    (if negb (hasattr (date c)) then
                       let created :=
                         fromtimestamp (authored_date first_commit) in
                       modify_obj content (set_date (Some created)) ;;;
                       c <- get_obj content ;;
                       modify_obj content
                         (set_locale_date
                            (Some (strftime created (date_format c))))
                     else ret tt) ;;;
                    c <- get_obj content ;;
                    (if commit_ne first_commit latest_commit
                        && negb (hasattr (modified c)) then
                       let modified :=
                         fromtimestamp (authored_date latest_commit) in
                       modify_obj content (set_modified (Some modified)) ;;;
                       c <- get_obj content ;;
                       modify_obj content
                         (set_locale_modified
                            (Some (strftime modified (date_format c))))
                     else ret tt) ;;;
                    build_chain (on_content_object_init fuel') content
                      repository_file_path commits latest_commit
            end
        end
  end.

End Plugin.

(** ** What the hook leaves behind

    The assignments of the hook, as functions on one object and on the
    store; the theorems state the hook's effect through them. *)

Section Effects.
Context `{W : World}.

(** [date] and [locale_date] assigned from [created] (lines 55-56 and
    75-76). *)
Definition dated (created : SafeDatetime) (o : Content) : Content :=
  set_locale_date (Some (strftime created (date_format o)))
                  (set_date (Some created) o).

(** [modified] and [locale_modified] assigned from [created], rendered in
    the format [fmt] (lines 65-66 and 80-81). *)
Definition superseded (created : SafeDatetime) (fmt : string)
    (o : Content) : Content :=
  set_locale_modified (Some (strftime created fmt))
                      (set_modified (Some created) o).

(** The store after the branch for an object [c] at [content] whose
    [git] attribute is [g]. *)
Definition revisited (content : ref) (c : Content) (g : git_class)
    (os : list Content) : list Content :=
  let created := fromtimestamp (authored_date (commit g)) in
  let os1 := alter (dated created) content os in
  match previous_revision g with
  | None => os1
  | Some p => alter (superseded created (date_format c)) p os1
  end.

(** The dates a fresh live document gets from the first and the latest
    commit (lines 73-81). *)
Definition inferred (first_commit latest_commit : Commit) (o : Content)
    : Content :=
  let o1 :=
    if hasattr (date o) then o
    else dated (fromtimestamp (authored_date first_commit)) o in
  if commit_ne first_commit latest_commit && negb (hasattr (modified o1))
  then superseded (fromtimestamp (authored_date latest_commit))
                  (date_format o1) o1
  else o1.

End Effects.

(** ** The hook's view of the repository *)

Section History.
Context `{W : World}.

(** The repository [discover_repository] yields for a directory in a
    given state, [None] when it yields none or raises. *)
Definition located (st : State) (dir : string) : option Repo :=
  match fst (discover_repository dir st) with
  | Ret r => r
  | _ => None
  end.

(** The commits that touched a source file, oldest first (lines 40-44);
    none when [iter_commits] raises. *)
Definition history (repository : Repo) (source_path : string)
    : list Commit :=
  match iter_commits repository
          (make_repository_file_path repository source_path) with
  | Some listed => rev listed
  | None => []
  end.

(** What the reader makes of a commit's blob for a live document
    (lines 86-95); [None] when the tracked path is not in the commit's tree
    or the reader rejects the blob. *)
Definition parse_commit (live : Content) (repository : Repo) (c : Commit)
    : option Parsed :=
  let path := make_repository_file_path repository (source_path live) in
  match tree c !! path with
  | Some blob =>
      read_file (PATH (settings live)) blob (cls live)
        (Str.drop 1 (snd (posixpath.splitext path))) (context_ live)
  | None => None
  end.

Definition materializable (live : Content) (repository : Repo)
    (c : Commit) : bool :=
  hasattr (parse_commit live repository c).

(** The revision object as the first loop leaves it (lines 93-110). *)
Definition materialized (live : Content) (c : Commit) (parsed : Parsed)
    : Content :=
  let r :=
    set_override_save_as (Some (revision_save_as live c))
      (set_source_path (source_path live)
         (new_content (cls live) (settings live) (context_ live)
                      parsed)) in
  set_override_url (Some (posixpath.dirname (save_as r))) r.

(** An object with the attributes the second loop and its signals assign
    taken away: the dates, their renderings and [git]. *)
Definition undated (o : Content) : Content :=
  set_git None
    (set_locale_modified None
       (set_modified None (set_locale_date None (set_date None o)))).

(** The [git] tuple of the revision at index [i] (lines 114-123), with the
    indices of the claim: [revs[i-1]], [revs[i+1]], [len - 2]. *)
Definition expected_link (content : ref) (path : string) (rl : lref)
    (revs : list ref) (i : nat) (c : Commit) : git_class :=
  let n := Z.of_nat (length revs) in
  {| commit := c; file_path := path; revisions := rl;
     previous_revision :=
       if 0 <? Z.of_nat i then revs !! (i - 1)%nat else None;
     next_revision :=
       if Z.of_nat i =? n - 2 then Some content
       else if Z.of_nat i <? n - 1 then revs !! (i + 1)%nat
            else None |}.

End History.

(** ** The second loop, between its rounds

    [linking content path rl n0 cs news s1 k s]: [s] is a state of the
    second loop before round [k], when the loop started in [s1] with the
    revisions [news] of the commits [cs] stored from reference [n0] on.  The
    revisions before [k] carry their [git] tuple, the others none; no object
    lost or changed an attribute other than the dates and [git]; objects
    older than the revisions are as they were. *)
Record linking (content : ref) (path : string) (rl : lref) (n0 : nat)
    (cs : list Commit) (news : list Content) (s1 : State) (k : nat)
    (s : State) : Prop := {
  linking_lists : lists s = lists s1;
  linking_cache : repo_cache s = repo_cache s1;
  linking_probes : probes s = probes s1;
  linking_length : length (objs s) = (n0 + length news)%nat;
  linking_old : forall r, (r < n0)%nat -> objs s !! r = objs s1 !! r;
  linking_new : forall i c o1,
    cs !! i = Some c -> news !! i = Some o1 ->
    exists o,
      objs s !! (n0 + i)%nat = Some o
      /\ undated o = undated o1
      /\ git o = if (i <? k)%nat
                 then Some (expected_link content path rl
                              (seq n0 (length news)) i c)
                 else None
}.

(** ** The revisions between the rounds of the second loop, in full

    The signal sent in round [k] dates the revision of that round and
    back-patches the one before it (lines 53-66).  [linked_revision] is the
    revision at index [i] before round [k]: [o1] is the object as the first
    loop left it, [g] the [git] tuple it gets in its own round, [next] the
    commit after its own with the date format of that commit's revision, if
    there is one. *)
Section Chained.
Context `{W : World}.

Definition successor (cs : list Commit) (news : list Content) (i : nat)
    : option (Commit * string) :=
  match cs !! S i, news !! S i with
  | Some c, Some o => Some (c, date_format o)
  | _, _ => None
  end.

Definition linked_revision (g : git_class) (next : option (Commit * string))
    (k i : nat) (o1 : Content) : Content :=
  let o2 :=
    if (i <? k)%nat
    then dated (fromtimestamp (authored_date (commit g)))
               (set_git (Some g) o1)
    else o1 in
  match next with
  | Some (c', fmt) =>
      if (S i <? k)%nat
      then superseded (fromtimestamp (authored_date c')) fmt o2
      else o2
  | None => o2
  end.

(** [chained content path rl n0 cs news k s]: before round [k] of the
    second loop the revisions in the state [s] are those of
    [linked_revision]. *)
Definition chained (content : ref) (path : string) (rl : lref) (n0 : nat)
    (cs : list Commit) (news : list Content) (k : nat) (s : State) : Prop :=
  forall i c o1,
    cs !! i = Some c -> news !! i = Some o1 ->
    objs s !! (n0 + i)%nat
    = Some (linked_revision
              (expected_link content path rl (seq n0 (length news)) i c)
              (successor cs news i) k i o1).

End Chained.

(** ** What a run of the plugin's code keeps

    [grows n m st st']: from [st] to [st'] no object and no list went
    away, no entry left the table of lookups and no probe left the trace; the
    objects below [m] differ at most in the dates, their renderings and
    [git]; the lists below [n] are as they were. *)
Record grows (n m : nat) (st st' : State) : Prop := {
  grows_size : (length (objs st) <= length (objs st'))%nat;
  grows_objs : forall r o,
    (r < m)%nat -> objs st !! r = Some o ->
    exists o', objs st' !! r = Some o' /\ undated o' = undated o;
  grows_lists_size : (length (lists st) <= length (lists st'))%nat;
  grows_lists : forall l xs,
    (l < n)%nat -> lists st !! l = Some xs -> lists st' !! l = Some xs;
  grows_cache : forall p r,
    repo_cache st !! p = Some r -> repo_cache st' !! p = Some r;
  grows_probes : exists more, probes st' = probes st ++ more
}.

(** [keeps n m Q c]: run in a state with at least [n] lists and [m]
    objects, the computation [c] ends, however it ends, in a state that
    [grows] from the one it started in; a value it returns satisfies
    [Q]. *)
Definition keeps {A} (n m : nat) (Q : A -> Prop) (c : M A) : Prop :=
  forall st,
    (n <= length (lists st))%nat -> (m <= length (objs st))%nat ->
    grows n m st (snd (c st))
    /\ forall a, fst (c st) = Ret a -> Q a.

(** ** The store after a chain has been built

    [built content live repository st st']: [st'] is [st] after the hook
    built the chain of the document [live] at [content].  The revisions are
    new objects, one per commit of the history and in its order; the list of
    their references is a new list; the live document has its [git] tuple
    and the dates inferred from the history; every other object is as it
    was. *)
Section Built.
Context `{W : World}.

Record built (content : ref) (live : Content) (repository : Repo)
    (st st' : State) : Prop := {
  built_lists :
    lists st'
    = lists st
        ++ [seq (length (objs st))
                (length (history repository (source_path live)))];
  built_size :
    length (objs st')
    = (length (objs st)
       + length (history repository (source_path live)))%nat;
  built_old : forall r,
    (r < length (objs st))%nat -> r <> content ->
    objs st' !! r = objs st !! r;
  built_live : forall first_commit latest_commit,
    let commits := history repository (source_path live) in
    let revs := seq (length (objs st)) (length commits) in
    commits !! 0%nat = Some first_commit ->
    last commits = Some latest_commit ->
    objs st' !! content
    = Some (set_git
              (Some {| commit := latest_commit;
                       file_path :=
                         make_repository_file_path repository
                           (source_path live);
                       revisions := length (lists st);
                       previous_revision :=
                         if 1 <? Z.of_nat (length revs)
                         then revs !! (length revs - 2)%nat else None;
                       next_revision := None |})
              (inferred first_commit latest_commit live));
  built_revisions : forall i c,
    let commits := history repository (source_path live) in
    let revs := seq (length (objs st)) (length commits) in
    commits !! i = Some c ->
    exists o parsed,
      objs st' !! (length (objs st) + i)%nat = Some o
      /\ parse_commit live repository c = Some parsed
      /\ undated o = undated (materialized live c parsed)
      /\ git o
         = Some (expected_link content
                   (make_repository_file_path repository (source_path live))
                   (length (lists st)) revs i c)
}.

End Built.

(** ** A fresh live document under version control

    [tracked content live repository commits st]: in the state [st] the
    object at [content] is the document [live], not [Static] and without a
    [git] attribute; the repository lookup for its directory yields
    [repository], and [commits], not empty, is its history there, oldest
    commit first. *)
Section Tracked.
Context `{W : World}.

Record tracked (content : ref) (live : Content) (repository : Repo)
    (commits : list Commit) (st : State) : Prop := {
  tracked_object : objs st !! content = Some live;
  tracked_class : is_Static (cls live) = false;
  tracked_fresh : git live = None;
  tracked_repository :
    located st (posixpath.dirname (source_path live)) = Some repository;
  tracked_history : history repository (source_path live) = commits;
  tracked_nonempty : commits <> []
}.

End Tracked.

(** ** A small world for examples

    One repository at [/repo] tracking [content/post.md] through the commits
    of [ex_log] (newest first, as [iter_commits] yields them); a reader that
    rejects empty files. *)

Definition ex_hex (c : ascii) : string :=
  String c "0000000000000000000000000000000000000000"%string.

Definition ex_blob (b : Byte.byte) : gmap string (list Byte.byte) :=
  {[ "content/post.md" := [b] ]}.

Definition ex_c1 : Commit :=
  {| hexsha := "a1"; authored_date := 100; tree := ex_blob Byte.x31 |}.
Definition ex_c2 : Commit :=
  {| hexsha := "b2"; authored_date := 200; tree := ex_blob Byte.x32 |}.
Definition ex_c3 : Commit :=
  {| hexsha := "c3"; authored_date := 300; tree := ex_blob Byte.x33 |}.

(** A commit whose tree does not hold the file. *)
Definition ex_gone : Commit :=
  {| hexsha := "d4"; authored_date := 150; tree := ∅ |}.

Definition ex_repo (log : list Commit) : Repo :=
  {| working_dir := "/repo";
     iter_commits := fun p =>
       Some (if String.eqb p "content/post.md" then log else []) |}.


Definition ex_parsed : Parsed :=
  {| p_source_path := "/tmp/tmpq1w2e3"; p_date_format := "%Y";
     p_date := None; p_locale_date := None;
     p_modified := None; p_locale_modified := None;
     p_url_setting := "tmpq1w2e3.html"; p_save_as_setting := "tmpq1w2e3.html";
     p_override_url := None; p_override_save_as := None |}.

Definition ex_strftime (d : SafeDatetime) (fmt : string) : string :=
  match d with
  | fromtimestamp ts =>
      fmt +:+ (if ts =? 100 then "@100" else if ts =? 200 then "@200"
               else if ts =? 300 then "@300" else "@")
  end.

Definition ex_relpath (path start : string) : string :=
  if String.prefix (start +:+ "/") path
  then Str.drop (String.length start + 1) path else path.

Definition ex_world (log : list Commit) : World :=
  {| strftime := ex_strftime;
     relpath := ex_relpath;
     git_Repo := fun root =>
       if String.eqb root "/repo" then Opened (ex_repo log)
       else if String.prefix "/gone" root then NoSuchPath
            else InvalidGitRepositoryError;
     read_file := fun _ data _ _ _ =>
       match data with [] => None | _ => Some ex_parsed end |}.


Definition ex_live : Content :=
  {| cls := Article; settings := {| PATH := "/repo/content" |};
     context_ := []; source_path := "/repo/content/post.md";
     date_format := "%d"; date := None; locale_date := None;
     modified := None; locale_modified := None;
     url_setting := "post.html"; save_as_setting := "post.html";
     override_url := None; override_save_as := None; git := None |}.

Definition ex_state (c : Content) : State :=
  {| objs := [c]; lists := []; repo_cache := ∅; probes := [] |}.

Definition ex_log : list Commit := [ex_c3; ex_c2; ex_c1].

Definition ex_static : Content :=
  {| cls := Static; settings := {| PATH := "/repo/content" |};
     context_ := []; source_path := "/repo/content/logo.png";
     date_format := "%d"; date := None; locale_date := None;
     modified := None; locale_modified := None;
     url_setting := "logo.png"; save_as_setting := "logo.png";
     override_url := None; override_save_as := None; git := None |}.

(** A store with a chained object at reference 0 whose previous revision is
    the object at reference 1. *)
Definition ex_chained : State :=
  {| objs :=
       [ set_git (Some {| commit := ex_c2; file_path := "content/post.md";
                          revisions := 0%nat;
                          previous_revision := Some 1%nat;
                          next_revision := None |}) ex_live;
         ex_live ];
     lists := [[1%nat; 0%nat]]; repo_cache := ∅; probes := [] |}.

(** ** Notions of the specification *)

(** The components of a path: the non-empty pieces between separators. *)
Definition components (p : string) : list string :=
  List.filter (fun s => negb (Str.is_empty s)) (Str.split posixpath.sep p).

Fixpoint join_components (cs : list string) : string :=
  match cs with
  | [] => ""
  | c :: cs' => "/" +:+ c +:+ join_components cs'
  end.

(** The absolute path with the given components; the filesystem root for
    none. *)
Definition abs_path (cs : list string) : string :=
  match cs with
  | [] => "/"
  | _ => join_components cs
  end.

(** An absolute path in normal form, as [os.path.abspath] and
    [os.path.dirname] of such a path yield it: it is spelt by its
    components alone, with no trailing or doubled separator. *)
Definition normalized (p : string) : Prop := abs_path (components p) = p.

(** The ancestor directories of a path, the path itself first and the
    filesystem root last: the last component is dropped until none is left.
    [rcs] holds the components innermost first. *)
Fixpoint ancestors_of (rcs : list string) : list string :=
  abs_path (rev rcs)
    :: match rcs with
       | [] => []
       | _ :: rcs' => ancestors_of rcs'
       end.

Definition ancestors (p : string) : list string :=
  ancestors_of (rev (components p)).

(** An absolute path that names a directory as [os.path.dirname] yields
    it: it begins with the separator and does not end in it, unless it
    consists of separators and so names the root.  Separators may be
    doubled inside. *)
Definition rooted (p : string) : bool :=
  Str.startswith posixpath.sep p
  && (negb (Str.endswith posixpath.sep p) || Str.all_eq posixpath.sep p).

(** The ancestor directories by their components, the directory itself
    first and the root last; [rcs] holds the components innermost first. *)
Fixpoint ancestor_components (rcs : list string) : list (list string) :=
  rev rcs
    :: match rcs with
       | [] => []
       | _ :: rcs' => ancestor_components rcs'
       end.

(** [dirs] spells the ancestor directories of [p], [p] itself first and
    the root last: each is an absolute path and a prefix of [p], and their
    components are those of [p] with one more dropped each time. *)
Definition spells_ancestors (p : string) (dirs : list string) : Prop :=
  head dirs = Some p
  /\ map components dirs = ancestor_components (rev (components p))
  /\ Forall (fun d => rooted d = true /\ exists rest, p = d +:+ rest) dirs.

(** The directories [posixpath.split] leads through from [root], [root]
    first: each is the head of the one before, until a tail is empty. *)
Fixpoint split_chain (fuel : nat) (root : string) : list string :=
  match fuel with
  | O => []
  | S fuel' =>
      root
        :: (let '(head, tail) := posixpath.split root in
            if Str.is_empty tail then [] else split_chain fuel' head)
  end.

(** How a walk along a list of directories ends: with the first
    version-control root, with the exception for the first directory that
    does not exist, or with none. *)
Fixpoint first_root `{W : World} (dirs : list string)
    : outcome (option Repo) :=
  match dirs with
  | [] => Ret None
  | d :: dirs' =>
      match git_Repo d with
      | Opened r => Ret (Some r)
      | NoSuchPath => Raise NoSuchPathError
      | InvalidGitRepositoryError => first_root dirs'
      end
  end.

(** The directories visited up to and including the one the walk ends
    at. *)
Fixpoint until_root `{W : World} (dirs : list string) : list string :=
  match dirs with
  | [] => []
  | d :: dirs' =>
      match git_Repo d with
      | InvalidGitRepositoryError => d :: until_root dirs'
      | _ => [d]
      end
  end.

(** A call whose result is dropped and whose exception is caught. *)
Definition attempt {A} (m : M A) : M unit :=
  fun st =>
    match m st with
    | (OutOfFuel, st') => (OutOfFuel, st')
    | (_, st') => (Ret tt, st')
    end.

(** A sequence of repository lookups by a caller that goes on after a
    lookup that failed. *)
Definition lookups `{W : World} (paths : list string) : M unit :=
  for_each paths (fun p => attempt (discover_repository p)).

(** The output path of a revision in the words of the specification: the
    per-document segment is left out when the root of the live document's
    file name is [index]. *)
Definition spec_save_as (live_url live_save_as hash : string) : string :=
  let filename := posixpath.basename live_save_as in
  let '(root, ext) := posixpath.splitext filename in
  let base :=
    if Str.endswith posixpath.sep live_url then live_url
    else posixpath.dirname live_url in
  posixpath.join base
    ((if String.eqb root "index" then [] else [root])
       ++ [hash; "index" +:+ ext]).

(** A commit hash as a path segment: not empty and free of separators (a
    [hexsha] is forty hexadecimal digits). *)
Definition segment_like (h : string) : bool :=
  negb (Str.is_empty h) && negb (Str.contains posixpath.sep h).

Definition is_hex_digit (a : ascii) : bool :=
  let n := nat_of_ascii a in
  ((48 <=? n) && (n <=? 57) || (97 <=? n) && (n <=? 102))%nat.

Fixpoint all_hex (s : string) : bool :=
  match s with
  | "" => true
  | String a s' => is_hex_digit a && all_hex s'
  end.

(** [hexsha] as GitPython yields it. *)
Definition is_hexsha (h : string) : bool :=
  (String.length h =? 40)%nat && all_hex h.

(** ** Publishing the revisions

    [on_content_writer_finalized] (lines 133-153), the receiver of
    Pelican's [article_writer_finalized] and [page_writer_finalized]
    signals.  It reads the store and calls [writer.write_file] once per
    revision; the calls that returned are recorded in order.  Of the
    objects it reads [template] and [category], which the plugin never
    assigns; they are given per object by the host, as are
    [generator.get_template] ([None]: the template is not found and the call
    raises) and [writer.write_file] ([false]: the writer raises). *)

(** The values passed as keyword arguments to [write_file]. *)
Inductive kwarg : Type :=
| KStr (s : string)
| KTemplate (t : string)
| KContent (r : ref)
| KContext (c : Context)
| KBool (b : bool).

(** The generator: its articles and pages, its context and the setting
    ['RELATIVE_URLS']. *)
Record Generator : Type := {
  articles : list ref;
  pages : list ref;
  generator_context : Context;
  RELATIVE_URLS : bool
}.

Class Host : Type := {
  template_of : ref -> string;
  category_of : ref -> string;
  get_template : string -> option string;
  write_file : gmap string kwarg -> bool
}.

Inductive publish_exn : Type :=
| TemplateNotFound   (* [generator.get_template] raised *)
| WriteError         (* [writer.write_file] raised *)
| DanglingRef.       (* a reference that the store does not hold *)

Section Publisher.
Context `{H : Host}.

(** The keyword arguments of one call: the dictionary literal of lines
    144-149, keys assigned in its order, under the keywords bound by
    [functools.partial] at lines 135-137 (a keyword of the call takes
    precedence over a bound one). *)
Definition write_kwargs (content_type : string) (generator : Generator)
    (revision : ref) (name template : string) : gmap string kwarg :=
  (<["category" := KStr (category_of revision)]>
     (<[content_type := KContent revision]>
        (<["template" := KTemplate template]>
           (<["name" := KStr name]> ∅))))
  ∪ (<["relative_urls" := KBool (RELATIVE_URLS generator)]>
       (<["context" := KContext (generator_context generator)]> ∅)).

(** The inner loop (lines 143-149): one call per revision.  The result is
    the exception that ended the loop, if any, and the calls made so far
    added to [out]. *)
Fixpoint write_revisions (content_type : string) (generator : Generator)
    (st : State) (revs : list ref) (out : list (gmap string kwarg))
    : option publish_exn * list (gmap string kwarg) :=
  match revs with
  | [] => (None, out)
  | revision :: revs' =>
      match objs st !! revision with
      | None => (Some DanglingRef, out)
      | Some r =>
          match get_template (template_of revision) with
          | None => (Some TemplateNotFound, out)
          | Some template =>
              let kw := write_kwargs content_type generator revision
                          (save_as r) template in
              if write_file kw
              then write_revisions content_type generator st revs'
                     (out ++ [kw])
              else (Some WriteError, out)
          end
      end
  end.

(** The outer loop (lines 139-143) over [contents]. *)
Fixpoint write_contents (content_type : string) (generator : Generator)
    (st : State) (contents : list ref) (out : list (gmap string kwarg))
    : option publish_exn * list (gmap string kwarg) :=
  match contents with
  | [] => (None, out)
  | content :: contents' =>
      match objs st !! content with
      | None => (Some DanglingRef, out)
      | Some c =>
          match git c with
          | None => write_contents content_type generator st contents' out
          | Some g =>
              match lists st !! revisions g with
              | None => (Some DanglingRef, out)
              | Some revs =>
                  match write_revisions content_type generator st revs out
                  with
                  | (None, out') =>
                      write_contents content_type generator st contents'
                        out'
                  | failed => failed
                  end
              end
          end
      end
  end.

Definition on_content_writer_finalized (content_type : string)
    (generator : Generator) (st : State) (out : list (gmap string kwarg))
    : option publish_exn * list (gmap string kwarg) :=
  let contents :=
    if String.eqb content_type "article" then articles generator
    else pages generator in
  write_contents content_type generator st contents out.

Definition on_article_writer_finalized :=
  on_content_writer_finalized "article".
Definition on_page_writer_finalized :=
  on_content_writer_finalized "page".

End Publisher.

(** The revisions the publisher reads off a document:
    [content.git.revisions], and none for a document without [git]. *)
Definition revisions_of (st : State) (content : ref) : list ref :=
  match objs st !! content with
  | Some c =>
      match git c with
      | Some g => default [] (lists st !! revisions g)
      | None => []
      end
  | None => []
  end.

(** A host for the examples: every template is found; the writer refuses
    the names in [refused]. *)
Definition ex_host (refused : list string) : Host :=
  {| template_of := fun _ => "article";
     category_of := fun _ => "misc";
     get_template := fun t => Some t;
     write_file := fun kw =>
       match kw !! "name" with
       | Some (KStr n) => negb (existsb (String.eqb n) refused)
       | _ => true
       end |}.

(** * Properties *)

(** stdpp keeps [simpl] from unfolding string concatenation; the proofs
    below compute with it. *)
#[local] Arguments String.append !s1 s2 / : simpl nomatch.

(** ** The model of [posixpath] on examples *)

Example split_ex1 : posixpath.split "/a/b" = ("/a", "b").
Proof. reflexivity. Qed.
Example split_ex2 : posixpath.split "/a" = ("/", "a").
Proof. reflexivity. Qed.
Example split_ex3 : posixpath.split "/" = ("/", "").
Proof. reflexivity. Qed.
Example split_ex4 : posixpath.split "/a/b/" = ("/a/b", "").
Proof. reflexivity. Qed.
Example split_ex5 : posixpath.split "a" = ("", "a").
Proof. reflexivity. Qed.
Example split_ex6 : posixpath.split "/a//b" = ("/a", "b").
Proof. reflexivity. Qed.
Example splitext_ex1 : posixpath.splitext "a/b.tar.gz" = ("a/b.tar", ".gz").
Proof. reflexivity. Qed.
Example splitext_ex2 : posixpath.splitext "a/.bashrc" = ("a/.bashrc", "").
Proof. reflexivity. Qed.
Example splitext_ex3 : posixpath.splitext "a.b/c" = ("a.b/c", "").
Proof. reflexivity. Qed.
Example splitext_ex4 : posixpath.splitext "..x.y" = ("..x", ".y").
Proof. reflexivity. Qed.
Example join_ex1 : posixpath.join "a" [""; "h"; "index.html"] = "a/h/index.html".
Proof. reflexivity. Qed.
Example join_ex2 : posixpath.join "" [""; "h"; "index.html"] = "h/index.html".
Proof. reflexivity. Qed.
Example split_py : Str.split "/" "/a//b/" = [""; "a"; ""; "b"; ""].
Proof. reflexivity. Qed.

(** ** Strings and paths *)

Module StrFacts.

Lemma append_nil_r (s : string) : s +:+ "" = s.
Proof. induction s as [|a s IH]; simpl; [reflexivity | now rewrite IH]. Qed.

Lemma append_assoc (a b c : string) : (a +:+ b) +:+ c = a +:+ b +:+ c.
Proof. induction a as [|x a IH]; simpl; [reflexivity | now rewrite IH]. Qed.

Lemma length_append (a b : string) :
  String.length (a +:+ b) = (String.length a + String.length b)%nat.
Proof. induction a as [|x a IH]; simpl; [reflexivity | now rewrite IH]. Qed.

Lemma take_drop (n : nat) (s : string) : Str.take n s +:+ Str.drop n s = s.
Proof.
  revert s; induction n as [|n IH]; intros [|a s]; simpl; try reflexivity.
  now rewrite IH.
Qed.

Lemma take_app (a b : string) : Str.take (String.length a) (a +:+ b) = a.
Proof. induction a as [|x a IH]; simpl; [now destruct b | now rewrite IH]. Qed.

Lemma drop_app (a b : string) : Str.drop (String.length a) (a +:+ b) = b.
Proof. induction a as [|x a IH]; simpl; [reflexivity | exact IH]. Qed.

Lemma rfind_lower (c : ascii) (s : string) : -1 <= Str.rfind c s.
Proof.
  induction s as [|a s IH]; simpl; [lia|].
  destruct (0 <=? Str.rfind c s) eqn:E; [apply Z.leb_le in E; lia|].
  destruct (Ascii.eqb a c); lia.
Qed.

Lemma rfind_absent (c : ascii) (s : string) :
  Str.contains c s = false -> Str.rfind c s = -1.
Proof.
  induction s as [|a s IH]; simpl; [reflexivity|].
  intros H. apply orb_false_iff in H as [Ha Hs].
  rewrite (IH Hs), Ha. reflexivity.
Qed.

(** The last separator of [a ++ c ++ t] is the one written out when [t]
    holds none. *)
Lemma rfind_app (c : ascii) (a t : string) :
  Str.contains c t = false ->
  Str.rfind c (a +:+ String c t) = Z.of_nat (String.length a).
Proof.
  intros Ht. induction a as [|x a IH]; simpl.
  - rewrite (rfind_absent _ _ Ht). simpl. now rewrite Ascii.eqb_refl.
  - rewrite IH. destruct (0 <=? Z.of_nat (String.length a)) eqn:E.
    + lia.
    + apply Z.leb_gt in E. lia.
Qed.

Lemma cut_app (a t : string) :
  Str.contains posixpath.sep t = false ->
  posixpath.cut (a +:+ "/" +:+ t) = (a +:+ "/", t).
Proof.
  intros Ht. unfold posixpath.cut.
  change (a +:+ "/" +:+ t) with (a +:+ String posixpath.sep t).
  rewrite (rfind_app _ _ _ Ht).
  replace (Z.to_nat (Z.of_nat (String.length a) + 1))
    with (String.length (a +:+ "/")) by (rewrite length_append; simpl; lia).
  change (a +:+ String posixpath.sep t) with (a +:+ "/" +:+ t).
  rewrite <- (append_assoc a "/" t).
  now rewrite take_app, drop_app.
Qed.

Lemma cut_no_sep (t : string) :
  Str.contains posixpath.sep t = false -> posixpath.cut t = ("", t).
Proof.
  intros Ht. unfold posixpath.cut. rewrite (rfind_absent _ _ Ht). simpl.
  now destruct t.
Qed.

Lemma cut_append (p : string) :
  fst (posixpath.cut p) +:+ snd (posixpath.cut p) = p.
Proof. unfold posixpath.cut; simpl. apply take_drop. Qed.

Lemma rstrip_length (c : ascii) (s : string) :
  (String.length (Str.rstrip c s) <= String.length s)%nat.
Proof.
  induction s as [|a s IH]; simpl; [lia|].
  destruct (Str.rstrip c s) eqn:E; simpl in *.
  - destruct (Ascii.eqb a c); simpl; lia.
  - lia.
Qed.

Lemma rstrip_app_sep (c : ascii) (s : string) :
  Str.rstrip c (s +:+ String c "") = Str.rstrip c s.
Proof.
  induction s as [|a s IH]; simpl.
  - now rewrite Ascii.eqb_refl.
  - now rewrite IH.
Qed.

Lemma rstrip_id (c : ascii) (s : string) :
  Str.endswith c s = false -> Str.rstrip c s = s.
Proof.
  induction s as [|a s IH]; simpl; [reflexivity|].
  destruct s as [|b s].
  - intros ->. reflexivity.
  - intros H. rewrite (IH H). reflexivity.
Qed.

Lemma strip_head_length (h : string) :
  (String.length (posixpath.strip_head h) <= String.length h)%nat.
Proof.
  unfold posixpath.strip_head.
  destruct (negb (Str.is_empty h) && negb (Str.all_eq posixpath.sep h));
    [apply rstrip_length | lia].
Qed.

(** [split] never lengthens the head, and a non-empty tail shortens it. *)
Lemma split_length (p h t : string) :
  posixpath.split p = (h, t) ->
  (String.length h + String.length t <= String.length p)%nat.
Proof.
  unfold posixpath.split. destruct (posixpath.cut p) as [h0 t0] eqn:E.
  intros [= <- <-].
  pose proof (cut_append p) as Hp. rewrite E in Hp; simpl in Hp.
  rewrite <- Hp, length_append.
  pose proof (strip_head_length h0). lia.
Qed.

Lemma endswith_app_sep (c : ascii) (s : string) :
  Str.endswith c (s +:+ String c "") = true.
Proof.
  induction s as [|a s IH]; simpl; [apply Ascii.eqb_refl|].
  destruct (s +:+ String c "") eqn:E; [now destruct s | exact IH].
Qed.

Lemma endswith_inv (c : ascii) (s : string) :
  Str.endswith c s = true -> exists q, s = q +:+ String c "".
Proof.
  induction s as [|a s IH]; simpl; [discriminate|].
  destruct s as [|b s].
  - intros H. apply Ascii.eqb_eq in H as ->. now exists "".
  - intros H. destruct (IH H) as [q ->]. now exists (String a q).
Qed.

Lemma is_empty_app (a b : string) :
  Str.is_empty (a +:+ b) = Str.is_empty a && Str.is_empty b.
Proof. now destruct a. Qed.

(** The last character of a non-empty, separator-free string is not the
    separator. *)
Lemma endswith_app_free (c : ascii) (a h : string) :
  Str.is_empty h = false -> Str.contains c h = false ->
  Str.endswith c (a +:+ h) = false.
Proof.
  intros Hne Hfree.
  assert (Hh : Str.endswith c h = false).
  { clear Hne. induction h as [|x h IH]; simpl in *; [reflexivity|].
    apply orb_false_iff in Hfree as [Hx Hh].
    destruct h; [exact Hx | now apply IH]. }
  induction a as [|x a IH]; simpl; [exact Hh|].
  destruct (a +:+ h) eqn:E; [|exact IH].
  destruct a; simpl in E; [subst h; discriminate | discriminate].
Qed.

Lemma startswith_free (c : ascii) (h : string) :
  Str.contains c h = false -> Str.startswith c h = false.
Proof.
  destruct h; simpl; [reflexivity|].
  intros H. now apply orb_false_iff in H as [H _].
Qed.

(** [split] of Python's [str]: the pieces never hold the separator. *)
Lemma split_free (c : ascii) (s w : string) :
  In w (Str.split c s) -> Str.contains c w = false.
Proof.
  revert w. induction s as [|a s IH]; simpl; intros w.
  - intros [<-|[]]. reflexivity.
  - destruct (Ascii.eqb a c) eqn:E.
    + intros [<-|H]; [reflexivity | now apply IH].
    + destruct (Str.split c s) as [|w0 ws] eqn:Es.
      * intros [<-|[]]. simpl. now rewrite E.
      * intros [<-|H].
        -- simpl. rewrite E. apply IH. now left.
        -- apply IH. now right.
Qed.

Lemma split_nonnil (c : ascii) (s : string) : Str.split c s <> [].
Proof.
  induction s as [|a s IH]; simpl; [discriminate|].
  destruct (Ascii.eqb a c); [discriminate|].
  destruct (Str.split c s); discriminate.
Qed.

Lemma split_absent (c : ascii) (s : string) :
  Str.contains c s = false -> Str.split c s = [s].
Proof.
  induction s as [|a s IH]; simpl; [reflexivity|].
  intros H. apply orb_false_iff in H as [Ha Hs].
  now rewrite Ha, (IH Hs).
Qed.

Lemma split_app (c : ascii) (q s : string) :
  Str.split c (q +:+ String c s) = Str.split c q ++ Str.split c s.
Proof.
  induction q as [|a q IH]; simpl.
  - now rewrite Ascii.eqb_refl.
  - destruct (Ascii.eqb a c); rewrite IH; [reflexivity|].
    pose proof (split_nonnil c q).
    destruct (Str.split c q); [congruence | reflexivity].
Qed.

(** Two separator-free strings followed by a separator: equal wholes have
    equal parts. *)
Lemma free_prefix_inj (c : ascii) (a b x y : string) :
  Str.contains c a = false -> Str.contains c b = false ->
  a +:+ String c x = b +:+ String c y -> a = b /\ x = y.
Proof.
  revert b. induction a as [|u a IH]; intros [|v b]; simpl; intros Ha Hb E.
  - now inversion E.
  - inversion E; subst v. now rewrite Ascii.eqb_refl in Hb.
  - inversion E; subst u. now rewrite Ascii.eqb_refl in Ha.
  - apply orb_false_iff in Ha as [_ Ha]. apply orb_false_iff in Hb as [_ Hb].
    inversion E; subst v. destruct (IH b Ha Hb H1) as [-> ->]. now split.
Qed.

End StrFacts.

(** ** Joining paths *)

Module JoinFacts.
Import StrFacts.

(** An empty component in the middle of a [join] is as good as none. *)
Lemma join_step_empty (a b : string) :
  posixpath.join_step (posixpath.join_step a "") b = posixpath.join_step a b.
Proof.
  unfold posixpath.join_step at 1 3.
  destruct (Str.startswith posixpath.sep b) eqn:Hb; [reflexivity|].
  unfold posixpath.join_step; simpl Str.startswith; cbv iota.
  destruct (Str.is_empty a || Str.endswith posixpath.sep a) eqn:Ha.
  - rewrite append_nil_r, Ha. reflexivity.
  - change (a +:+ "/" +:+ "") with (a +:+ String posixpath.sep "").
    rewrite endswith_app_sep, orb_true_r.
    now rewrite append_assoc.
Qed.

(** What [join] makes of a base, a hash and a file name: the hash sits
    between separators, or at the very start. *)
Lemma join_hash (base h file : string) :
  segment_like h = true ->
  Str.startswith posixpath.sep file = false ->
  exists pre,
    posixpath.join base [h; file] = pre +:+ h +:+ "/" +:+ file /\
    (pre = "" \/ exists q, pre = q +:+ "/") /\
    (forall h', segment_like h' = true ->
       posixpath.join base [h'; file] = pre +:+ h' +:+ "/" +:+ file).
Proof.
  intros Hh Hfile.
  set (pre := if Str.is_empty base || Str.endswith posixpath.sep base
              then base else base +:+ "/").
  assert (Hstep : forall x, segment_like x = true ->
            posixpath.join base [x; file] = pre +:+ x +:+ "/" +:+ file).
  { intros x Hx. unfold segment_like in Hx.
    apply andb_true_iff in Hx as [Hne Hfree].
    apply negb_true_iff in Hne, Hfree.
    unfold posixpath.join; simpl fold_left.
    assert (E1 : posixpath.join_step base x = pre +:+ x).
    { unfold posixpath.join_step. rewrite (startswith_free _ _ Hfree).
      unfold pre.
      destruct (Str.is_empty base || Str.endswith posixpath.sep base);
        [reflexivity | now rewrite append_assoc]. }
    rewrite E1. unfold posixpath.join_step. rewrite Hfile.
    rewrite is_empty_app, Hne, andb_false_r.
    rewrite (endswith_app_free _ pre x Hne Hfree). simpl orb; cbv iota.
    now rewrite append_assoc. }
  exists pre. split; [now apply Hstep|]. split; [|exact Hstep].
  unfold pre. destruct (Str.is_empty base) eqn:Eb; simpl.
  - left. now destruct base.
  - destruct (Str.endswith posixpath.sep base) eqn:Ee.
    + right. destruct (endswith_inv _ _ Ee) as [q ->]. now exists q.
    + right. now exists base.
Qed.

(** The hash is one of the pieces between separators. *)
Lemma hash_segment (pre h rest : string) :
  segment_like h = true ->
  (pre = "" \/ exists q, pre = q +:+ "/") ->
  In h (Str.split posixpath.sep (pre +:+ h +:+ "/" +:+ rest)).
Proof.
  intros Hh Hpre. unfold segment_like in Hh.
  apply andb_true_iff in Hh as [_ Hfree]. apply negb_true_iff in Hfree.
  assert (E : Str.split posixpath.sep (h +:+ "/" +:+ rest)
              = h :: Str.split posixpath.sep rest).
  { change (h +:+ "/" +:+ rest) with (h +:+ String posixpath.sep rest).
    now rewrite split_app, (split_absent _ _ Hfree). }
  destruct Hpre as [-> | [q ->]].
  - change ("" +:+ h +:+ "/" +:+ rest) with (h +:+ "/" +:+ rest).
    rewrite E. now left.
  - rewrite append_assoc.
    change (q +:+ "/" +:+ h +:+ "/" +:+ rest)
      with (q +:+ String posixpath.sep (h +:+ "/" +:+ rest)).
    rewrite split_app, E. apply in_or_app. right. now left.
Qed.

Lemma hexsha_segment_like (h : string) :
  is_hexsha h = true -> segment_like h = true.
Proof.
  unfold is_hexsha, segment_like. intros H.
  apply andb_true_iff in H as [Hlen Hhex].
  apply Nat.eqb_eq in Hlen.
  apply andb_true_iff. split.
  - destruct h; [discriminate | reflexivity].
  - clear Hlen. apply negb_true_iff.
    induction h as [|a h IH]; simpl in *; [reflexivity|].
    apply andb_true_iff in Hhex as [Ha Hh].
    rewrite (IH Hh), orb_false_r.
    destruct (Ascii.eqb a posixpath.sep) eqn:E; [|reflexivity].
    apply Ascii.eqb_eq in E. subst a. discriminate.
Qed.

End JoinFacts.

(** ** The output path of a revision *)

Section SavePath.
Import StrFacts JoinFacts.

(** The path of lines 98-107 in the shape [pre ++ hash ++ "/index" ++ ext],
    where [pre] and [ext] depend on the live document alone. *)
Lemma revision_save_as_shape (live : Content) :
  exists pre ext,
    (pre = "" \/ exists q, pre = q +:+ "/") /\
    forall c, segment_like (hexsha c) = true ->
      revision_save_as live c
      = pre +:+ hexsha c +:+ "/" +:+ "index" +:+ ext.
Proof.
  unfold revision_save_as.
  destruct (posixpath.splitext (posixpath.basename (save_as live)))
    as [root ext].
  set (base := if Str.endswith posixpath.sep (url live) then url live
               else posixpath.dirname (url live)).
  set (seg := if negb (String.eqb root "index") then root else "").
  set (c0 := {| hexsha := "0"; authored_date := 0; tree := ∅ |}).
  destruct (join_hash (posixpath.join_step base seg) (hexsha c0)
                      ("index" +:+ ext) eq_refl eq_refl)
    as (pre & _ & Hpre & Hall).
  exists pre, ext. split; [exact Hpre|].
  intros c Hc. exact (Hall _ Hc).
Qed.

(** The code passes an empty component where the specification leaves
    the segment out; [join] makes the same path of both. *)
Lemma revision_save_as_spec (live : Content) (c : Commit) :
  revision_save_as live c
  = spec_save_as (url live) (save_as live) (hexsha c).
Proof.
  unfold revision_save_as, spec_save_as.
  destruct (posixpath.splitext (posixpath.basename (save_as live)))
    as [root ext].
  destruct (String.eqb root "index"); simpl negb; cbv iota.
  - unfold posixpath.join. simpl fold_left.
    now rewrite join_step_empty.
  - reflexivity.
Qed.

Lemma save_as_distinct (live : Content) (c1 c2 : Commit) :
  segment_like (hexsha c1) = true -> segment_like (hexsha c2) = true ->
  hexsha c1 <> hexsha c2 ->
  revision_save_as live c1 <> revision_save_as live c2.
Proof.
  intros H1 H2 Hne E.
  destruct (revision_save_as_shape live) as (pre & ext & _ & Hshape).
  rewrite (Hshape _ H1), (Hshape _ H2) in E.
  apply String.app_inj in E.
  unfold segment_like in H1, H2.
  apply andb_true_iff in H1 as [_ F1]. apply negb_true_iff in F1.
  apply andb_true_iff in H2 as [_ F2]. apply negb_true_iff in F2.
  destruct (free_prefix_inj posixpath.sep _ _ _ _ F1 F2 E) as [E' _].
  exact (Hne E').
Qed.

Lemma save_as_has_hash (live : Content) (c : Commit) :
  segment_like (hexsha c) = true ->
  In (hexsha c) (Str.split posixpath.sep (revision_save_as live c)).
Proof.
  intros H.
  destruct (revision_save_as_shape live) as (pre & ext & Hpre & Hshape).
  rewrite (Hshape _ H). now apply hash_segment.
Qed.

End SavePath.

(** ** Repository discovery *)

Module PathFacts.
Import StrFacts.

Lemma components_segment_like (p : string) :
  Forall (fun c => segment_like c = true) (components p).
Proof.
  apply List.Forall_forall. intros w Hw.
  apply filter_In in Hw as [Hin Hne].
  unfold segment_like. rewrite Hne. simpl.
  now rewrite (split_free _ _ _ Hin).
Qed.

Lemma join_components_app (cs : list string) (c : string) :
  join_components (cs ++ [c]) = join_components cs +:+ "/" +:+ c.
Proof.
  induction cs as [|x cs IH]; simpl.
  - now rewrite append_nil_r.
  - rewrite IH. now rewrite append_assoc.
Qed.

Lemma length_join_components (cs : list string) :
  (length cs <= String.length (join_components cs))%nat.
Proof.
  induction cs as [|x cs IH]; simpl; [lia|].
  rewrite length_append. lia.
Qed.

Lemma length_abs_path (cs : list string) :
  (length cs <= String.length (abs_path cs))%nat.
Proof.
  destruct cs; [simpl; lia|]. apply (length_join_components (_ :: _)).
Qed.

Lemma segment_like_inv (c : string) :
  segment_like c = true ->
  Str.is_empty c = false /\ Str.contains posixpath.sep c = false.
Proof.
  unfold segment_like. intros H. apply andb_true_iff in H as [H1 H2].
  now apply negb_true_iff in H1, H2.
Qed.

(** The path of a non-empty list of components neither ends in the
    separator nor consists of separators. *)
Lemma join_components_end (cs : list string) :
  Forall (fun c => segment_like c = true) cs -> cs <> [] ->
  Str.endswith posixpath.sep (join_components cs) = false
  /\ Str.all_eq posixpath.sep (join_components cs +:+ "/") = false
  /\ Str.is_empty (join_components cs +:+ "/") = false.
Proof.
  intros Hall Hne. split; [|split].
  - destruct (exists_last Hne) as (cs' & c & ->).
    apply Forall_app in Hall as [_ Hc].
    apply Forall_cons in Hc as [Hc _].
    apply segment_like_inv in Hc as [Hc1 Hc2].
    rewrite join_components_app, <- append_assoc.
    now apply endswith_app_free.
  - destruct cs as [|c cs]; [congruence|].
    apply Forall_cons in Hall as [Hc _].
    apply segment_like_inv in Hc as [Hc1 Hc2].
    destruct c as [|x c]; [discriminate|]. simpl in *.
    apply orb_false_iff in Hc2 as [Hx _]. now rewrite Hx.
  - destruct cs; [congruence | reflexivity].
Qed.

(** [split] takes the last component off. *)
Lemma split_abs_path (cs : list string) (c : string) :
  Forall (fun c => segment_like c = true) cs -> segment_like c = true ->
  posixpath.split (abs_path (cs ++ [c])) = (abs_path cs, c).
Proof.
  intros Hall Hc. apply segment_like_inv in Hc as [Hc1 Hc2].
  assert (E : abs_path (cs ++ [c]) = join_components cs +:+ "/" +:+ c).
  { rewrite <- join_components_app. now destruct cs. }
  rewrite E. unfold posixpath.split. rewrite (cut_app _ _ Hc2).
  f_equal. destruct cs as [|x cs]; [reflexivity|].
  destruct (join_components_end (x :: cs) Hall ltac:(discriminate))
    as (Hend & Hsep & Hemp).
  unfold posixpath.strip_head. rewrite Hemp, Hsep. simpl andb; cbv iota.
  change (join_components (x :: cs) +:+ "/")
    with (join_components (x :: cs) +:+ String posixpath.sep "").
  rewrite rstrip_app_sep. now apply rstrip_id.
Qed.

(** From a path in normal form the repeated [split] spells the ancestors
    as [ancestors_of] does. *)
Lemma split_chain_ancestors (rcs : list string) :
  Forall (fun c => segment_like c = true) rcs ->
  forall fuel : nat, (length rcs + 1 <= fuel)%nat ->
    split_chain fuel (abs_path (rev rcs)) = ancestors_of rcs.
Proof.
  induction rcs as [|c rcs IH]; intros Hall fuel Hf.
  - destruct fuel as [|fuel]; simpl in Hf; [lia|]. reflexivity.
  - apply Forall_cons in Hall as [Hc Hall].
    destruct fuel as [|fuel]; simpl in Hf; [lia|].
    cbn [split_chain ancestors_of]. f_equal.
    simpl rev. rewrite split_abs_path; [|now apply Forall_rev|exact Hc].
    apply segment_like_inv in Hc as [-> _].
    apply IH; [exact Hall | lia].
Qed.

Lemma split_chain_normalized (p : string) :
  normalized p -> split_chain (String.length p + 2) p = ancestors p.
Proof.
  intros Hn. unfold ancestors.
  pose proof (split_chain_ancestors (rev (components p))) as H.
  rewrite rev_involutive in H. unfold normalized in Hn.
  rewrite Hn in H. apply H.
  - apply Forall_rev, components_segment_like.
  - rewrite length_rev. pose proof (length_abs_path (components p)) as L.
    rewrite Hn in L. lia.
Qed.

End PathFacts.

Section Discovery.
Context `{W : World}.
Import StrFacts PathFacts.

(** The loop ends within the rounds [discover_repository] grants it: it
    returns, or it raises [NoSuchPathError]. *)
Lemma discover_loop_total (fuel : nat) (root : string)
    (tail : option string) :
  (if goes_on tail then String.length root + 2 <= fuel
   else 1 <= fuel)%nat ->
  exists out visited,
    discover_loop fuel root tail = (out, visited)
    /\ ((exists r, out = Ret r) \/ out = Raise NoSuchPathError).
Proof.
  revert root tail. induction fuel as [|fuel IH]; intros root tail Hf.
  - destruct (goes_on tail); lia.
  - cbn [discover_loop]. destruct (goes_on tail) eqn:Hgo.
    + destruct (git_Repo root) as [r| |]; [now eauto 6 | | now eauto 6].
      destruct (posixpath.split root) as [h t] eqn:Es.
      pose proof (split_length _ _ _ Es) as Hlen.
      destruct (IH h (Some t)) as (out & visited & -> & Hout);
        [|now eauto].
      simpl. destruct t as [|a t]; simpl in *; lia.
    + now eauto 6.
Qed.

Lemma discover_repository_hit (p : string) (st : State) (r : option Repo) :
  repo_cache st !! p = Some r -> discover_repository p st = (Ret r, st).
Proof. intros H. unfold discover_repository. now rewrite H. Qed.

(** A lookup returns or raises [NoSuchPathError]; it touches the table
    and the trace alone, adds its answer to the table when it returns and
    leaves the table as it is when it raises. *)
Lemma discover_repository_spec (p : string) (st : State) :
  exists out st',
    discover_repository p st = (out, st')
    /\ ((exists r, out = Ret r /\ repo_cache st' !! p = Some r)
        \/ (out = Raise NoSuchPathError /\ repo_cache st' = repo_cache st))
    /\ objs st' = objs st /\ lists st' = lists st
    /\ (forall q v, repo_cache st !! q = Some v ->
                    repo_cache st' !! q = Some v).
Proof.
  unfold discover_repository.
  destruct (repo_cache st !! p) as [r|] eqn:E.
  - exists (Ret r), st. split; [reflexivity|]. split; [left; eauto|].
    repeat split; auto.
  - destruct (discover_loop_total (String.length p + 2) p None)
      as (out & visited & -> & [[r ->] | ->]); [simpl; lia| |].
    + eexists _, _. split; [reflexivity|]. cbn [objs lists repo_cache].
      split; [left; exists r; split; [reflexivity | apply lookup_insert_eq]|].
      repeat split.
      intros q v Hq. rewrite lookup_insert_ne; [exact Hq|].
      intros ->. congruence.
    + eexists _, _. split; [reflexivity|]. cbn [objs lists repo_cache].
      split; [right; now split|]. repeat split. auto.
Qed.

(** Lookups never forget: an entry of the table outlives any further
    lookups, those that raise among them. *)
Lemma lookups_keep (qs : list string) (st : State) :
  exists st', lookups qs st = (Ret tt, st')
    /\ (forall q v, repo_cache st !! q = Some v ->
                    repo_cache st' !! q = Some v).
Proof.
  revert st. induction qs as [|q qs IH]; intros st.
  - exists st. now split.
  - destruct (discover_repository_spec q st)
      as (out & st1 & E & Hout & _ & _ & Hkeep).
    destruct (IH st1) as (st2 & E2 & Hkeep2).
    exists st2. split.
    + unfold lookups in *. cbn [for_each]. unfold bind at 1, attempt at 1.
      rewrite E.
      destruct Hout as [(r & -> & _) | [-> _]]; exact E2.
    + intros x v Hx. apply Hkeep2, Hkeep, Hx.
Qed.

End Discovery.

(** ** The store and the monad *)

Section Store.

Lemma bind_Ret {A B} (m : M A) (k : A -> M B) (st st1 : State) (a : A) :
  m st = (Ret a, st1) -> bind m k st = k a st1.
Proof. intros H. unfold bind. now rewrite H. Qed.

Lemma bind_Raise {A B} (m : M A) (k : A -> M B) (st st1 : State)
    (e : exn) :
  m st = (Raise e, st1) -> bind m k st = (Raise e, st1).
Proof. intros H. unfold bind. now rewrite H. Qed.

Lemma get_obj_Some (r : ref) (st : State) (c : Content) :
  objs st !! r = Some c -> get_obj r st = (Ret c, st).
Proof. intros H. unfold get_obj. now rewrite H. Qed.

Lemma list_insert_as_alter {A} (os : list A) (r : nat) (c : A) (f : A -> A) :
  os !! r = Some c -> <[r := f c]> os = alter f r os.
Proof.
  intros H. apply list_eq. intros i.
  destruct (decide (r = i)) as [<-|Hne].
  - rewrite list_lookup_insert_eq by (eapply lookup_lt_Some; eauto).
    now rewrite list_lookup_alter_eq, H.
  - now rewrite list_lookup_insert_ne, list_lookup_alter_ne.
Qed.

Lemma modify_obj_Some (r : ref) (f : Content -> Content) (st : State)
    (c : Content) :
  objs st !! r = Some c ->
  modify_obj r f st = (Ret tt, with_objs (alter f r) st).
Proof.
  intros H. unfold modify_obj. rewrite H. unfold with_objs. cbv beta.
  now rewrite (list_insert_as_alter _ _ _ f H).
Qed.

Lemma get_git_Some (r : ref) (st : State) (c : Content) (g : git_class) :
  objs st !! r = Some c -> git c = Some g -> get_git r st = (Ret g, st).
Proof.
  intros H Hg. unfold get_git.
  rewrite (bind_Ret _ _ _ _ _ (get_obj_Some _ _ _ H)). now rewrite Hg.
Qed.

Lemma get_list_Some (l : lref) (st : State) (xs : list ref) :
  lists st !! l = Some xs -> get_list l st = (Ret xs, st).
Proof. intros H. unfold get_list. now rewrite H. Qed.

Lemma with_objs_compose (f g : list Content -> list Content) (st : State) :
  with_objs f (with_objs g st) = with_objs (fun os => f (g os)) st.
Proof. reflexivity. Qed.

End Store.

Section Revisit.
Context `{W : World}.

(** The branch for a chained object, run on a store that holds the
    object and its previous sibling. *)
Lemma on_revision_spec (content : ref) (st : State) (c : Content)
    (g : git_class) :
  objs st !! content = Some c -> git c = Some g ->
  (forall p, previous_revision g = Some p -> (p < length (objs st))%nat) ->
  on_revision content st
  = (Ret tt, with_objs (revisited content c g) st).
Proof.
  intros Hc Hg Hprev. unfold on_revision.
  rewrite (bind_Ret _ _ _ _ _ (get_git_Some _ _ _ _ Hc Hg)).
  set (created := fromtimestamp (authored_date (commit g))).
  rewrite (bind_Ret _ _ _ _ _ (modify_obj_Some _ _ _ _ Hc)).
  assert (H1 : objs (with_objs (alter (set_date (Some created)) content) st)
               !! content = Some (set_date (Some created) c)).
  { simpl. now rewrite list_lookup_alter_eq, Hc. }
  rewrite (bind_Ret _ _ _ _ _ (get_obj_Some _ _ _ H1)).
  rewrite (bind_Ret _ _ _ _ _ (modify_obj_Some _ _ _ _ H1)).
  rewrite with_objs_compose.
  change (date_format (set_date (Some created) c)) with (date_format c).
  assert (H2 : forall os : list Content, os !! content = Some c ->
            alter (set_locale_date
                     (Some (strftime created (date_format c))))
              content (alter (set_date (Some created)) content os)
            = alter (dated created) content os).
  { intros os Hos. rewrite list_alter_alter_eq.
    apply list_alter_ext; [|reflexivity].
    intros x Hx. rewrite Hos in Hx. now inversion Hx. }
  assert (Est2 : with_objs
            (fun os => alter (set_locale_date
                                (Some (strftime created (date_format c))))
                         content
                         (alter (set_date (Some created)) content os)) st
          = with_objs (alter (dated created) content) st).
  { unfold with_objs. cbv beta. now rewrite (H2 _ Hc). }
  rewrite Est2. clear Est2 H1 H2.
  remember (with_objs (alter (dated created) content) st) as st2 eqn:Est2.
  assert (H3 : objs st2 !! content = Some (dated created c)).
  { subst st2. cbn [objs with_objs].
    now rewrite list_lookup_alter_eq, Hc. }
  assert (Hg3 : git (dated created c) = Some g) by exact Hg.
  rewrite (bind_Ret _ _ _ _ _ (get_git_Some _ _ _ _ H3 Hg3)).
  unfold revisited. fold created.
  destruct (previous_revision g) as [p|] eqn:Hp.
  - assert (Hlt : (p < length (objs st2))%nat).
    { subst st2. cbn [objs with_objs]. rewrite length_alter.
      now apply Hprev. }
    destruct (lookup_lt_is_Some_2 _ _ Hlt) as [po Hpo].
    rewrite (bind_Ret _ _ _ _ _ (modify_obj_Some _ _ _ _ Hpo)).
    remember (with_objs (alter (set_modified (Some created)) p) st2)
      as st3 eqn:Est3.
    assert (H4 : exists c4, objs st3 !! content = Some c4
                            /\ date_format c4 = date_format c).
    { subst st3. cbn [objs with_objs]. rewrite list_lookup_alter.
      destruct (decide (p = content)) as [->|Hne];
        rewrite H3; now eexists. }
    destruct H4 as (c4 & H4 & Hfmt).
    rewrite (bind_Ret _ _ _ _ _ (get_obj_Some _ _ _ H4)).
    assert (H5 : objs st3 !! p = Some (set_modified (Some created) po)).
    { subst st3. cbn [objs with_objs].
      now rewrite list_lookup_alter_eq, Hpo. }
    rewrite (modify_obj_Some _ _ _ _ H5). f_equal.
    subst st3 st2. unfold with_objs. cbn [objs lists repo_cache probes].
    f_equal. rewrite Hfmt. now rewrite list_alter_alter_eq.
  - unfold ret. now subst st2.
Qed.
End Revisit.

Section Guards.
Context `{W : World}.

Lemma located_spec (st : State) (dir : string) (repository : Repo) :
  located st dir = Some repository ->
  exists st1,
    discover_repository dir st = (Ret (Some repository), st1)
    /\ repo_cache st1 !! dir = Some (Some repository)
    /\ objs st1 = objs st /\ lists st1 = lists st.
Proof.
  intros Hloc.
  destruct (discover_repository_spec dir st)
    as (out & st1 & E & Hout & Ho & Hl & _).
  exists st1. unfold located in Hloc. rewrite E in Hloc. cbn [fst] in Hloc.
  destruct Hout as [(r & -> & Hc) | [-> _]]; [|discriminate].
  subst r. auto.
Qed.

(** A history that is not empty is what [iter_commits] returned,
    reversed. *)
Lemma history_listed (repository : Repo) (source_path : string) :
  history repository source_path <> [] ->
  exists listed,
    iter_commits repository
      (make_repository_file_path repository source_path) = Some listed
    /\ history repository source_path = rev listed.
Proof.
  unfold history. intros H.
  destruct (iter_commits repository
              (make_repository_file_path repository source_path))
    as [listed|]; [|congruence].
  now exists listed.
Qed.

(** The hook up to the test for the [git] attribute, for an object that
    passes the guards before it. *)
Lemma hook_guards (fuel : nat) (content : ref) (st st1 : State)
    (c : Content) (repository : Repo) :
  objs st !! content = Some c ->
  is_Static (cls c) = false ->
  discover_repository (posixpath.dirname (source_path c)) st
  = (Ret (Some repository), st1) ->
  objs st1 = objs st ->
  history repository (source_path c) <> [] ->
  hasattr (git c) = true ->
  on_content_object_init (S fuel) content st = on_revision content st1.
Proof.
  intros Hc Hs Hd Ho Hh Hg. cbn [on_content_object_init].
  rewrite (bind_Ret _ _ _ _ _ (get_obj_Some _ _ _ Hc)). rewrite Hs.
  rewrite (bind_Ret _ _ _ _ _ Hd).
  destruct (history_listed _ _ Hh) as (listed & Hlisted & Hrev).
  rewrite Hlisted. rewrite (bind_Ret _ _ st1 st1 listed) by reflexivity.
  rewrite Hrev in Hh.
  destruct (rev listed) as [|first_commit commits]; [congruence|].
  rewrite <- Ho in Hc.
  rewrite (bind_Ret _ _ _ _ _ (get_obj_Some _ _ _ Hc)).
  now rewrite Hg.
Qed.

End Guards.

(** C10.  For a content object of the class [Static] the hook returns at
    once and leaves the whole state as it is: no repository is looked up
    (the table of lookups and the record of visited directories are the
    same), no chain is attached and no date is assigned, whatever history
    the file has in the repository. *)
Theorem static_content_skipped `{W : World} (fuel : nat) (content : ref)
    (st : State) (c : Content) :
  objs st !! content = Some c ->
  is_Static (cls c) = true ->
  on_content_object_init (S fuel) content st = (Ret tt, st).
Proof.
  intros Hc Hs. cbn [on_content_object_init].
  rewrite (bind_Ret _ _ _ _ _ (get_obj_Some _ _ _ Hc)). now rewrite Hs.
Qed.


(** C3 (as amended).  When the hook fires for an object that already has
    the [git] attribute (and passes the guards before that test: it is not
    [Static], its repository is found and its history is not empty), the
    hook returns normally and the store differs from the one before in this
    alone: the object's [date] is the authored time of its [git.commit] and
    its [locale_date] the rendering of that date; if it has a previous
    revision, that one's [modified] is the same date and its
    [locale_modified] the rendering of it.  No other attribute of any
    object changes, no object is created, and the lists, among them the
    shared list of revisions, are as before. *)
Theorem chained_content_redated `{W : World} (fuel : nat) (content : ref)
    (st : State) (c : Content) (g : git_class) (repository : Repo) :
  objs st !! content = Some c ->
  is_Static (cls c) = false ->
  located st (posixpath.dirname (source_path c)) = Some repository ->
  history repository (source_path c) <> [] ->
  git c = Some g ->
  (forall p, previous_revision g = Some p -> (p < length (objs st))%nat) ->
  exists st',
    on_content_object_init (S fuel) content st = (Ret tt, st')
    /\ objs st' = revisited content c g (objs st)
    /\ lists st' = lists st
    /\ (exists o, objs st' !! content = Some o
                  /\ date o = Some (fromtimestamp (authored_date (commit g)))
                  /\ git o = Some g)
    /\ (forall p, previous_revision g = Some p ->
          exists o, objs st' !! p = Some o
                    /\ modified o
                       = Some (fromtimestamp (authored_date (commit g))))
    /\ (forall r, r <> content -> previous_revision g <> Some r ->
          objs st' !! r = objs st !! r).
Proof.
  intros Hc Hs Hloc Hh Hg Hp.
  destruct (located_spec st (posixpath.dirname (source_path c)) repository
              Hloc)
    as (st1 & Hd & _ & Ho & Hl).
  rewrite (hook_guards fuel content st st1 c repository Hc Hs Hd Ho Hh)
    by now rewrite Hg.
  rewrite <- Ho in Hc, Hp.
  rewrite (on_revision_spec content st1 c g Hc Hg Hp).
  eexists. split; [reflexivity|]. cbn [objs lists with_objs].
  rewrite Ho in *. split; [reflexivity|]. split; [exact Hl|].
  unfold revisited.
  set (created := fromtimestamp (authored_date (commit g))).
  assert (H1 : alter (dated created) content (objs st) !! content
               = Some (dated created c)).
  { now rewrite list_lookup_alter_eq, Hc. }
  destruct (previous_revision g) as [p|] eqn:Eprev.
  - split; [|split].
    + rewrite list_lookup_alter.
      destruct (decide (p = content)) as [->|]; rewrite H1; now eexists.
    + intros p' [= <-]. rewrite list_lookup_alter_eq.
      assert (Hlt : (p < length (alter (dated created) content (objs st)))%nat).
      { rewrite length_alter. now apply Hp. }
      destruct (lookup_lt_is_Some_2 _ _ Hlt) as [po ->]. now eexists.
    + intros r Hr Hr'. rewrite list_lookup_alter_ne by congruence.
      now rewrite list_lookup_alter_ne by congruence.
  - split; [|split].
    + rewrite H1. now eexists.
    + intros p' [=].
    + intros r Hr _. now rewrite list_lookup_alter_ne by congruence.
Qed.

(** ** The first loop: materializing the revisions *)

Section Materialize.
Context `{W : World}.

Lemma new_obj_spec (c : Content) (st : State) :
  new_obj c st
  = (Ret (length (objs st)), with_objs (fun os => os ++ [c]) st).
Proof. reflexivity. Qed.

Lemma alter_last {A} (f : A -> A) (os : list A) (x : A) :
  alter f (length os) (os ++ [x]) = os ++ [f x].
Proof.
  replace (length os) with (length os + 0)%nat by lia.
  now rewrite alter_app_r.
Qed.

Lemma lookup_last {A} (os : list A) (x : A) :
  (os ++ [x]) !! length os = Some x.
Proof. apply list_lookup_middle. reflexivity. Qed.

Lemma materialize_spec (content : ref) (rl : lref) (st : State)
    (live : Content) (repository : Repo) (acc : list ref) (c : Commit)
    (parsed : Parsed) :
  objs st !! content = Some live ->
  lists st !! rl = Some acc ->
  parse_commit live repository c = Some parsed ->
  materialize content
    (make_repository_file_path repository (source_path live)) rl c st
  = (Ret tt,
     {| objs := objs st ++ [materialized live c parsed];
        lists := <[rl := acc ++ [length (objs st)]]> (lists st);
        repo_cache := repo_cache st; probes := probes st |}).
Proof.
  intros Hc Hl Hp. unfold materialize, parse_commit in *.
  destruct (tree c !! make_repository_file_path repository (source_path live))
    as [blob|]; [|discriminate].
  unfold of_option at 1. rewrite (bind_Ret _ _ st st blob) by reflexivity.
  rewrite (bind_Ret _ _ _ _ _ (get_obj_Some _ _ _ Hc)).
  rewrite Hp. unfold of_option at 1.
  rewrite (bind_Ret _ _ st st parsed) by reflexivity.
  rewrite (bind_Ret _ _ _ _ _ (new_obj_spec _ _)).
  set (n := length (objs st)).
  set (r0 := new_content (cls live) (settings live) (context_ live) parsed).
  remember (with_objs (fun os => os ++ [r0]) st) as s1 eqn:E1.
  assert (Hc1 : objs s1 !! content = Some live).
  { subst s1. cbn [objs with_objs]. now apply lookup_app_l_Some. }
  assert (Hr1 : objs s1 !! n = Some r0).
  { subst s1. cbn [objs with_objs]. apply lookup_last. }
  rewrite (bind_Ret _ _ _ _ _ (get_obj_Some _ _ _ Hc1)).
  rewrite (bind_Ret _ _ _ _ _ (modify_obj_Some _ _ _ _ Hr1)).
  set (r1 := set_source_path (source_path live) r0).
  remember (with_objs (alter (set_source_path (source_path live)) n) s1)
    as s2 eqn:E2.
  assert (O2 : objs s2 = objs st ++ [r1]).
  { subst s2 s1. cbn [objs with_objs]. apply alter_last. }
  assert (Hc2 : objs s2 !! content = Some live).
  { rewrite O2. now apply lookup_app_l_Some. }
  assert (Hr2 : objs s2 !! n = Some r1).
  { rewrite O2. apply lookup_last. }
  rewrite (bind_Ret _ _ _ _ _ (get_obj_Some _ _ _ Hc2)).
  rewrite (bind_Ret _ _ _ _ _ (modify_obj_Some _ _ _ _ Hr2)).
  set (r2 := set_override_save_as (Some (revision_save_as live c)) r1).
  remember (with_objs
              (alter (set_override_save_as
                        (Some (revision_save_as live c))) n) s2)
    as s3 eqn:E3.
  assert (O3 : objs s3 = objs st ++ [r2]).
  { subst s3. cbn [objs with_objs]. rewrite O2. apply alter_last. }
  assert (Hr3 : objs s3 !! n = Some r2).
  { rewrite O3. apply lookup_last. }
  rewrite (bind_Ret _ _ _ _ _ (get_obj_Some _ _ _ Hr3)).
  rewrite (bind_Ret _ _ _ _ _ (modify_obj_Some _ _ _ _ Hr3)).
  remember (with_objs
              (alter (set_override_url
                        (Some (posixpath.dirname (save_as r2)))) n) s3)
    as s4 eqn:E4.
  assert (O4 : objs s4 = objs st ++ [materialized live c parsed]).
  { subst s4. cbn [objs with_objs]. rewrite O3. unfold n.
    rewrite alter_last. reflexivity. }
  assert (L4 : lists s4 = lists st) by now subst s4 s3 s2 s1.
  unfold list_append. rewrite L4, Hl. f_equal.
  unfold with_lists. rewrite O4, L4. now subst s4 s3 s2 s1.
Qed.

(** The objects the first loop creates, in order. *)
Lemma materialize_loop (content : ref) (rl : lref) (live : Content)
    (repository : Repo) (cs : list Commit) :
  forall (st : State) (acc : list ref),
    objs st !! content = Some live ->
    lists st !! rl = Some acc ->
    forallb (materializable live repository) cs = true ->
    exists news,
      for_each cs
        (materialize content
           (make_repository_file_path repository (source_path live)) rl) st
      = (Ret tt,
         {| objs := objs st ++ news;
            lists := <[rl := acc ++ seq (length (objs st)) (length cs)]>
                       (lists st);
            repo_cache := repo_cache st; probes := probes st |})
      /\ Forall2 (fun c o => exists parsed,
                    parse_commit live repository c = Some parsed
                    /\ o = materialized live c parsed) cs news.
Proof.
  induction cs as [|c cs IH]; intros st acc Hc Hl Hm.
  - exists []. split; [|constructor]. simpl. unfold ret.
    rewrite !app_nil_r. rewrite list_insert_id by exact Hl.
    now destruct st.
  - simpl in Hm. apply andb_true_iff in Hm as [Hm1 Hm].
    unfold materializable in Hm1.
    destruct (parse_commit live repository c) as [parsed|] eqn:Hp;
      [|discriminate].
    cbn [for_each].
    rewrite (bind_Ret _ _ _ _ _
               (materialize_spec content rl st live repository acc c
                  parsed Hc Hl Hp)).
    set (st1 := {| objs := objs st ++ [materialized live c parsed] |}).
    destruct (IH st1 (acc ++ [length (objs st)])) as (news & E & F).
    + subst st1. cbn [objs]. now apply lookup_app_l_Some.
    + subst st1. cbn [lists]. apply list_lookup_insert_eq.
      eapply lookup_lt_Some; eauto.
    + exact Hm.
    + exists (materialized live c parsed :: news). split.
      * rewrite E. f_equal. subst st1. cbn [objs lists repo_cache probes].
        rewrite list_insert_insert_eq, length_app. simpl length.
        rewrite <- !app_assoc. simpl.
        replace (length (objs st) + 1)%nat with (S (length (objs st)))
          by lia.
        reflexivity.
      * constructor; [now exists parsed | exact F].
Qed.

End Materialize.

(** ** The second loop: linking the revisions *)

Section Link.
Context `{W : World}.

Lemma undated_set_git (g : option git_class) (o : Content) :
  undated (set_git g o) = undated o.
Proof. reflexivity. Qed.

Lemma undated_dated (d : SafeDatetime) (o : Content) :
  undated (dated d o) = undated o.
Proof. reflexivity. Qed.

Lemma undated_superseded (d : SafeDatetime) (fmt : string) (o : Content) :
  undated (superseded d fmt o) = undated o.
Proof. reflexivity. Qed.

Lemma undated_inferred (a b : Commit) (o : Content) :
  undated (inferred a b o) = undated o /\ git (inferred a b o) = git o.
Proof.
  unfold inferred. destruct (hasattr (date o));
    match goal with |- context [if ?b then _ else _] => destruct b end;
    now split.
Qed.

(** Python's indexing at a natural index. *)
Lemma py_getitem_nat {A} (xs : list A) (i : nat) (x : A) (st : State) :
  xs !! i = Some x -> py_getitem xs (Z.of_nat i) st = (Ret x, st).
Proof.
  intros H. pose proof (lookup_lt_Some _ _ _ H) as Hlt.
  unfold py_getitem.
  destruct (Z.of_nat i <? 0) eqn:E; [apply Z.ltb_lt in E; lia|].
  replace ((0 <=? Z.of_nat i) && (Z.of_nat i <? Z.of_nat (length xs)))
    with true.
  - now rewrite Nat2Z.id, H.
  - symmetry. apply andb_true_iff. split;
      [apply Z.leb_le | apply Z.ltb_lt]; lia.
Qed.

(** [revisions[-2]] for a list of at least two. *)
Lemma py_getitem_minus2 {A} (xs : list A) (x : A) (st : State) :
  (2 <= length xs)%nat -> xs !! (length xs - 2)%nat = Some x ->
  py_getitem xs (-2) st = (Ret x, st).
Proof.
  intros Hlen H. unfold py_getitem. cbv zeta.
  change (-2 <? 0) with true. cbv iota.
  replace (-2 + Z.of_nat (length xs)) with (Z.of_nat (length xs - 2))
    by lia.
  replace ((0 <=? Z.of_nat (length xs - 2))
           && (Z.of_nat (length xs - 2) <? Z.of_nat (length xs)))
    with true.
  - now rewrite Nat2Z.id, H.
  - symmetry. apply andb_true_iff. split;
      [apply Z.leb_le | apply Z.ltb_lt]; lia.
Qed.

Lemma previous_spec (revs : list ref) (k : nat) (st : State) :
  (k < length revs)%nat ->
  (if 0 <? Z.of_nat k
   then r <- py_getitem revs (Z.of_nat k - 1) ;; ret (Some r)
   else ret None) st
  = (Ret (if 0 <? Z.of_nat k then revs !! (k - 1)%nat else None), st).
Proof.
  intros Hk. destruct (0 <? Z.of_nat k) eqn:E; [|reflexivity].
  apply Z.ltb_lt in E.
  destruct (lookup_lt_is_Some_2 revs (k - 1)) as [x Hx]; [lia|].
  replace (Z.of_nat k - 1) with (Z.of_nat (k - 1)) by lia.
  rewrite (bind_Ret _ _ _ _ _ (py_getitem_nat _ _ _ st Hx)).
  now rewrite Hx.
Qed.

Lemma next_spec (content : ref) (revs : list ref) (k : nat) (st : State) :
  (k < length revs)%nat ->
  (if Z.of_nat k =? Z.of_nat (length revs) - 2 then ret (Some content)
   else if Z.of_nat k <? Z.of_nat (length revs) - 1
        then r <- py_getitem revs (Z.of_nat k + 1) ;; ret (Some r)
        else ret None) st
  = (Ret (if Z.of_nat k =? Z.of_nat (length revs) - 2 then Some content
          else if Z.of_nat k <? Z.of_nat (length revs) - 1
               then revs !! (k + 1)%nat else None), st).
Proof.
  intros Hk.
  destruct (Z.of_nat k =? Z.of_nat (length revs) - 2); [reflexivity|].
  destruct (Z.of_nat k <? Z.of_nat (length revs) - 1) eqn:E; [|reflexivity].
  apply Z.ltb_lt in E.
  destruct (lookup_lt_is_Some_2 revs (k + 1)) as [x Hx]; [lia|].
  replace (Z.of_nat k + 1) with (Z.of_nat (k + 1)) by lia.
  rewrite (bind_Ret _ _ _ _ _ (py_getitem_nat _ _ _ st Hx)).
  now rewrite Hx.
Qed.

End Link.

Section LinkLoop.
Context `{W : World}.
Variables (fuel : nat) (content : ref) (live : Content) (repository : Repo).
Variables (rl : lref) (n0 : nat) (cs : list Commit) (news : list Content).
Variable s1 : State.

Let path := make_repository_file_path repository (source_path live).
Let revs := seq n0 (length news).

Hypothesis Hlen : length cs = length news.
Hypothesis Hrevs : lists s1 !! rl = Some revs.
Hypothesis Hcache :
  repo_cache s1 !! posixpath.dirname (source_path live)
  = Some (Some repository).
Hypothesis Hhist : history repository (source_path live) <> [].
Hypothesis Hstatic : is_Static (cls live) = false.
Hypothesis Hnews :
  Forall2 (fun c o => exists parsed,
             parse_commit live repository c = Some parsed
             /\ o = materialized live c parsed) cs news.

(** A revision keeps the class and the source path of the live document. *)
Lemma revision_identity (i : nat) (o o1 : Content) :
  news !! i = Some o1 -> undated o = undated o1 ->
  cls o = cls live /\ source_path o = source_path live.
Proof.
  intros Ho1 Hu.
  destruct (Forall2_lookup_r _ _ _ _ _ Hnews Ho1) as (c & _ & parsed & _ & ->).
  split.
  - change (cls (undated o) = cls live). now rewrite Hu.
  - change (source_path (undated o) = source_path live). now rewrite Hu.
Qed.

Lemma revs_lookup (i : nat) :
  (i < length news)%nat -> revs !! i = Some (n0 + i)%nat.
Proof. intros H. unfold revs. now apply lookup_seq_lt. Qed.

Lemma revs_lookup_inv (i r : nat) :
  revs !! i = Some r -> r = (n0 + i)%nat /\ (i < length news)%nat.
Proof. unfold revs. intros H. now apply lookup_seq in H. Qed.

(** One round of the second loop. *)
Lemma link_step (k : nat) (s : State) (c : Commit) :
  linking content path rl n0 cs news s1 k s ->
  cs !! k = Some c ->
  exists s',
    link (on_content_object_init (S fuel)) content path rl
         (Z.of_nat k, (c, (n0 + k)%nat)) s = (Ret tt, s')
    /\ linking content path rl n0 cs news s1 (S k) s'.
Proof.
  intros L Hk.
  assert (Hkn : (k < length news)%nat).
  { rewrite <- Hlen. eapply lookup_lt_Some; eauto. }
  destruct (lookup_lt_is_Some_2 news k Hkn) as [o1 Ho1].
  destruct (linking_new _ _ _ _ _ _ _ _ _ L k c o1 Hk Ho1) as (o & Ho & Hu & Hg).
  destruct (revision_identity k o o1 Ho1 Hu) as [Hcls Hsrc].
  assert (Hl : lists s !! rl = Some revs).
  { now rewrite (linking_lists _ _ _ _ _ _ _ _ _ L). }
  assert (Hrl : length revs = length news) by apply length_seq.
  unfold link.
  rewrite (bind_Ret _ _ _ _ _ (get_list_Some _ _ _ Hl)).
  rewrite (bind_Ret _ _ _ _ _ (previous_spec revs k s ltac:(lia))).
  rewrite (bind_Ret _ _ _ _ _ (next_spec content revs k s ltac:(lia))).
  match goal with
  | |- context [set_git (Some ?x)] =>
      change x with (expected_link content path rl revs k c)
  end.
  set (g := expected_link content path rl revs k c).
  rewrite (bind_Ret _ _ _ _ _ (modify_obj_Some _ _ _ _ Ho)).
  remember (with_objs (alter (set_git (Some g)) (n0 + k)%nat) s) as s2 eqn:E2.
  set (o2 := set_git (Some g) o).
  assert (Ho2 : objs s2 !! (n0 + k)%nat = Some o2).
  { subst s2. cbn [objs with_objs]. now rewrite list_lookup_alter_eq, Ho. }
  assert (Hd : discover_repository (posixpath.dirname (source_path o2)) s2
               = (Ret (Some repository), s2)).
  { apply discover_repository_hit. subst s2. cbn [repo_cache with_objs].
    rewrite (linking_cache _ _ _ _ _ _ _ _ _ L).
    change (source_path o2) with (source_path o). now rewrite Hsrc. }
  assert (Hlen2 : length (objs s2) = (n0 + length news)%nat).
  { subst s2. cbn [objs with_objs]. rewrite length_alter.
    apply (linking_length _ _ _ _ _ _ _ _ _ L). }
  assert (Hprev : forall p, previous_revision g = Some p ->
                    (n0 <= p < length (objs s2))%nat).
  { intros p. unfold g, expected_link. cbn [previous_revision].
    destruct (0 <? Z.of_nat k); [|discriminate].
    intros Hp. apply revs_lookup_inv in Hp as [-> Hp]. lia. }
  cbv beta.
  rewrite (hook_guards fuel (n0 + k)%nat s2 s2 o2 repository Ho2);
    [ | change (cls o2) with (cls o); now rewrite Hcls
      | exact Hd | reflexivity
      | change (source_path o2) with (source_path o); now rewrite Hsrc
      | reflexivity ].
  rewrite (on_revision_spec (n0 + k)%nat s2 o2 g Ho2 eq_refl);
    [|intros p Hp; now apply Hprev].
  eexists. split; [reflexivity|].
  set (created := fromtimestamp (authored_date (commit g))).
  assert (Hlook : forall j,
            revisited (n0 + k)%nat o2 g (objs s2) !! j
            = (if decide (j = (n0 + k)%nat)
               then (fun x => dated created (set_git (Some g) x))
               else if decide (previous_revision g = Some j)
                    then superseded created (date_format o2)
                    else id) <$> objs s !! j).
  { intros j. unfold revisited. fold created. subst s2.
    cbn [objs with_objs].
    destruct (previous_revision g) as [p|] eqn:Ep.
    - assert (Hpk : p <> (n0 + k)%nat).
      { unfold g, expected_link in Ep. cbn [previous_revision] in Ep.
        destruct (0 <? Z.of_nat k) eqn:E0; [|discriminate].
        apply Z.ltb_lt in E0.
        apply revs_lookup_inv in Ep as [-> _]. lia. }
      rewrite list_lookup_alter.
      destruct (decide (p = j)) as [<-|Hpj].
      + rewrite list_lookup_alter_ne by congruence.
        rewrite list_lookup_alter_ne by congruence.
        destruct (decide (p = (n0 + k)%nat)); [congruence|].
        destruct (decide (Some p = Some p)); [reflexivity | congruence].
      + destruct (decide (Some p = Some j)) as [[=]|_]; [congruence|].
        rewrite !list_lookup_alter.
        destruct (decide ((n0 + k)%nat = j)) as [<-|Hj].
        * destruct (decide ((n0 + k)%nat = (n0 + k)%nat)); [|congruence].
          destruct (objs s !! (n0 + k)%nat); reflexivity.
        * destruct (decide (j = (n0 + k)%nat)); [congruence|].
          destruct (objs s !! j); reflexivity.
    - rewrite !list_lookup_alter.
      destruct (decide ((n0 + k)%nat = j)) as [<-|Hj].
      + destruct (decide ((n0 + k)%nat = (n0 + k)%nat)); [|congruence].
        destruct (objs s !! (n0 + k)%nat); reflexivity.
      + destruct (decide (j = (n0 + k)%nat)); [congruence|].
        destruct (decide (None = Some j)); [congruence|].
        destruct (objs s !! j); reflexivity. }
  constructor; cbn [objs lists repo_cache probes with_objs].
  - subst s2. apply (linking_lists _ _ _ _ _ _ _ _ _ L).
  - subst s2. apply (linking_cache _ _ _ _ _ _ _ _ _ L).
  - subst s2. apply (linking_probes _ _ _ _ _ _ _ _ _ L).
  - unfold revisited. destruct (previous_revision g);
      rewrite ?length_alter; exact Hlen2.
  - intros r Hr. rewrite Hlook.
    destruct (decide (r = (n0 + k)%nat)); [lia|].
    destruct (decide (previous_revision g = Some r)) as [Hp|_].
    { apply Hprev in Hp. lia. }
    rewrite (linking_old _ _ _ _ _ _ _ _ _ L r Hr).
    now destruct (objs s1 !! r).
  - intros i ci oi Hci Hoi.
    destruct (linking_new _ _ _ _ _ _ _ _ _ L i ci oi Hci Hoi)
      as (x & Hx & Hxu & Hxg).
    rewrite Hlook, Hx. cbn [fmap option_fmap option_map].
    destruct (decide ((n0 + i)%nat = (n0 + k)%nat)) as [Eik|Nik].
    + assert (i = k) by lia. subst i.
      rewrite Hk in Hci. inversion Hci; subst ci.
      eexists. split; [reflexivity|]. split; [exact Hxu|].
      cbn [git dated set_locale_date set_date set_git].
      replace (k <? S k)%nat with true
        by (symmetry; apply Nat.ltb_lt; lia).
      reflexivity.
    + assert (Hlt : (i <? S k)%nat = (i <? k)%nat).
      { destruct (i <? k)%nat eqn:E.
        - apply Nat.ltb_lt in E. apply Nat.ltb_lt. lia.
        - apply Nat.ltb_ge in E. apply Nat.ltb_ge. lia. }
      rewrite Hlt.
      destruct (decide (previous_revision g = Some (n0 + i)%nat)).
      * eexists. split; [reflexivity|]. split; [exact Hxu | exact Hxg].
      * eexists. split; [reflexivity|]. split; [exact Hxu | exact Hxg].
Qed.

Lemma linking_done (k : nat) (s : State) :
  (length cs <= k)%nat ->
  linking content path rl n0 cs news s1 k s ->
  linking content path rl n0 cs news s1 (length cs) s.
Proof.
  intros Hk L. destruct L as [L1 L2 L3 L4 L5 L6].
  constructor; try assumption.
  intros i c o1 Hc Ho1. destruct (L6 i c o1 Hc Ho1) as (o & Ho & Hu & Hg).
  exists o. split; [exact Ho|]. split; [exact Hu|].
  pose proof (lookup_lt_Some _ _ _ Hc) as Hi.
  replace (i <? length cs)%nat with true
    by (symmetry; apply Nat.ltb_lt; lia).
  replace (i <? k)%nat with true in Hg
    by (symmetry; apply Nat.ltb_lt; lia).
  exact Hg.
Qed.

(** The second loop from round [k] on. *)
Lemma link_loop (rest : list Commit) :
  forall (k : nat) (s : State),
    drop k cs = rest ->
    linking content path rl n0 cs news s1 k s ->
    exists s',
      for_each (enumerate_from (Z.of_nat k) (zip rest (drop k revs)))
        (link (on_content_object_init (S fuel)) content path rl) s
      = (Ret tt, s')
      /\ linking content path rl n0 cs news s1 (length cs) s'.
Proof.
  induction rest as [|c rest IH]; intros k s Hd L.
  - exists s. split; [reflexivity|].
    apply (linking_done k); [|exact L].
    apply (f_equal length) in Hd. rewrite length_drop in Hd.
    simpl in Hd. lia.
  - assert (Hk : cs !! k = Some c).
    { rewrite <- (Nat.add_0_r k), <- lookup_drop, Hd. reflexivity. }
    assert (Hd' : drop (S k) cs = rest).
    { rewrite (drop_S _ _ _ Hk) in Hd. now inversion Hd. }
    assert (Hkn : (k < length news)%nat).
    { rewrite <- Hlen. eapply lookup_lt_Some; eauto. }
    rewrite (drop_S _ _ _ (revs_lookup k Hkn)).
    cbn [zip enumerate_from for_each].
    destruct (link_step k s c L Hk) as (s2 & E2 & L2).
    rewrite (bind_Ret _ _ _ _ _ E2).
    replace (Z.of_nat k + 1) with (Z.of_nat (S k)) by lia.
    exact (IH (S k) s2 Hd' L2).
Qed.

End LinkLoop.

(** ** Building a chain *)

Section Build.
Context `{W : World}.

Lemma set_dates_spec (r : ref) (st : State) (c : Content)
    (d : SafeDatetime) :
  objs st !! r = Some c ->
  (modify_obj r (set_date (Some d)) ;;;
   c' <- get_obj r ;;
   modify_obj r (set_locale_date (Some (strftime d (date_format c'))))) st
  = (Ret tt, with_objs (alter (dated d) r) st).
Proof.
  intros Hc.
  rewrite (bind_Ret _ _ _ _ _ (modify_obj_Some _ _ _ _ Hc)).
  remember (with_objs (alter (set_date (Some d)) r) st) as s1 eqn:E1.
  assert (H1 : objs s1 !! r = Some (set_date (Some d) c)).
  { subst s1. cbn [objs with_objs]. now rewrite list_lookup_alter_eq, Hc. }
  rewrite (bind_Ret _ _ _ _ _ (get_obj_Some _ _ _ H1)).
  rewrite (modify_obj_Some _ _ _ _ H1). f_equal.
  subst s1. unfold with_objs. cbn [objs lists repo_cache probes].
  f_equal. rewrite list_alter_alter_eq.
  apply list_alter_ext; [|reflexivity].
  intros x Hx. rewrite Hc in Hx. now inversion Hx.
Qed.

Lemma set_modified_spec (r : ref) (st : State) (c : Content)
    (d : SafeDatetime) :
  objs st !! r = Some c ->
  (modify_obj r (set_modified (Some d)) ;;;
   c' <- get_obj r ;;
   modify_obj r (set_locale_modified (Some (strftime d (date_format c')))))
    st
  = (Ret tt, with_objs (alter (superseded d (date_format c)) r) st).
Proof.
  intros Hc.
  rewrite (bind_Ret _ _ _ _ _ (modify_obj_Some _ _ _ _ Hc)).
  remember (with_objs (alter (set_modified (Some d)) r) st) as s1 eqn:E1.
  assert (H1 : objs s1 !! r = Some (set_modified (Some d) c)).
  { subst s1. cbn [objs with_objs]. now rewrite list_lookup_alter_eq, Hc. }
  rewrite (bind_Ret _ _ _ _ _ (get_obj_Some _ _ _ H1)).
  rewrite (modify_obj_Some _ _ _ _ H1). f_equal.
  subst s1. unfold with_objs. cbn [objs lists repo_cache probes].
  f_equal. now rewrite list_alter_alter_eq.
Qed.

Lemma with_objs_id (f : list Content -> list Content) (st : State) :
  f (objs st) = objs st -> with_objs f st = st.
Proof. intros H. unfold with_objs. rewrite H. now destruct st. Qed.

Lemma alter_const {A} (f : A -> A) (os : list A) (r : nat) (c : A) :
  os !! r = Some c -> alter f r os = <[r := f c]> os.
Proof. intros H. symmetry. now apply list_insert_as_alter. Qed.

(** Lines 73-81: the dates of a fresh live document. *)
Lemma infer_spec (content : ref) (st : State) (c : Content)
    (first_commit latest_commit : Commit) (k : M unit) :
  objs st !! content = Some c ->
  ((if negb (hasattr (date c)) then
      let created := fromtimestamp (authored_date first_commit) in
      modify_obj content (set_date (Some created)) ;;;
      c <- get_obj content ;;
      modify_obj content
        (set_locale_date (Some (strftime created (date_format c))))
    else ret tt) ;;;
   c <- get_obj content ;;
   (if commit_ne first_commit latest_commit
       && negb (hasattr (modified c)) then
      let modified := fromtimestamp (authored_date latest_commit) in
      modify_obj content (set_modified (Some modified)) ;;;
      c <- get_obj content ;;
      modify_obj content
        (set_locale_modified (Some (strftime modified (date_format c))))
    else ret tt) ;;;
   k) st
  = k (with_objs
         (fun os => <[content := inferred first_commit latest_commit c]> os)
         st).
Proof.
  intros Hc. unfold inferred.
  set (f1 := fun o : Content =>
               if hasattr (date o) then o
               else dated (fromtimestamp (authored_date first_commit)) o).
  assert (E1 : exists s1,
    (if negb (hasattr (date c)) then
       let created := fromtimestamp (authored_date first_commit) in
       modify_obj content (set_date (Some created)) ;;;
       c <- get_obj content ;;
       modify_obj content
         (set_locale_date (Some (strftime created (date_format c))))
     else ret tt) st = (Ret tt, s1)
    /\ s1 = with_objs (fun os => <[content := f1 c]> os) st).
  { unfold f1. destruct (hasattr (date c)); cbn [negb].
    - eexists. split; [reflexivity|]. symmetry. apply with_objs_id.
      now apply list_insert_id.
    - eexists. split; [cbv zeta; exact (set_dates_spec _ _ _ _ Hc)|].
      unfold with_objs. cbv beta. now rewrite (alter_const _ _ _ _ Hc). }
  destruct E1 as (s1 & E1 & Es1).
  rewrite (bind_Ret _ _ _ _ _ E1).
  assert (H1 : objs s1 !! content = Some (f1 c)).
  { subst s1. cbn [objs with_objs]. apply list_lookup_insert_eq.
    eapply lookup_lt_Some; eauto. }
  rewrite (bind_Ret _ _ _ _ _ (get_obj_Some _ _ _ H1)).
  fold (f1 c).
  assert (E2 : exists s2,
    (if commit_ne first_commit latest_commit
        && negb (hasattr (modified (f1 c))) then
       let modified := fromtimestamp (authored_date latest_commit) in
       modify_obj content (set_modified (Some modified)) ;;;
       c <- get_obj content ;;
       modify_obj content
         (set_locale_modified (Some (strftime modified (date_format c))))
     else ret tt) s1 = (Ret tt, s2)
    /\ s2 = with_objs
              (fun os =>
                 <[content :=
                     if commit_ne first_commit latest_commit
                        && negb (hasattr (modified (f1 c)))
                     then superseded
                            (fromtimestamp (authored_date latest_commit))
                            (date_format (f1 c)) (f1 c)
                     else f1 c]> os) st).
  { destruct (commit_ne first_commit latest_commit
              && negb (hasattr (modified (f1 c)))).
    - eexists. split; [cbv zeta; exact (set_modified_spec _ _ _ _ H1)|].
      subst s1. unfold with_objs. cbn [objs lists repo_cache probes].
      f_equal. rewrite (alter_const _ _ _ (f1 c)).
      + apply list_insert_insert_eq.
      + apply list_lookup_insert_eq. eapply lookup_lt_Some; eauto.
    - eexists. split; [reflexivity|]. exact Es1. }
  destruct E2 as (s2 & E2 & Es2).
  rewrite (bind_Ret _ _ _ _ _ E2). now rewrite Es2.
Qed.

End Build.

Section BuildChain.
Context `{W : World}.

Lemma inferred_identity (a b : Commit) (o : Content) :
  source_path (inferred a b o) = source_path o
  /\ cls (inferred a b o) = cls o
  /\ (forall repository c,
        parse_commit (inferred a b o) repository c
        = parse_commit o repository c)
  /\ (forall c parsed,
        materialized (inferred a b o) c parsed = materialized o c parsed).
Proof.
  unfold inferred. destruct (hasattr (date o));
    match goal with |- context [if ?b then _ else _] => destruct b end;
    repeat split.
Qed.

Lemma forallb_eq {A} (f g : A -> bool) (l : list A) :
  (forall x, f x = g x) -> forallb f l = forallb g l.
Proof.
  intros H. induction l as [|x l IH]; [reflexivity|].
  cbn [forallb]. now rewrite H, IH.
Qed.

Lemma last_List_last {A} (l : list A) (d x : A) :
  last l = Some x -> List.last l d = x.
Proof.
  induction l as [|a l IH]; [discriminate|].
  destruct l as [|b l]; [now intros [= ->]|].
  intros H. apply IH. exact H.
Qed.

Lemma last_previous_spec (revs : list ref) (st : State) :
  (if 1 <? Z.of_nat (length revs)
   then r <- py_getitem revs (-2) ;; ret (Some r)
   else ret None) st
  = (Ret (if 1 <? Z.of_nat (length revs)
          then revs !! (length revs - 2)%nat else None), st).
Proof.
  destruct (1 <? Z.of_nat (length revs)) eqn:E; [|reflexivity].
  apply Z.ltb_lt in E.
  destruct (lookup_lt_is_Some_2 revs (length revs - 2)) as [x Hx]; [lia|].
  rewrite (bind_Ret _ _ _ _ _
             (py_getitem_minus2 revs x st ltac:(lia) Hx)).
  now rewrite Hx.
Qed.

(** The hook on a fresh live document with a history, up to the dates
    inferred from it (lines 31-81). *)
Lemma hook_fresh (fuel : nat) (content : ref) (st : State) (live : Content)
    (repository : Repo) (first_commit : Commit) (rest : list Commit) :
  objs st !! content = Some live ->
  is_Static (cls live) = false ->
  git live = None ->
  located st (posixpath.dirname (source_path live)) = Some repository ->
  history repository (source_path live) = first_commit :: rest ->
  exists st2,
    on_content_object_init (S fuel) content st
    = build_chain (on_content_object_init fuel) content
        (make_repository_file_path repository (source_path live))
        (first_commit :: rest)
        (List.last (first_commit :: rest) first_commit) st2
    /\ objs st2
       = <[content := inferred first_commit
                        (List.last (first_commit :: rest) first_commit)
                        live]> (objs st)
    /\ lists st2 = lists st
    /\ repo_cache st2 !! posixpath.dirname (source_path live)
       = Some (Some repository).
Proof.
  intros Hc Hs Hg Hloc Hh.
  destruct (located_spec st (posixpath.dirname (source_path live))
              repository Hloc)
    as (st1 & Hd & Hcache & Ho & Hl).
  cbn [on_content_object_init].
  rewrite (bind_Ret _ _ _ _ _ (get_obj_Some _ _ _ Hc)). rewrite Hs.
  rewrite (bind_Ret _ _ _ _ _ Hd).
  destruct (history_listed repository (source_path live))
    as (listed & Hlisted & Hrev); [rewrite Hh; discriminate|].
  rewrite Hlisted. rewrite (bind_Ret _ _ st1 st1 listed) by reflexivity.
  rewrite <- Hrev, Hh.
  assert (Hc1 : objs st1 !! content = Some live) by now rewrite Ho.
  rewrite (bind_Ret _ _ _ _ _ (get_obj_Some _ _ _ Hc1)).
  rewrite Hg. cbn [hasattr].
  rewrite (infer_spec content st1 live first_commit _ _ Hc1).
  eexists. split; [reflexivity|]. cbn [objs lists repo_cache with_objs].
  now rewrite Ho, Hl.
Qed.

(** Lines 83-130 when every commit can be materialized. *)
Lemma build_chain_spec (fuel : nat) (content : ref) (st2 : State)
    (live1 : Content) (repository : Repo) (commits : list Commit)
    (latest_commit : Commit) :
  objs st2 !! content = Some live1 ->
  is_Static (cls live1) = false ->
  repo_cache st2 !! posixpath.dirname (source_path live1)
  = Some (Some repository) ->
  history repository (source_path live1) <> [] ->
  forallb (materializable live1 repository) commits = true ->
  let path := make_repository_file_path repository (source_path live1) in
  let rl := length (lists st2) in
  let n0 := length (objs st2) in
  let revs := seq n0 (length commits) in
  exists st',
    build_chain (on_content_object_init (S fuel)) content path commits
      latest_commit st2 = (Ret tt, st')
    /\ lists st' = lists st2 ++ [revs]
    /\ length (objs st') = (n0 + length commits)%nat
    /\ (forall r, (r < n0)%nat -> r <> content ->
          objs st' !! r = objs st2 !! r)
    /\ objs st' !! content
       = Some (set_git
                 (Some {| commit := latest_commit; file_path := path;
                          revisions := rl;
                          previous_revision :=
                            if 1 <? Z.of_nat (length revs)
                            then revs !! (length revs - 2)%nat else None;
                          next_revision := None |}) live1)
    /\ (forall i c, commits !! i = Some c ->
          exists o parsed,
            objs st' !! (n0 + i)%nat = Some o
            /\ parse_commit live1 repository c = Some parsed
            /\ undated o = undated (materialized live1 c parsed)
            /\ git o = Some (expected_link content path rl revs i c)).
Proof.
  intros Hc2 Hstatic1 Hcache2 Hhist1 Hmat1 path rl n0 revs.
  unfold build_chain.
  rewrite (bind_Ret _ _ st2
             (with_lists (fun ls => ls ++ [[]]) st2) (length (lists st2)))
    by reflexivity.
  fold rl.
  remember (with_lists (fun ls => ls ++ [[]]) st2) as st3 eqn:E3.
  assert (O3 : objs st3 = objs st2) by now subst st3.
  assert (L3 : lists st3 = lists st2 ++ [[]]) by now subst st3.
  assert (C3 : repo_cache st3 = repo_cache st2) by now subst st3.
  assert (Hc3 : objs st3 !! content = Some live1) by now rewrite O3.
  assert (Hl3 : lists st3 !! rl = Some []).
  { rewrite L3. apply list_lookup_middle. reflexivity. }
  assert (Hlt : (content < n0)%nat) by (eapply lookup_lt_Some; eauto).
  destruct (materialize_loop content rl live1 repository commits st3 []
              Hc3 Hl3 Hmat1) as (news & E4 & Hnews).
  rewrite !O3 in E4. fold path n0 in E4. rewrite (bind_Ret _ _ _ _ _ E4).
  assert (Hlen : length commits = length news)
    by (eapply Forall2_length; eauto).
  unfold revs. rewrite Hlen in *. cbn [app] in *.
  remember {| objs := objs st2 ++ news;
              lists := <[rl := seq n0 (length news)]> (lists st3);
              repo_cache := repo_cache st3; probes := probes st3 |}
    as st4 eqn:E4'.
  assert (Hrevs : lists st4 !! rl = Some (seq n0 (length news))).
  { subst st4. cbn [lists]. apply list_lookup_insert_eq.
    eapply lookup_lt_Some; eauto. }
  rewrite (bind_Ret _ _ _ _ _ (get_list_Some _ _ _ Hrevs)).
  assert (Hcache4 : repo_cache st4 !! posixpath.dirname (source_path live1)
                    = Some (Some repository)).
  { subst st4. cbn [repo_cache]. now rewrite C3. }
  assert (L0 : linking content path rl n0 commits news st4 0 st4).
  { constructor; try reflexivity.
    - subst st4. cbn [objs]. rewrite length_app. reflexivity.
    - intros i c o1 Hci Hoi. exists o1. split; [|split; [reflexivity|]].
      + subst st4. cbn [objs]. unfold n0.
        rewrite lookup_app_r by lia.
        now replace (length (objs st2) + i - length (objs st2))%nat
          with i by lia.
      + destruct (Forall2_lookup_r _ _ _ _ _ Hnews Hoi)
          as (c' & _ & parsed & _ & ->).
        reflexivity. }
  destruct (link_loop fuel content live1 repository rl n0 commits news st4
              Hlen Hrevs Hcache4 Hhist1 Hstatic1 Hnews commits 0%nat st4
              eq_refl L0) as (st5 & E5 & L5).
  change (enumerate (zip commits (seq n0 (length news))))
    with (enumerate_from (Z.of_nat 0)
            (zip commits (drop 0 (seq n0 (length news))))).
  fold path in E5. rewrite (bind_Ret _ _ _ _ _ E5).
  fold path in L5.
  assert (Hrevs5 : lists st5 !! rl = Some (seq n0 (length news))).
  { now rewrite (linking_lists _ _ _ _ _ _ _ _ _ L5). }
  rewrite (bind_Ret _ _ _ _ _ (get_list_Some _ _ _ Hrevs5)).
  rewrite (bind_Ret _ _ _ _ _ (last_previous_spec _ st5)).
  assert (Hc5 : objs st5 !! content = Some live1).
  { rewrite (linking_old _ _ _ _ _ _ _ _ _ L5) by lia.
    subst st4. cbn [objs]. now apply lookup_app_l_Some. }
  rewrite (modify_obj_Some _ _ _ _ Hc5).
  eexists. split; [reflexivity|]. cbn [objs lists with_objs].
  split; [|split; [|split; [|split]]].
  - rewrite (linking_lists _ _ _ _ _ _ _ _ _ L5). subst st4. cbn [lists].
    rewrite L3. unfold rl.
    replace (length (lists st2)) with (length (lists st2) + 0)%nat by lia.
    now rewrite insert_app_r.
  - rewrite length_alter, (linking_length _ _ _ _ _ _ _ _ _ L5). lia.
  - intros r Hr Hrc. rewrite list_lookup_alter_ne by congruence.
    rewrite (linking_old _ _ _ _ _ _ _ _ _ L5) by lia.
    subst st4. cbn [objs]. now rewrite lookup_app_l by lia.
  - rewrite list_lookup_alter_eq, Hc5. reflexivity.
  - intros i c Hci.
    assert (Hi : (i < length news)%nat).
    { rewrite <- Hlen. eapply lookup_lt_Some; eauto. }
    destruct (lookup_lt_is_Some_2 news i Hi) as [o1 Ho1].
    destruct (linking_new _ _ _ _ _ _ _ _ _ L5 i c o1 Hci Ho1)
      as (o & Hoo & Hu & Hgo).
    destruct (Forall2_lookup_lr _ _ _ _ _ _ Hnews Hci Ho1)
      as (parsed & Hparsed & ->).
    exists o, parsed.
    rewrite list_lookup_alter_ne by lia.
    split; [exact Hoo|]. split; [exact Hparsed|].
    split; [exact Hu|].
    replace (i <? length commits)%nat with true in Hgo
      by (symmetry; apply Nat.ltb_lt; lia).
    exact Hgo.
Qed.

(** The hook on a fresh live document whose history is not empty and
    can be materialized: it returns, and the store holds the chain. *)
Lemma build_spec (fuel : nat) (content : ref) (st : State) (live : Content)
    (repository : Repo) :
  objs st !! content = Some live ->
  is_Static (cls live) = false ->
  git live = None ->
  located st (posixpath.dirname (source_path live)) = Some repository ->
  history repository (source_path live) <> [] ->
  forallb (materializable live repository)
          (history repository (source_path live)) = true ->
  exists st',
    on_content_object_init (S (S fuel)) content st = (Ret tt, st')
    /\ built content live repository st st'.
Proof.
  intros Hc Hs Hg Hloc Hne Hmat.
  destruct (history repository (source_path live))
    as [|first_commit rest] eqn:Ecs; [congruence|].
  set (commits := first_commit :: rest) in *.
  set (latest_commit := List.last commits first_commit).
  destruct (hook_fresh (S fuel) content st live repository first_commit rest
              Hc Hs Hg Hloc Ecs) as (st2 & E & O2 & L2 & C2).
  fold commits latest_commit in E, O2.
  destruct (inferred_identity first_commit latest_commit live)
    as (Isrc & Icls & Iparse & Imat).
  remember (inferred first_commit latest_commit live) as live1 eqn:Elive1.
  assert (Hlt : (content < length (objs st))%nat)
    by (eapply lookup_lt_Some; eauto).
  assert (Hc2 : objs st2 !! content = Some live1).
  { rewrite O2. now apply list_lookup_insert_eq. }
  assert (Hn : length (objs st2) = length (objs st))
    by now rewrite O2, length_insert.
  destruct (build_chain_spec fuel content st2 live1 repository commits
              latest_commit Hc2) as (st' & E' & B1 & B2 & B3 & B4 & B5).
  - now rewrite Icls.
  - now rewrite Isrc.
  - rewrite Isrc, Ecs. discriminate.
  - apply forallb_forall. intros c Hin.
    pose proof (proj1 (forallb_forall _ _) Hmat c Hin) as H.
    unfold materializable in *. now rewrite Iparse.
  - exists st'. split; [now rewrite E, <- Isrc|].
    rewrite Isrc, Hn, L2 in *.
    constructor; cbv zeta; rewrite ?Ecs; fold commits.
    + exact B1.
    + exact B2.
    + intros r Hr Hrc. rewrite (B3 r Hr Hrc), O2.
      now rewrite list_lookup_insert_ne by congruence.
    + intros fc lc Hfc Hlc. inversion Hfc; subst fc.
      assert (lc = latest_commit)
        by (symmetry; now apply last_List_last).
      subst lc. rewrite B4, Elive1. reflexivity.
    + intros i c Hci. destruct (B5 i c Hci) as (o & parsed & H1 & H2 & H3 & H4).
      exists o, parsed. split; [exact H1|].
      split; [now rewrite <- Iparse|]. split; [now rewrite <- Imat|].
      exact H4.
Qed.

End BuildChain.

(** ** Failing materialization *)

Section Failure.
Context `{W : World}.

Lemma materialize_fails (content : ref) (rl : lref) (st : State)
    (live : Content) (repository : Repo) (c : Commit) :
  objs st !! content = Some live ->
  parse_commit live repository c = None ->
  exists e,
    materialize content
      (make_repository_file_path repository (source_path live)) rl c st
    = (Raise e, st)
    /\ (e = KeyError \/ e = ReaderError).
Proof.
  intros Hc Hp. unfold materialize, parse_commit in *.
  destruct (tree c !! make_repository_file_path repository (source_path live))
    as [blob|].
  - exists ReaderError. split; [|now right].
    unfold of_option at 1. rewrite (bind_Ret _ _ st st blob) by reflexivity.
    rewrite (bind_Ret _ _ _ _ _ (get_obj_Some _ _ _ Hc)).
    rewrite Hp. reflexivity.
  - exists KeyError. split; [reflexivity | now left].
Qed.

(** The first loop stops at the first commit that cannot be
    materialized; the exception leaves the loop, and the objects the loop
    found in the store are as they were. *)
Lemma materialize_loop_fails (content : ref) (rl : lref) (live : Content)
    (repository : Repo) (cs : list Commit) :
  forall (st : State) (acc : list ref),
    objs st !! content = Some live ->
    lists st !! rl = Some acc ->
    forallb (materializable live repository) cs = false ->
    exists e st',
      for_each cs
        (materialize content
           (make_repository_file_path repository (source_path live)) rl) st
      = (Raise e, st')
      /\ (e = KeyError \/ e = ReaderError)
      /\ (forall r, (r < length (objs st))%nat ->
            objs st' !! r = objs st !! r).
Proof.
  induction cs as [|c cs IH]; intros st acc Hc Hl Hm; [discriminate|].
  cbn [forallb] in Hm. cbn [for_each].
  destruct (parse_commit live repository c) as [parsed|] eqn:Hp.
  - unfold materializable at 1 in Hm. rewrite Hp in Hm. cbn in Hm.
    rewrite (bind_Ret _ _ _ _ _
               (materialize_spec content rl st live repository acc c
                  parsed Hc Hl Hp)).
    set (st1 := {| objs := objs st ++ [materialized live c parsed] |}).
    destruct (IH st1 (acc ++ [length (objs st)])) as (e & st' & E & He & Hold).
    + subst st1. cbn [objs]. now apply lookup_app_l_Some.
    + subst st1. cbn [lists]. apply list_lookup_insert_eq.
      eapply lookup_lt_Some; eauto.
    + exact Hm.
    + exists e, st'. split; [exact E|]. split; [exact He|].
      intros r Hr. rewrite Hold.
      * subst st1. cbn [objs]. now apply lookup_app_l.
      * subst st1. cbn [objs]. rewrite length_app. lia.
  - destruct (materialize_fails content rl st live repository c Hc Hp)
      as (e & E & He).
    exists e, st. split; [|now split].
    now rewrite (bind_Raise _ _ _ _ _ E).
Qed.

(** When a commit of the history cannot be materialized, the hook raises
    [KeyError] (the blob is missing) or the reader's error; the live
    document keeps the dates inferred before the first loop and gets no
    [git] attribute, and the objects that were in the store are as they
    were. *)
Lemma build_fails (fuel : nat) (content : ref) (st : State) (live : Content)
    (repository : Repo) (first_commit : Commit) (rest : list Commit) :
  objs st !! content = Some live ->
  is_Static (cls live) = false ->
  git live = None ->
  located st (posixpath.dirname (source_path live)) = Some repository ->
  history repository (source_path live) = first_commit :: rest ->
  forallb (materializable live repository) (first_commit :: rest) = false ->
  exists e st',
    on_content_object_init (S fuel) content st = (Raise e, st')
    /\ (e = KeyError \/ e = ReaderError)
    /\ objs st' !! content
       = Some (inferred first_commit
                 (List.last (first_commit :: rest) first_commit) live)
    /\ (forall r, (r < length (objs st))%nat -> r <> content ->
          objs st' !! r = objs st !! r).
Proof.
  intros Hc Hs Hg Hloc Ecs Hmat.
  set (commits := first_commit :: rest) in *.
  set (latest_commit := List.last commits first_commit).
  destruct (hook_fresh fuel content st live repository first_commit rest
              Hc Hs Hg Hloc Ecs) as (st2 & E & O2 & L2 & C2).
  fold commits latest_commit in E, O2.
  destruct (inferred_identity first_commit latest_commit live)
    as (Isrc & Icls & Iparse & Imat).
  remember (inferred first_commit latest_commit live) as live1 eqn:Elive1.
  assert (Hlt : (content < length (objs st))%nat)
    by (eapply lookup_lt_Some; eauto).
  assert (Hc2 : objs st2 !! content = Some live1).
  { rewrite O2. now apply list_lookup_insert_eq. }
  rewrite E. unfold build_chain.
  rewrite (bind_Ret _ _ st2
             (with_lists (fun ls => ls ++ [[]]) st2) (length (lists st2)))
    by reflexivity.
  remember (with_lists (fun ls => ls ++ [[]]) st2) as st3 eqn:E3.
  assert (O3 : objs st3 = objs st2) by now subst st3.
  assert (Hc3 : objs st3 !! content = Some live1) by now rewrite O3.
  assert (Hl3 : lists st3 !! length (lists st2) = Some []).
  { subst st3. cbn [lists with_lists]. apply list_lookup_middle.
    reflexivity. }
  assert (Hmat1 : forallb (materializable live1 repository) commits = false).
  { rewrite <- Hmat. apply forallb_eq. intros c.
    unfold materializable. now rewrite Iparse. }
  rewrite <- Isrc.
  destruct (materialize_loop_fails content (length (lists st2)) live1
              repository commits st3 [] Hc3 Hl3 Hmat1)
    as (e & st' & E' & He & Hold).
  rewrite (bind_Raise _ _ _ _ _ E').
  exists e, st'. split; [reflexivity|]. split; [exact He|].
  rewrite O3, O2, length_insert in Hold. split.
  - rewrite (Hold content Hlt). now apply list_lookup_insert_eq.
  - intros r Hr Hrc. rewrite (Hold r Hr).
    now rewrite list_lookup_insert_ne by congruence.
Qed.

End Failure.

(** * The claims about chain construction *)

(** C1.  After chain construction for a document with a non-empty history
    (every commit of which can be materialized), the list of revisions holds
    one new object per commit, in the order of the history, and the revision
    at index [i] has in its [git] tuple its own commit, the shared list,
    [previous_revision = revisions[i-1]] if [i > 0] and none otherwise, and
    [next_revision] the live document if [i = N-2], [revisions[i+1]] if
    [i < N-1], and none for the last revision. *)
Theorem revisions_linked `{W : World} (fuel : nat) (content : ref)
    (live : Content) (repository : Repo) (commits : list Commit)
    (st : State) :
  tracked content live repository commits st ->
  forallb (materializable live repository) commits = true ->
  exists st' revs,
    on_content_object_init (S (S fuel)) content st = (Ret tt, st')
    /\ lists st' !! length (lists st) = Some revs
    /\ length revs = length commits
    /\ NoDup revs
    /\ (forall r, In r revs -> r <> content /\ objs st !! r = None)
    /\ (forall i c, commits !! i = Some c ->
          exists r o g,
            revs !! i = Some r
            /\ objs st' !! r = Some o
            /\ git o = Some g
            /\ commit g = c
            /\ revisions g = length (lists st)
            /\ previous_revision g
               = (if 0 <? Z.of_nat i then revs !! (i - 1)%nat else None)
            /\ next_revision g
               = (if Z.of_nat i =? Z.of_nat (length commits) - 2
                  then Some content
                  else if Z.of_nat i <? Z.of_nat (length commits) - 1
                       then revs !! (i + 1)%nat
                       else None)).
Proof.
  intros [Hc Hs Hg Hloc Hh Hne] Hmat. subst commits.
  destruct (build_spec fuel content st live repository Hc Hs Hg Hloc Hne Hmat)
    as (st' & E & B).
  set (commits := history repository (source_path live)) in *.
  set (revs := seq (length (objs st)) (length commits)).
  exists st', revs. split; [exact E|].
  split.
  { rewrite (built_lists _ _ _ _ _ B). fold commits revs.
    apply list_lookup_middle. reflexivity. }
  split; [apply length_seq|].
  split; [apply NoDup_ListNoDup, List.seq_NoDup|].
  split.
  { intros r Hr. apply in_seq in Hr.
    pose proof (lookup_lt_Some _ _ _ Hc). split; [lia|].
    apply lookup_ge_None_2. lia. }
  intros i c Hi.
  destruct (built_revisions _ _ _ _ _ B i c Hi)
    as (o & parsed & Ho & _ & _ & Hgo).
  pose proof (lookup_lt_Some _ _ _ Hi) as Hlt.
  eexists _, o, _. split; [apply lookup_seq_lt; exact Hlt|].
  split; [exact Ho|]. split; [exact Hgo|].
  unfold expected_link. cbn [commit revisions previous_revision next_revision].
  fold commits revs. unfold revs at 3 4. rewrite length_seq.
  repeat split.
Qed.

(** C2.  After chain construction the live document's [git] tuple has the
    latest commit of the history as [commit], the shared list of revisions,
    [previous_revision = revisions[-2]] when there is more than one
    revision and none otherwise, and no [next_revision]. *)
Theorem live_document_linked `{W : World} (fuel : nat) (content : ref)
    (live : Content) (repository : Repo) (commits : list Commit)
    (st : State) :
  tracked content live repository commits st ->
  forallb (materializable live repository) commits = true ->
  exists st' revs o g,
    on_content_object_init (S (S fuel)) content st = (Ret tt, st')
    /\ lists st' !! length (lists st) = Some revs
    /\ length revs = length commits
    /\ objs st' !! content = Some o
    /\ git o = Some g
    /\ last commits = Some (commit g)
    /\ revisions g = length (lists st)
    /\ previous_revision g
       = (if 1 <? Z.of_nat (length revs)
          then revs !! (length revs - 2)%nat else None)
    /\ next_revision g = None.
Proof.
  intros [Hc Hs Hg Hloc Hh Hne] Hmat. subst commits.
  destruct (build_spec fuel content st live repository Hc Hs Hg Hloc Hne Hmat)
    as (st' & E & B).
  set (commits := history repository (source_path live)) in *.
  set (revs := seq (length (objs st)) (length commits)).
  destruct commits as [|first_commit rest] eqn:Ecs; [congruence|].
  destruct (last (first_commit :: rest)) as [latest_commit|] eqn:Elast;
    [|now apply last_None in Elast].
  pose proof (built_live _ _ _ _ _ B first_commit latest_commit) as Hlive.
  cbv zeta in Hlive. fold commits in Hlive. rewrite Ecs in Hlive.
  specialize (Hlive eq_refl Elast).
  eexists st', revs, _, _. split; [exact E|].
  split.
  { rewrite (built_lists _ _ _ _ _ B). fold commits. rewrite Ecs.
    apply list_lookup_middle. reflexivity. }
  split; [apply length_seq|].
  split; [exact Hlive|].
  split; [reflexivity|]. cbn [commit revisions previous_revision
                              next_revision].
  repeat split.
Qed.

(** C4.  When the hook runs on a fresh live document with a non-empty
    history, the document's [date] afterwards is the one it had, if it had
    one, and the authored time of the first commit otherwise; its
    [modified] is the authored time of the latest commit if the first and
    the latest commit differ and the document had no [modified], and is
    what it was otherwise.  This holds whether or not the revisions can be
    materialized afterwards. *)
Theorem live_dates_inferred `{W : World} (fuel : nat) (content : ref)
    (live : Content) (repository : Repo) (commits : list Commit)
    (st : State) (first_commit latest_commit : Commit) :
  tracked content live repository commits st ->
  commits !! 0%nat = Some first_commit ->
  last commits = Some latest_commit ->
  exists out st' o,
    on_content_object_init (S (S fuel)) content st = (out, st')
    /\ objs st' !! content = Some o
    /\ date o
       = (if hasattr (date live) then date live
          else Some (fromtimestamp (authored_date first_commit)))
    /\ modified o
       = (if commit_ne first_commit latest_commit
             && negb (hasattr (modified live))
          then Some (fromtimestamp (authored_date latest_commit))
          else modified live).
Proof.
  intros [Hc Hs Hg Hloc Hh Hne] Hfirst Hlast.
  destruct commits as [|fc rest] eqn:Ecs; [congruence|].
  inversion Hfirst; subst fc.
  pose proof (last_List_last _ first_commit _ Hlast) as Hl.
  assert (Hdates : forall g,
            date (set_git g (inferred first_commit latest_commit live))
            = (if hasattr (date live) then date live
               else Some (fromtimestamp (authored_date first_commit)))
            /\ modified (set_git g (inferred first_commit latest_commit live))
               = (if commit_ne first_commit latest_commit
                     && negb (hasattr (modified live))
                  then Some (fromtimestamp (authored_date latest_commit))
                  else modified live)).
  { intros g. unfold inferred.
    destruct (date live) as [d|] eqn:Hd;
      destruct (modified live) as [m|] eqn:Hm;
      destruct (commit_ne first_commit latest_commit);
      cbn; rewrite ?Hd, ?Hm; cbn; rewrite ?Hd, ?Hm; auto. }
  destruct (forallb (materializable live repository) (first_commit :: rest))
    eqn:Hmat.
  - assert (Hne' : history repository (source_path live) <> [])
      by (rewrite Hh; discriminate).
    rewrite <- Hh in Hmat.
    destruct (build_spec fuel content st live repository Hc Hs Hg Hloc Hne'
                Hmat) as (st' & E & B).
    pose proof (built_live _ _ _ _ _ B first_commit latest_commit) as Hlive.
    cbv zeta in Hlive. rewrite Hh in Hlive.
    specialize (Hlive eq_refl Hlast).
    eexists _, st', _. split; [exact E|]. split; [exact Hlive|].
    apply Hdates.
  - destruct (build_fails (S fuel) content st live repository first_commit
                rest Hc Hs Hg Hloc Hh Hmat) as (e & st' & E & _ & Ho & _).
    rewrite Hl in Ho.
    eexists _, st', _. split; [exact E|]. split; [exact Ho|].
    destruct (Hdates None) as [H1 H2]. split; [exact H1 | exact H2].
Qed.

(** C5.  Every revision materialized by the hook has as [save_as] the path
    join of the live document's [url] (if it ends in the separator, its
    [dirname] otherwise), the root of the base name of the live document's
    [save_as] unless that root is [index], the hash of its commit, and
    [index] with the extension of the live document's file; its [url] is the
    [dirname] of that [save_as]. *)
Theorem revision_output_path `{W : World} (fuel : nat) (content : ref)
    (live : Content) (repository : Repo) (commits : list Commit)
    (st : State) :
  tracked content live repository commits st ->
  forallb (materializable live repository) commits = true ->
  exists st' revs,
    on_content_object_init (S (S fuel)) content st = (Ret tt, st')
    /\ lists st' !! length (lists st) = Some revs
    /\ length revs = length commits
    /\ (forall i c, commits !! i = Some c ->
          exists r o,
            revs !! i = Some r
            /\ objs st' !! r = Some o
            /\ save_as o
               = spec_save_as (url live) (save_as live) (hexsha c)
            /\ url o = posixpath.dirname (save_as o)).
Proof.
  intros [Hc Hs Hg Hloc Hh Hne] Hmat. subst commits.
  destruct (build_spec fuel content st live repository Hc Hs Hg Hloc Hne Hmat)
    as (st' & E & B).
  set (commits := history repository (source_path live)) in *.
  set (revs := seq (length (objs st)) (length commits)).
  exists st', revs. split; [exact E|].
  split.
  { rewrite (built_lists _ _ _ _ _ B). fold commits revs.
    apply list_lookup_middle. reflexivity. }
  split; [apply length_seq|].
  intros i c Hi.
  destruct (built_revisions _ _ _ _ _ B i c Hi)
    as (o & parsed & Ho & _ & Hu & _).
  pose proof (lookup_lt_Some _ _ _ Hi) as Hlt.
  eexists _, o. split; [apply lookup_seq_lt; exact Hlt|].
  split; [exact Ho|].
  rewrite <- revision_save_as_spec.
  change (save_as o) with (save_as (undated o)).
  change (url o) with (url (undated o)).
  rewrite Hu. split; reflexivity.
Qed.

(** C6.  For two commits with distinct hashes and one live document, the
    paths computed for [save_as] differ, and each holds the hash of its
    commit as one of its segments.  A hash is taken to be a non-empty
    string without the separator, which every hexadecimal hash is. *)
Theorem revision_output_paths_distinct (live : Content) (c1 c2 : Commit) :
  segment_like (hexsha c1) = true ->
  segment_like (hexsha c2) = true ->
  hexsha c1 <> hexsha c2 ->
  revision_save_as live c1 <> revision_save_as live c2
  /\ In (hexsha c1) (Str.split posixpath.sep (revision_save_as live c1))
  /\ In (hexsha c2) (Str.split posixpath.sep (revision_save_as live c2)).
Proof.
  intros H1 H2 Hne. split; [now apply save_as_distinct|].
  split; now apply save_as_has_hash.
Qed.

(** * The claims at the example *)

Ltac example_tracked :=
  constructor;
  [ reflexivity | reflexivity | reflexivity
  | vm_compute; reflexivity | vm_compute; reflexivity | discriminate ].

(** The example document with its three commits: the hook returns and
    leaves a list of three revisions. *)
Lemma revisions_linked_witness :
  exists st' (revs : list nat),
    on_content_object_init (W := ex_world ex_log) 2 0%nat (ex_state ex_live)
    = (Ret tt, st')
    /\ lists st' !! 0%nat = Some revs
    /\ length revs = 3%nat.
Proof.
  destruct (revisions_linked (W := ex_world ex_log) 0 0%nat ex_live
              (ex_repo ex_log) [ex_c1; ex_c2; ex_c3] (ex_state ex_live))
    as (st' & revs & E & Hl & Hn & _);
    [example_tracked | vm_compute; reflexivity |].
  exists st', revs. split; [exact E|]. split; [exact Hl | exact Hn].
Defined.

(** At the example the live document is tied to the latest commit. *)
Lemma live_document_linked_witness :
  exists st' o g,
    on_content_object_init (W := ex_world ex_log) 2 0%nat (ex_state ex_live)
    = (Ret tt, st')
    /\ objs st' !! 0%nat = Some o
    /\ git o = Some g
    /\ Some (commit g) = Some ex_c3
    /\ next_revision g = None.
Proof.
  destruct (live_document_linked (W := ex_world ex_log) 0 0%nat ex_live
              (ex_repo ex_log) [ex_c1; ex_c2; ex_c3] (ex_state ex_live))
    as (st' & revs & o & g & E & _ & _ & Ho & Hg & Hlast & _ & _ & Hnext);
    [example_tracked | vm_compute; reflexivity |].
  exists st', o, g. split; [exact E|]. split; [exact Ho|].
  split; [exact Hg|]. split; [symmetry; exact Hlast | exact Hnext].
Defined.

(** At the example, a document without dates gets those of the first and
    of the latest commit. *)
Lemma live_dates_inferred_witness :
  exists out st' o,
    on_content_object_init (W := ex_world ex_log) 2 0%nat (ex_state ex_live)
    = (out, st')
    /\ objs st' !! 0%nat = Some o
    /\ date o = Some (fromtimestamp 100)
    /\ modified o = Some (fromtimestamp 300).
Proof.
  destruct (live_dates_inferred (W := ex_world ex_log) 0 0%nat ex_live
              (ex_repo ex_log) [ex_c1; ex_c2; ex_c3] (ex_state ex_live)
              ex_c1 ex_c3)
    as (out & st' & o & E & Ho & Hd & Hm);
    [example_tracked | reflexivity | reflexivity |].
  exists out, st', o. split; [exact E|]. split; [exact Ho|].
  split; [exact Hd | exact Hm].
Defined.

(** At the example the revision of the second commit goes to
    [post/b2/index.html]. *)
Lemma revision_output_path_witness :
  exists st' (revs : list nat),
    on_content_object_init (W := ex_world ex_log) 2 0%nat (ex_state ex_live)
    = (Ret tt, st')
    /\ (exists r o,
          revs !! 1%nat = Some r
          /\ objs st' !! r = Some o
          /\ save_as o = "post/b2/index.html"
          /\ url o = posixpath.dirname (save_as o)).
Proof.
  destruct (revision_output_path (W := ex_world ex_log) 0 0%nat ex_live
              (ex_repo ex_log) [ex_c1; ex_c2; ex_c3] (ex_state ex_live))
    as (st' & revs & E & _ & _ & H);
    [example_tracked | vm_compute; reflexivity |].
  exists st', revs. split; [exact E|].
  destruct (H 1%nat ex_c2 eq_refl) as (r & o & Hr & Ho & Hs & Hu).
  exists r, o. split; [exact Hr|]. split; [exact Ho|].
  split; [exact Hs | exact Hu].
Defined.

(** The paths of the first two commits of the example. *)
Lemma revision_output_paths_distinct_witness :
  revision_save_as ex_live ex_c1 <> revision_save_as ex_live ex_c2
  /\ In "a1" (Str.split posixpath.sep (revision_save_as ex_live ex_c1))
  /\ In "b2" (Str.split posixpath.sep (revision_save_as ex_live ex_c2)).
Proof.
  apply (revision_output_paths_distinct ex_live ex_c1 ex_c2);
    [reflexivity | reflexivity | discriminate].
Defined.


(** A static file of the example repository. *)
Lemma static_content_skipped_witness :
  on_content_object_init (W := ex_world ex_log) 1 0%nat (ex_state ex_static)
  = (Ret tt, ex_state ex_static).
Proof.
  apply (static_content_skipped (W := ex_world ex_log) 0 0%nat
           (ex_state ex_static) ex_static); reflexivity.
Defined.

(** The hook fired again for the chained object of [ex_chained]. *)
Lemma chained_content_redated_witness :
  exists st',
    on_content_object_init (W := ex_world ex_log) 1 0%nat ex_chained
    = (Ret tt, st')
    /\ lists st' = [[1%nat; 0%nat]]
    /\ length (objs st') = 2%nat.
Proof.
  destruct (chained_content_redated (W := ex_world ex_log) 0 0%nat ex_chained
              (set_git (Some {| commit := ex_c2;
                                file_path := "content/post.md";
                                revisions := 0%nat;
                                previous_revision := Some 1%nat;
                                next_revision := None |}) ex_live)
              {| commit := ex_c2; file_path := "content/post.md";
                 revisions := 0%nat; previous_revision := Some 1%nat;
                 next_revision := None |}
              (ex_repo ex_log))
    as (st' & E & Ho & Hl & _);
    [ reflexivity | reflexivity | vm_compute; reflexivity
    | vm_compute; discriminate | reflexivity
    | intros p [= <-]; simpl; lia | ].
  exists st'. split; [exact E|]. split; [exact Hl|].
  rewrite Ho. reflexivity.
Defined.

(** C3 as stated fails: when the hook fires again for the chained object
    of [ex_chained], its [locale_date] changes with its [date], and its
    previous revision's [locale_modified] with that one's [modified]. *)
Lemma chained_content_locale_dates :
  let run := on_content_object_init (W := ex_world ex_log) 1 0%nat
               ex_chained in
  fst run = Ret tt
  /\ (locale_date <$> (objs ex_chained !! 0%nat)) = Some None
  /\ (locale_date <$> (objs (snd run) !! 0%nat)) = Some (Some "%d@200")
  /\ (locale_modified <$> (objs ex_chained !! 1%nat)) = Some None
  /\ (locale_modified <$> (objs (snd run) !! 1%nat))
     = Some (Some "%d@200").
Proof. vm_compute. repeat split. Qed.


(** * Further properties of the code *)

(** ** The tracked path *)

Module ReplaceFacts.

Lemma replace_absent (a b : ascii) (s : string) :
  a <> b -> Str.contains a (Str.replace a b s) = false.
Proof.
  intros Hab. induction s as [|x s IH]; simpl; [reflexivity|].
  rewrite IH, orb_false_r.
  destruct (Ascii.eqb x a) eqn:E.
  - apply Ascii.eqb_neq. congruence.
  - exact E.
Qed.

Lemma replace_length (a b : ascii) (s : string) :
  String.length (Str.replace a b s) = String.length s.
Proof. induction s as [|x s IH]; simpl; [reflexivity | now rewrite IH]. Qed.

Lemma replace_id (a b : ascii) (s : string) :
  Str.contains a s = false -> Str.replace a b s = s.
Proof.
  induction s as [|x s IH]; simpl; [reflexivity|].
  intros H. apply orb_false_iff in H as [Hx Hs].
  now rewrite Hx, (IH Hs).
Qed.

Lemma replace_other (a b c : ascii) (s : string) :
  c <> a -> c <> b ->
  Str.contains c (Str.replace a b s) = Str.contains c s.
Proof.
  intros Ha Hb. induction s as [|x s IH]; simpl; [reflexivity|].
  rewrite IH. f_equal.
  destruct (Ascii.eqb x a) eqn:E; [|reflexivity].
  apply Ascii.eqb_eq in E. subst x.
  rewrite (proj2 (Ascii.eqb_neq b c)) by congruence.
  now rewrite (proj2 (Ascii.eqb_neq a c)) by congruence.
Qed.

End ReplaceFacts.

(** X1.  The path handed to git never holds a backslash: whatever
    [os.path.relpath] returns, [make_repository_file_path] yields a string
    of the same length without backslashes, in which every character other
    than the backslash and the slash occurs exactly if it occurs in the
    relative path; it yields the relative path itself when that holds no
    backslash. *)
Theorem repository_file_path_forward_slashes `{W : World}
    (repository : Repo) (path : string) :
  let relative_path := relpath path (working_dir repository) in
  let tracked_path := make_repository_file_path repository path in
  Str.contains "\"%char tracked_path = false
  /\ String.length tracked_path = String.length relative_path
  /\ (forall c : ascii, c <> "\"%char -> c <> "/"%char ->
        Str.contains c tracked_path = Str.contains c relative_path)
  /\ (Str.contains "\"%char relative_path = false ->
      tracked_path = relative_path).
Proof.
  cbv zeta. unfold make_repository_file_path. split; [|split; [|split]].
  - apply ReplaceFacts.replace_absent. discriminate.
  - apply ReplaceFacts.replace_length.
  - intros c. apply ReplaceFacts.replace_other.
  - apply ReplaceFacts.replace_id.
Qed.

(** The tracked path of the example document. *)
Lemma repository_file_path_forward_slashes_witness :
  make_repository_file_path (W := ex_world ex_log) (ex_repo ex_log)
    "/repo/content/post.md"
  = relpath (World := ex_world ex_log) "/repo/content/post.md" "/repo".
Proof.
  apply (repository_file_path_forward_slashes (W := ex_world ex_log)
           (ex_repo ex_log) "/repo/content/post.md").
  vm_compute. reflexivity.
Defined.

(** ** Repository discovery on any path *)

Module WalkFacts.
Import StrFacts.

Lemma rstrip_split (c : ascii) (s : string) :
  exists rest, s = Str.rstrip c s +:+ rest /\ Str.all_eq c rest = true.
Proof.
  induction s as [|a s (rest & IH & Hall)]; [now exists ""|]. simpl.
  destruct (Str.rstrip c s) as [|b r] eqn:E.
  - destruct (Ascii.eqb a c) eqn:Ea.
    + exists (String a s). split; [reflexivity|].
      simpl in IH. subst rest. simpl. now rewrite Ea, Hall.
    + exists s. split; [reflexivity|]. simpl in IH. now subst rest.
  - exists rest. split; [|exact Hall]. simpl in *. now rewrite <- IH.
Qed.

Lemma rstrip_prefix (c : ascii) (s : string) :
  exists rest, s = Str.rstrip c s +:+ rest.
Proof. destruct (rstrip_split c s) as (rest & H & _). now exists rest. Qed.

(** The head [split] yields is a prefix of the path. *)
Lemma split_prefix (p h t : string) :
  posixpath.split p = (h, t) -> exists rest, p = h +:+ rest.
Proof.
  unfold posixpath.split. destruct (posixpath.cut p) as [h0 t0] eqn:E.
  intros [= <- <-].
  pose proof (cut_append p) as Hp. rewrite E in Hp; simpl in Hp.
  unfold posixpath.strip_head.
  destruct (negb (Str.is_empty h0) && negb (Str.all_eq posixpath.sep h0)).
  - destruct (rstrip_prefix posixpath.sep h0) as [rest Hr].
    exists (rest +:+ t0). rewrite <- append_assoc, <- Hr. now symmetry.
  - exists t0. now symmetry.
Qed.

Lemma contains_app (c : ascii) (a b : string) :
  Str.contains c (a +:+ b) = Str.contains c a || Str.contains c b.
Proof.
  induction a as [|x a IH]; simpl; [reflexivity|].
  now rewrite IH, orb_assoc.
Qed.

Lemma all_eq_app (c : ascii) (a b : string) :
  Str.all_eq c (a +:+ b) = Str.all_eq c a && Str.all_eq c b.
Proof.
  induction a as [|x a IH]; simpl; [reflexivity|].
  now rewrite IH, andb_assoc.
Qed.

Lemma all_eq_free (c : ascii) (h : string) :
  Str.is_empty h = false -> Str.contains c h = false ->
  Str.all_eq c h = false.
Proof.
  destruct h as [|x h]; [discriminate|]. simpl. intros _ H.
  apply orb_false_iff in H as [-> _]. reflexivity.
Qed.

(** A string that holds the separator, cut at its last one. *)
Lemma last_sep_split (c : ascii) (p : string) :
  Str.contains c p = true ->
  exists a t, p = a +:+ String c t /\ Str.contains c t = false.
Proof.
  induction p as [|x p IH]; [discriminate|]. simpl.
  destruct (Str.contains c p) eqn:Hp.
  - intros _. destruct (IH eq_refl) as (a & t & -> & Ht).
    now exists (String x a), t.
  - rewrite orb_false_r. intros Hx. apply Ascii.eqb_eq in Hx. subst x.
    now exists "", p.
Qed.

Lemma startswith_contains (c : ascii) (p : string) :
  Str.startswith c p = true -> Str.contains c p = true.
Proof. destruct p as [|x p]; [discriminate|]. simpl. now intros ->. Qed.

Lemma startswith_app (c : ascii) (a b : string) :
  Str.startswith c a = true -> Str.startswith c (a +:+ b) = true.
Proof. now destruct a. Qed.

Lemma endswith_rstrip (c : ascii) (s : string) :
  Str.endswith c (Str.rstrip c s) = false.
Proof.
  induction s as [|a s IH]; [reflexivity|]. simpl.
  destruct (Str.rstrip c s) as [|b r] eqn:E.
  - destruct (Ascii.eqb a c) eqn:Ea; simpl; [reflexivity | exact Ea].
  - exact IH.
Qed.

Lemma rstrip_all_eq (c : ascii) (s : string) :
  Str.rstrip c s = "" -> Str.all_eq c s = true.
Proof.
  induction s as [|a s IH]; [reflexivity|]. simpl.
  destruct (Str.rstrip c s) as [|b r] eqn:E; [|discriminate].
  destruct (Ascii.eqb a c); [intros _; now apply IH | discriminate].
Qed.

(** The components of a path. *)
Lemma components_app_sep (q s : string) :
  components (q +:+ String posixpath.sep s) = components q ++ components s.
Proof. unfold components. now rewrite split_app, List.filter_app. Qed.

Lemma components_free (t : string) :
  Str.is_empty t = false -> Str.contains posixpath.sep t = false ->
  components t = [t].
Proof.
  intros Hne Hfree. unfold components. rewrite (split_absent _ _ Hfree).
  simpl. now rewrite Hne.
Qed.

Lemma components_all_eq (s : string) :
  Str.all_eq posixpath.sep s = true -> components s = [].
Proof.
  induction s as [|a s IH]; [reflexivity|]. simpl. intros H.
  apply andb_true_iff in H as [Ha Hs]. apply Ascii.eqb_eq in Ha. subst a.
  change (String posixpath.sep s) with ("" +:+ String posixpath.sep s).
  rewrite components_app_sep. now rewrite (IH Hs).
Qed.

Lemma components_app_all_eq (r rest : string) :
  Str.all_eq posixpath.sep rest = true ->
  components (r +:+ rest) = components r.
Proof.
  intros H. destruct rest as [|a rest]; [now rewrite append_nil_r|].
  simpl in H. apply andb_true_iff in H as [Ha Hs].
  apply Ascii.eqb_eq in Ha. subst a.
  rewrite components_app_sep, (components_all_eq _ Hs).
  apply app_nil_r.
Qed.

Lemma components_rstrip (s : string) :
  components (Str.rstrip posixpath.sep s) = components s.
Proof.
  destruct (rstrip_split posixpath.sep s) as (rest & Hs & Hall).
  rewrite Hs at 2. symmetry. now apply components_app_all_eq.
Qed.

(** [split] on a rooted path: the root is left as it is, with an empty
    tail; any other path loses its last component, and what is left is
    rooted again. *)
Lemma split_rooted (p : string) :
  rooted p = true ->
  (Str.all_eq posixpath.sep p = true /\ posixpath.split p = (p, "")
   /\ components p = [])
  \/ (exists h t,
        posixpath.split p = (h, t)
        /\ Str.is_empty t = false
        /\ rooted h = true
        /\ components p = components h ++ [t]).
Proof.
  unfold rooted. intros H. apply andb_true_iff in H as [Habs Hend].
  destruct (last_sep_split _ _ (startswith_contains _ _ Habs))
    as (a & t & Hp & Hfree).
  assert (Hcut : posixpath.cut p = (a +:+ "/", t)).
  { rewrite Hp. now apply cut_app. }
  destruct t as [|x t].
  - (* the path ends in the separator: it is the root *)
    left.
    assert (Hall : Str.all_eq posixpath.sep p = true).
    { apply orb_true_iff in Hend as [Hend|Hall]; [|exact Hall].
      rewrite Hp in Hend.
      now rewrite (endswith_app_sep posixpath.sep a) in Hend. }
    split; [exact Hall|]. split; [|now apply components_all_eq].
    unfold posixpath.split. rewrite Hcut.
    rewrite Hp in Hall |- *.
    unfold posixpath.strip_head.
    change (a +:+ "/") with (a +:+ String posixpath.sep "").
    now rewrite Hall, andb_false_r.
  - right.
    assert (Hne : Str.is_empty (String x t) = false) by reflexivity.
    set (t' := String x t) in *.
    exists (posixpath.strip_head (a +:+ "/")), t'.
    split; [unfold posixpath.split; now rewrite Hcut|].
    split; [exact Hne|].
    assert (Hcs : components p = components a ++ [t']).
    { rewrite Hp, components_app_sep. now rewrite (components_free _ Hne). }
    unfold posixpath.strip_head.
    change (a +:+ "/") with (a +:+ String posixpath.sep "").
    rewrite is_empty_app. cbn [Str.is_empty andb negb].
    rewrite andb_false_r. cbn [negb andb].
    destruct (Str.all_eq posixpath.sep (a +:+ String posixpath.sep ""))
      eqn:Hall; cbn [negb].
    + split.
      * rewrite Hall, orb_true_r, andb_true_r.
        rewrite all_eq_app in Hall. apply andb_true_iff in Hall as [Ha _].
        destruct a as [|y a]; [reflexivity|]. simpl in *.
        now apply andb_true_iff in Ha as [-> _].
      * rewrite Hcs. f_equal. symmetry.
        rewrite components_app_all_eq by reflexivity. reflexivity.
    + rewrite rstrip_app_sep.
      assert (Ha : Str.all_eq posixpath.sep a = false).
      { rewrite all_eq_app in Hall. simpl in Hall.
        now rewrite andb_true_r in Hall. }
      split.
      * rewrite endswith_rstrip. cbn [negb orb]. rewrite andb_true_r.
        destruct (rstrip_prefix posixpath.sep a) as [rest Hrest].
        destruct (Str.rstrip posixpath.sep a) as [|y r] eqn:Er.
        { apply rstrip_all_eq in Er. congruence. }
        rewrite Hp, Hrest in Habs. exact Habs.
      * rewrite Hcs. now rewrite components_rstrip.
Qed.

Lemma ancestor_components_snoc (cs : list string) (t : string) :
  ancestor_components (rev (cs ++ [t]))
  = (cs ++ [t]) :: ancestor_components (rev cs).
Proof.
  rewrite rev_app_distr. cbn [rev app ancestor_components].
  now rewrite rev_involutive.
Qed.

(** Along a rooted path [split] leads through the ancestors. *)
Lemma split_chain_spells (fuel : nat) :
  forall p, rooted p = true -> (String.length p + 1 <= fuel)%nat ->
    spells_ancestors p (split_chain fuel p).
Proof.
  induction fuel as [|fuel IH]; intros p Hp Hf; [lia|].
  cbn [split_chain].
  destruct (split_rooted p Hp)
    as [(Hall & -> & Hcs) | (h & t & Hs & Ht & Hh & Hcs)].
  - cbn [Str.is_empty]. split; [reflexivity|]. split.
    + cbn [map]. now rewrite Hcs.
    + constructor; [|constructor]. split; [exact Hp|].
      exists "". now rewrite append_nil_r.
  - rewrite Hs, Ht.
    pose proof (split_length _ _ _ Hs) as Hlen.
    destruct (split_prefix _ _ _ Hs) as [rest0 Hrest0].
    destruct (IH h Hh) as (Hhead & Hmap & Hall).
    { destruct t; [discriminate|]. simpl in Hlen. lia. }
    split; [reflexivity|]. split.
    + cbn [map]. rewrite Hmap, Hcs. symmetry.
      apply ancestor_components_snoc.
    + constructor.
      * split; [exact Hp|]. exists "". now rewrite append_nil_r.
      * eapply List.Forall_impl; [|exact Hall].
        intros d [Hd [rest Hr]]. split; [exact Hd|].
        exists (rest +:+ rest0). now rewrite <- append_assoc, <- Hr.
Qed.

End WalkFacts.

Section Walk.
Context `{W : World}.
Import StrFacts WalkFacts.

(** What one run of the loop visits, for any root. *)
Lemma discover_loop_visits (fuel : nat) :
  forall (root : string) (tail : option string)
         (out : outcome (option Repo)) (visited : list string),
    discover_loop fuel root tail = (out, visited) ->
    out <> OutOfFuel ->
    (if goes_on tail then head visited = Some root else visited = [])
    /\ (forall d, In d visited -> exists rest, root = d +:+ rest)
    /\ (length visited <= String.length root + 1)%nat
    /\ match out with
       | Ret (Some repo) =>
           exists pre d,
             visited = pre ++ [d] /\ git_Repo d = Opened repo
             /\ (forall x, In x pre ->
                   git_Repo x = InvalidGitRepositoryError)
       | Ret None =>
           forall x, In x visited -> git_Repo x = InvalidGitRepositoryError
       | Raise e =>
           e = NoSuchPathError
           /\ exists pre d,
                visited = pre ++ [d] /\ git_Repo d = NoSuchPath
                /\ (forall x, In x pre ->
                      git_Repo x = InvalidGitRepositoryError)
       | OutOfFuel => False
       end.
Proof.
  induction fuel as [|fuel IH]; intros root tail out visited;
    [intros [= <- <-]; congruence|].
  cbn [discover_loop]. destruct (goes_on tail) eqn:Hgo.
  - assert (Hself : forall d, In d [root] -> exists rest, root = d +:+ rest).
    { intros d [<-|[]]. exists "". now rewrite append_nil_r. }
    destruct (git_Repo root) as [repo| |] eqn:Hrepo.
    + intros [= <- <-] _. split; [reflexivity|]. split; [exact Hself|].
      split; [simpl; lia|].
      exists [], root. repeat split; [exact Hrepo | intros x []].
    + destruct (posixpath.split root) as [h t] eqn:Es.
      destruct (discover_loop fuel h (Some t)) as [out' visited'] eqn:E.
      intros [= <- <-] Hout.
      destruct (IH h (Some t) out' visited' E Hout)
        as (Hhead & Hpre & Hlen & Hres).
      destruct (split_prefix _ _ _ Es) as [rest0 Hroot].
      pose proof (split_length _ _ _ Es) as Hsl.
      split; [reflexivity|]. split.
      { intros d [<-|Hd]; [exists ""; now rewrite append_nil_r|].
        destruct (Hpre d Hd) as [rest Hh]. exists (rest +:+ rest0).
        now rewrite <- append_assoc, <- Hh. }
      split.
      { cbn [length]. cbn [goes_on] in Hhead.
        destruct t as [|a t]; cbn [Str.is_empty negb] in Hhead.
        - subst visited'. simpl. lia.
        - simpl in Hsl. lia. }
      destruct out' as [[repo|]|e|]; [| | |contradiction].
      * destruct Hres as (pre & d & -> & Hd & Hnone).
        exists (root :: pre), d. split; [reflexivity|]. split; [exact Hd|].
        intros x [<-|Hx]; [exact Hrepo | now apply Hnone].
      * intros x [<-|Hx]; [exact Hrepo | now apply Hres].
      * destruct Hres as (-> & pre & d & -> & Hd & Hnone).
        split; [reflexivity|].
        exists (root :: pre), d. split; [reflexivity|]. split; [exact Hd|].
        intros x [<-|Hx]; [exact Hrepo | now apply Hnone].
    + intros [= <- <-] _. split; [reflexivity|]. split; [exact Hself|].
      split; [simpl; lia|]. split; [reflexivity|].
      exists [], root. repeat split; [exact Hrepo | intros x []].
  - intros [= <- <-] _. split; [reflexivity|]. split; [intros d []|].
    split; [simpl; lia | intros x []].
Qed.

(** The loop is a walk along the directories [split] leads through. *)
Lemma discover_loop_chain (fuel : nat) :
  forall (root : string) (tail : option string),
    goes_on tail = true ->
    (String.length root + 2 <= fuel)%nat ->
    discover_loop fuel root tail
    = (first_root (split_chain fuel root),
       until_root (split_chain fuel root)).
Proof.
  induction fuel as [|fuel IH]; intros root tail Hgo Hf; [lia|].
  cbn [discover_loop split_chain first_root until_root]. rewrite Hgo.
  destruct (git_Repo root); [reflexivity| |reflexivity].
  destruct (posixpath.split root) as [h t] eqn:Es.
  pose proof (split_length _ _ _ Es) as Hlen.
  destruct t as [|a t].
  - cbn [Str.is_empty first_root until_root].
    destruct fuel as [|fuel]; [simpl in Hf; lia|]. reflexivity.
  - cbn [Str.is_empty].
    rewrite (IH h (Some (String a t))); [reflexivity | reflexivity|].
    simpl in Hlen. lia.
Qed.

(** More rounds than the path has characters do not change the
    directories [split] leads through. *)
Lemma split_chain_enough (fuel fuel' : nat) :
  forall root,
    (String.length root + 1 <= fuel)%nat ->
    (String.length root + 1 <= fuel')%nat ->
    split_chain fuel root = split_chain fuel' root.
Proof.
  revert fuel'. induction fuel as [|fuel IH]; intros fuel' root Hf Hf';
    [lia|].
  destruct fuel' as [|fuel']; [lia|]. cbn [split_chain]. f_equal.
  destruct (posixpath.split root) as [h t] eqn:Es.
  pose proof (split_length _ _ _ Es) as Hlen.
  destruct t as [|a t]; [reflexivity|]. cbn [Str.is_empty].
  simpl in Hlen. apply IH; lia.
Qed.

(** A first lookup: the loop runs, its trace is recorded, and what it
    returns is stored. *)
Lemma discover_repository_miss (p : string) (st : State) :
  repo_cache st !! p = None ->
  exists out visited,
    discover_loop (String.length p + 2) p None = (out, visited)
    /\ ((exists r, out = Ret r) \/ out = Raise NoSuchPathError)
    /\ discover_repository p st
       = (out,
          {| objs := objs st; lists := lists st;
             repo_cache :=
               match out with
               | Ret r => <[p := r]> (repo_cache st)
               | _ => repo_cache st
               end;
             probes := probes st ++ visited |}).
Proof.
  intros Hmiss.
  destruct (discover_loop_total (String.length p + 2) p None)
    as (out & visited & E & Hout); [simpl; lia|].
  exists out, visited. split; [exact E|]. split; [exact Hout|].
  unfold discover_repository. rewrite Hmiss, E.
  destruct Hout as [[r ->] | ->]; reflexivity.
Qed.

End Walk.

(** X2.  A first lookup ends in one of three ways.  It returns the
    repository [git.Repo] opened for the last directory it was tried on; or
    it returns none, after [git.Repo] raised [InvalidGitRepositoryError]
    for every directory tried; or it lets through the [NoSuchPathError]
    that [git.Repo] raised for the last directory tried.  In each case
    [git.Repo] raised [InvalidGitRepositoryError] for the directories
    tried before the last.  What is returned is stored in the table; an
    exception leaves the table as it is.  This holds for every path, in
    normal form or not. *)
Theorem discovery_returns_last_probe `{W : World} (p : string)
    (st : State) :
  repo_cache st !! p = None ->
  exists out visited st1,
    discover_repository p st = (out, st1)
    /\ probes st1 = probes st ++ visited
    /\ match out with
       | Ret (Some repo) =>
           (exists pre d,
              visited = pre ++ [d] /\ git_Repo d = Opened repo
              /\ (forall x, In x pre ->
                    git_Repo x = InvalidGitRepositoryError))
           /\ repo_cache st1 = <[p := Some repo]> (repo_cache st)
       | Ret None =>
           (forall x, In x visited ->
              git_Repo x = InvalidGitRepositoryError)
           /\ repo_cache st1 = <[p := None]> (repo_cache st)
       | Raise e =>
           e = NoSuchPathError
           /\ (exists pre d,
                 visited = pre ++ [d] /\ git_Repo d = NoSuchPath
                 /\ (forall x, In x pre ->
                       git_Repo x = InvalidGitRepositoryError))
           /\ repo_cache st1 = repo_cache st
       | OutOfFuel => False
       end.
Proof.
  intros Hmiss.
  destruct (discover_repository_miss p st Hmiss)
    as (out & visited & E & Hout & ->).
  assert (Hfuel : out <> OutOfFuel)
    by (destruct Hout as [[r ->] | ->]; discriminate).
  destruct (discover_loop_visits _ _ _ _ _ E Hfuel) as (_ & _ & _ & Hres).
  eexists out, visited, _. split; [reflexivity|]. split; [reflexivity|].
  cbn [repo_cache].
  destruct out as [[repo|]|e|]; [| | |contradiction].
  - now split.
  - now split.
  - destruct Hres as [-> Hres]. now repeat split.
Qed.

(** X3.  A first lookup tries the path itself first, tries only prefixes
    of the path, and tries at most one directory more than the path has
    characters, whether it returns or lets an exception of [git.Repo]
    through. *)
Theorem discovery_stays_on_path `{W : World} (p : string) (st : State) :
  repo_cache st !! p = None ->
  exists out visited st1,
    discover_repository p st = (out, st1)
    /\ ((exists r, out = Ret r) \/ out = Raise NoSuchPathError)
    /\ probes st1 = probes st ++ visited
    /\ head visited = Some p
    /\ (forall d, In d visited -> exists rest, p = d +:+ rest)
    /\ (length visited <= String.length p + 1)%nat.
Proof.
  intros Hmiss.
  destruct (discover_repository_miss p st Hmiss)
    as (out & visited & E & Hout & ->).
  assert (Hfuel : out <> OutOfFuel)
    by (destruct Hout as [[r ->] | ->]; discriminate).
  destruct (discover_loop_visits _ _ _ _ _ E Hfuel)
    as (Hhead & Hpre & Hlen & _).
  eexists out, visited, _. split; [reflexivity|]. split; [exact Hout|].
  split; [reflexivity|].
  split; [exact Hhead|]. split; [exact Hpre | exact Hlen].
Qed.

(** X4.  The table of lookups is never invalidated: once a path has been
    looked up, the same answer is given for it from then on, also when the
    directories have changed in the meantime (another world), and also when
    the answer was none. *)
Theorem lookup_outlives_world (W1 W2 : World) (p : string)
    (st st1 : State) (r : option Repo) :
  discover_repository (W := W1) p st = (Ret r, st1) ->
  forall qs, exists st2,
    lookups (W := W2) qs st1 = (Ret tt, st2)
    /\ discover_repository (W := W2) p st2 = (Ret r, st2).
Proof.
  intros E qs.
  destruct (discover_repository_spec (W := W1) p st)
    as (out & st1' & E' & Hout & _).
  rewrite E in E'. inversion E'; subst out st1'.
  destruct Hout as [(r' & [= <-] & Hc) | [[=] _]].
  destruct (lookups_keep (W := W2) qs st1) as (st2 & E2 & Hkeep).
  exists st2. split; [exact E2|].
  apply discover_repository_hit, Hkeep, Hc.
Qed.

(** C9 (as amended).  A lookup ends for every path and state: it returns,
    or it lets through the [NoSuchPathError] of [git.Repo].  For a rooted
    path (absolute, not ending in the separator unless it is the root;
    separators may be doubled) that is looked up for the first time, the
    loop walks the ancestor directories upward, the path itself first
    (for a path in normal form these are the strings of [ancestors]):
    it stops at the first one that is a repository, which it returns, or at
    the first one that does not exist, with the exception, or past the
    filesystem root, returning none.  A result that is returned is stored:
    after any further lookups the same path is answered with the same result
    and the state is left as it is, so no directory is visited again.  A
    lookup that ends with the exception stores nothing. *)
Theorem discover_repository_walk_cached `{W : World} (p : string)
    (st : State) :
  exists out st1,
    discover_repository p st = (out, st1)
    /\ ((exists r, out = Ret r) \/ out = Raise NoSuchPathError)
    /\ (rooted p = true -> repo_cache st !! p = None ->
        exists dirs,
          spells_ancestors p dirs
          /\ (normalized p -> dirs = ancestors p)
          /\ out = first_root dirs
          /\ probes st1 = probes st ++ until_root dirs)
    /\ (forall r, out = Ret r ->
        forall qs, exists st2,
          lookups qs st1 = (Ret tt, st2)
          /\ discover_repository p st2 = (Ret r, st2))
    /\ (out = Raise NoSuchPathError -> repo_cache st1 = repo_cache st).
Proof.
  destruct (discover_repository_spec p st)
    as (out & st1 & E & Hout & _).
  exists out, st1. split; [exact E|].
  split; [destruct Hout as [(r & -> & _) | [-> _]]; eauto|].
  split; [|split].
  - intros Hp Hmiss.
    exists (split_chain (String.length p + 2) p).
    split; [apply WalkFacts.split_chain_spells; [exact Hp | lia]|].
    split; [apply PathFacts.split_chain_normalized|].
    unfold discover_repository in E. rewrite Hmiss in E.
    rewrite (discover_loop_chain _ p None eq_refl (le_n _)) in E.
    destruct (first_root (split_chain (String.length p + 2) p));
      inversion E; subst; [now split | now split |].
    now destruct Hout as [(r & [=] & _) | [[=] _]].
  - intros r ->. destruct Hout as [(r' & [= <-] & Hc) | [[=] _]].
    intros qs. destruct (lookups_keep qs st1) as (st2 & E2 & Hkeep).
    exists st2. split; [exact E2|].
    apply discover_repository_hit, Hkeep, Hc.
  - intros ->. now destruct Hout as [(r & [=] & _) | [_ Hc]].
Qed.

(** The first lookup of [/repo//content] at the example, a path with a
    doubled separator, visits it and then [/repo], the repository. *)
Lemma discover_repository_walk_cached_witness :
  rooted "/repo//content" = true
  /\ repo_cache (ex_state ex_live) !! "/repo//content" = None
  /\ exists out st1,
       discover_repository (W := ex_world []) "/repo//content"
         (ex_state ex_live) = (out, st1)
       /\ probes st1 = ["/repo//content"; "/repo"]
       /\ exists dirs,
            spells_ancestors "/repo//content" dirs
            /\ out = first_root (W := ex_world []) dirs
            /\ probes st1 = until_root (W := ex_world []) dirs.
Proof.
  split; [reflexivity|]. split; [reflexivity|].
  destruct (discover_repository_walk_cached (W := ex_world [])
              "/repo//content" (ex_state ex_live))
    as (out & st1 & E & _ & H & _).
  exists out, st1. split; [exact E|].
  split; [vm_compute in E; inversion E; reflexivity|].
  destruct (H eq_refl eq_refl) as (dirs & Hs & _ & Ho & Hp).
  exists dirs. split; [exact Hs|]. split; [exact Ho | exact Hp].
Defined.

(** C9 as stated fails for an input path that ends in a separator: the
    loop is left after the first round, and the enclosing repository at
    [/repo] is not found.  It fails as well where a directory does not
    exist: the lookup ends with [NoSuchPathError], nothing is stored, and
    the next lookup of the path probes the directory again. *)
Lemma discover_repository_stops_short :
  let run := discover_repository (W := ex_world []) "/repo/sub/"
               (ex_state ex_live) in
  let gone := discover_repository (W := ex_world []) "/gone/sub"
                (ex_state ex_live) in
  fst run = Ret None
  /\ probes (snd run) = ["/repo/sub/"]
  /\ first_root (W := ex_world []) (ancestors "/repo/sub/") <> Ret None
  /\ fst gone = Raise NoSuchPathError
  /\ repo_cache (snd gone) !! "/gone/sub" = None
  /\ probes (snd (discover_repository (W := ex_world []) "/gone/sub"
                    (snd gone)))
     = ["/gone/sub"; "/gone/sub"].
Proof.
  cbv zeta.
  split; [vm_compute; reflexivity|].
  split; [vm_compute; reflexivity|].
  split; [vm_compute; discriminate|].
  split; [vm_compute; reflexivity|].
  split; vm_compute; reflexivity.
Qed.

Lemma discovery_returns_last_probe_witness :
  exists out visited st1,
    discover_repository (W := ex_world []) "/repo/content"
      (ex_state ex_live) = (out, st1)
    /\ probes st1 = visited
    /\ out <> Ret None.
Proof.
  destruct (discovery_returns_last_probe (W := ex_world []) "/repo/content"
              (ex_state ex_live) eq_refl)
    as (out & visited & st1 & E & Hp & Hr).
  exists out, visited, st1. split; [exact E|]. split; [exact Hp|].
  vm_compute in E. inversion E. discriminate.
Defined.

Lemma discovery_stays_on_path_witness :
  exists out visited st1,
    discover_repository (W := ex_world []) "x/sub/" (ex_state ex_live)
    = (out, st1)
    /\ head visited = Some "x/sub/"
    /\ (length visited <= 7)%nat.
Proof.
  destruct (discovery_stays_on_path (W := ex_world []) "x/sub/"
              (ex_state ex_live) eq_refl)
    as (out & visited & st1 & E & _ & _ & Hh & _ & Hl).
  exists out, visited, st1. split; [exact E|].
  split; [exact Hh | exact Hl].
Defined.

Lemma lookup_outlives_world_witness :
  exists st2,
    lookups (W := ex_world ex_log) ["/repo"; "/gone"]
      (snd (discover_repository (W := ex_world []) "/tmp/x"
              (ex_state ex_live))) = (Ret tt, st2)
    /\ discover_repository (W := ex_world ex_log) "/tmp/x" st2
       = (Ret None, st2).
Proof.
  apply (lookup_outlives_world (ex_world []) (ex_world ex_log) "/tmp/x"
           (ex_state ex_live) _ None).
  vm_compute. reflexivity.
Defined.

(** ** What a chain build leaves alone, and what the revisions inherit *)

Section Frame.
Context `{W : World}.

Lemma for_each_app {A} (xs ys : list A) (body : A -> M unit) (st : State) :
  for_each (xs ++ ys) body st
  = (for_each xs body ;;; for_each ys body) st.
Proof.
  revert st. induction xs as [|x xs IH]; intros st; cbn [app for_each].
  - reflexivity.
  - specialize (IH). unfold bind in *.
    destruct (body x st) as [[[]| |] st1];
      [apply IH | reflexivity | reflexivity].
Qed.

(** The exception of a commit that cannot be materialized: [KeyError]
    when the tree lacks the file, the reader's error otherwise. *)
Lemma materialize_raises (content : ref) (rl : lref) (st : State)
    (live : Content) (repository : Repo) (c : Commit) :
  objs st !! content = Some live ->
  parse_commit live repository c = None ->
  materialize content
    (make_repository_file_path repository (source_path live)) rl c st
  = (Raise (if hasattr
                 (tree c !! make_repository_file_path repository
                              (source_path live))
            then ReaderError else KeyError), st).
Proof.
  intros Hc Hp. unfold materialize, parse_commit in *.
  destruct (tree c !! make_repository_file_path repository (source_path live))
    as [blob|]; cbn [hasattr].
  - unfold of_option at 1. rewrite (bind_Ret _ _ st st blob) by reflexivity.
    rewrite (bind_Ret _ _ _ _ _ (get_obj_Some _ _ _ Hc)).
    rewrite Hp. reflexivity.
  - reflexivity.
Qed.

End Frame.

(** X5.  Building a chain leaves the rest of the store alone: every
    object other than the live document is as it was, every list that
    existed is as it was, exactly one list and one object per commit are
    added, and the live document differs from what it was only in its
    dates, their renderings and [git]. *)
Theorem chain_build_frame `{W : World} (fuel : nat) (content : ref)
    (live : Content) (repository : Repo) (commits : list Commit)
    (st : State) :
  tracked content live repository commits st ->
  forallb (materializable live repository) commits = true ->
  exists st' o,
    on_content_object_init (S (S fuel)) content st = (Ret tt, st')
    /\ length (objs st') = (length (objs st) + length commits)%nat
    /\ length (lists st') = S (length (lists st))
    /\ (forall l revs, lists st !! l = Some revs ->
          lists st' !! l = Some revs)
    /\ (forall r x, r <> content -> objs st !! r = Some x ->
          objs st' !! r = Some x)
    /\ objs st' !! content = Some o
    /\ undated o = undated live.
Proof.
  intros [Hc Hs Hg Hloc Hh Hne] Hmat. subst commits.
  destruct (build_spec fuel content st live repository Hc Hs Hg Hloc Hne Hmat)
    as (st' & E & B).
  destruct (history repository (source_path live))
    as [|first_commit rest] eqn:Ecs; [congruence|].
  destruct (last (first_commit :: rest)) as [latest_commit|] eqn:Elast;
    [|now apply last_None in Elast].
  pose proof (built_live _ _ _ _ _ B first_commit latest_commit) as Hlive.
  cbv zeta in Hlive. rewrite Ecs in Hlive.
  specialize (Hlive eq_refl Elast).
  eexists st', _. split; [exact E|].
  split; [rewrite (built_size _ _ _ _ _ B), Ecs; reflexivity|].
  split; [rewrite (built_lists _ _ _ _ _ B), length_app; simpl; lia|].
  split.
  { intros l revs Hl. rewrite (built_lists _ _ _ _ _ B).
    now apply lookup_app_l_Some. }
  split.
  { intros r x Hr Hx. rewrite (built_old _ _ _ _ _ B r); [exact Hx| |exact Hr].
    eapply lookup_lt_Some; eauto. }
  split; [exact Hlive|].
  rewrite undated_set_git. apply undated_inferred.
Qed.

(** X6.  Every revision is an object of the live document's class, read
    with its settings and its context, and carries the live document's
    [source_path], not the path of the temporary file it was read from;
    its [git] tuple and the live document's hold the same tracked path. *)
Theorem revisions_take_live_identity `{W : World} (fuel : nat)
    (content : ref) (live : Content) (repository : Repo)
    (commits : list Commit) (st : State) :
  tracked content live repository commits st ->
  forallb (materializable live repository) commits = true ->
  exists st' o g,
    on_content_object_init (S (S fuel)) content st = (Ret tt, st')
    /\ objs st' !! content = Some o
    /\ git o = Some g
    /\ file_path g = make_repository_file_path repository (source_path live)
    /\ (forall i c, commits !! i = Some c ->
          exists x gx,
            objs st' !! (length (objs st) + i)%nat = Some x
            /\ source_path x = source_path live
            /\ cls x = cls live
            /\ settings x = settings live
            /\ context_ x = context_ live
            /\ git x = Some gx
            /\ file_path gx = file_path g).
Proof.
  intros [Hc Hs Hg Hloc Hh Hne] Hmat. subst commits.
  destruct (build_spec fuel content st live repository Hc Hs Hg Hloc Hne Hmat)
    as (st' & E & B).
  destruct (history repository (source_path live))
    as [|first_commit rest] eqn:Ecs; [congruence|].
  destruct (last (first_commit :: rest)) as [latest_commit|] eqn:Elast;
    [|now apply last_None in Elast].
  pose proof (built_live _ _ _ _ _ B first_commit latest_commit) as Hlive.
  cbv zeta in Hlive. rewrite Ecs in Hlive.
  specialize (Hlive eq_refl Elast).
  eexists st', _, _. split; [exact E|]. split; [exact Hlive|].
  split; [reflexivity|]. split; [reflexivity|].
  intros i c Hi.
  pose proof (built_revisions _ _ _ _ _ B i c) as Hrev.
  cbv zeta in Hrev. rewrite Ecs in Hrev.
  destruct (Hrev Hi) as (x & parsed & Hx & _ & Hu & Hgx).
  eexists x, _. split; [exact Hx|].
  split; [change (source_path (undated x) = source_path live);
          now rewrite Hu|].
  split; [change (cls (undated x) = cls live); now rewrite Hu|].
  split; [change (settings (undated x) = settings live); now rewrite Hu|].
  split; [change (context_ (undated x) = context_ live); now rewrite Hu|].
  split; [exact Hgx | reflexivity].
Qed.

(** The hook on a history whose commits before [c] can be materialized
    and whose commit [c] cannot. *)
Lemma first_failure_spec `{W : World} (fuel : nat)
    (content : ref) (live : Content) (repository : Repo)
    (pre post : list Commit) (c : Commit) (st : State) :
  objs st !! content = Some live ->
  is_Static (cls live) = false ->
  git live = None ->
  located st (posixpath.dirname (source_path live)) = Some repository ->
  history repository (source_path live) = pre ++ c :: post ->
  forallb (materializable live repository) pre = true ->
  parse_commit live repository c = None ->
  exists st' o,
    on_content_object_init (S fuel) content st
    = (Raise (if hasattr
                   (tree c !! make_repository_file_path repository
                                (source_path live))
              then ReaderError else KeyError), st')
    /\ objs st' !! content = Some o
    /\ git o = None
    /\ undated o = undated live
    /\ (forall first_commit latest_commit,
          (pre ++ c :: post) !! 0%nat = Some first_commit ->
          last (pre ++ c :: post) = Some latest_commit ->
          o = inferred first_commit latest_commit live)
    /\ length (objs st') = (length (objs st) + length pre)%nat
    /\ lists st' = lists st ++ [seq (length (objs st)) (length pre)]
    /\ (forall r x, r <> content -> objs st !! r = Some x ->
          objs st' !! r = Some x)
    /\ (forall i ci, pre !! i = Some ci ->
          exists x parsed,
            objs st' !! (length (objs st) + i)%nat = Some x
            /\ parse_commit live repository ci = Some parsed
            /\ x = materialized live ci parsed
            /\ git x = None).
Proof.
  intros Hc Hs Hg Hloc Hh Hpre Hfail.
  destruct (pre ++ c :: post) as [|first_commit rest] eqn:Ecs;
    [now destruct pre|].
  destruct (hook_fresh fuel content st live repository first_commit rest
              Hc Hs Hg Hloc Hh) as (st2 & E & O2 & L2 & C2).
  set (latest_commit := List.last (first_commit :: rest) first_commit) in *.
  destruct (inferred_identity first_commit latest_commit live)
    as (Isrc & Icls & Iparse & Imat).
  destruct (undated_inferred first_commit latest_commit live) as [Iu Ig].
  remember (inferred first_commit latest_commit live) as live1 eqn:Elive1.
  assert (Hlt : (content < length (objs st))%nat)
    by (eapply lookup_lt_Some; eauto).
  assert (Hc2 : objs st2 !! content = Some live1).
  { rewrite O2. now apply list_lookup_insert_eq. }
  assert (Hn : length (objs st2) = length (objs st))
    by now rewrite O2, length_insert.
  rewrite E, <- Ecs. unfold build_chain.
  rewrite (bind_Ret _ _ st2
             (with_lists (fun ls => ls ++ [[]]) st2) (length (lists st2)))
    by reflexivity.
  remember (with_lists (fun ls => ls ++ [[]]) st2) as st3 eqn:E3.
  assert (O3 : objs st3 = objs st2) by now subst st3.
  assert (Hc3 : objs st3 !! content = Some live1) by now rewrite O3.
  assert (Hl3 : lists st3 !! length (lists st2) = Some []).
  { subst st3. cbn [lists with_lists]. apply list_lookup_middle.
    reflexivity. }
  assert (Hpre1 : forallb (materializable live1 repository) pre = true).
  { rewrite <- Hpre. apply forallb_eq. intros x.
    unfold materializable. now rewrite Iparse. }
  rewrite <- Isrc.
  destruct (materialize_loop content (length (lists st2)) live1 repository
              pre st3 [] Hc3 Hl3 Hpre1) as (news & E4 & Hnews).
  cbn [app] in E4.
  remember {| objs := objs st3 ++ news;
              lists := <[length (lists st2) :=
                           seq (length (objs st3)) (length pre)]> (lists st3);
              repo_cache := repo_cache st3; probes := probes st3 |}
    as st4 eqn:E4'.
  assert (Hc4 : objs st4 !! content = Some live1).
  { subst st4. cbn [objs]. now apply lookup_app_l_Some. }
  assert (Hfail1 : parse_commit live1 repository c = None)
    by now rewrite Iparse.
  rewrite (bind_Raise _ _ st3 st4
             (if hasattr
                   (tree c !! make_repository_file_path repository
                                (source_path live1))
              then ReaderError else KeyError)).
  2:{ rewrite for_each_app. rewrite (bind_Ret _ _ _ _ _ E4).
      cbn [for_each].
      apply bind_Raise.
      apply (materialize_raises content _ st4 live1 repository c Hc4 Hfail1). }
  assert (Hlen : length pre = length news)
    by (eapply Forall2_length; eauto).
  exists st4, live1. split; [reflexivity|].
  split; [exact Hc4|]. split; [now rewrite Ig|]. split; [exact Iu|].
  split.
  { intros fc lc Hfc Hlast. rewrite Ecs in Hfc, Hlast.
    change (Some first_commit = Some fc) in Hfc.
    assert (fc = first_commit) as -> by congruence.
    rewrite Elive1. unfold latest_commit.
    now rewrite (last_List_last _ first_commit _ Hlast). }
  subst st4. cbn [objs lists]. rewrite O3, Hn.
  split; [rewrite length_app, Hn; lia|].
  split.
  { subst st3. cbn [lists with_lists]. rewrite L2.
    replace (length (lists st)) with (length (lists st) + 0)%nat at 1 by lia.
    now rewrite insert_app_r. }
  split.
  { intros r x Hr Hx. rewrite O2.
    apply lookup_app_l_Some.
    now rewrite list_lookup_insert_ne by congruence. }
  intros i ci Hi.
  destruct (Forall2_lookup_l _ _ _ _ _ Hnews Hi)
    as (x & Hx & parsed & Hp & ->).
  exists (materialized live1 ci parsed), parsed.
  split.
  { rewrite <- Hn, lookup_app_r by lia.
    now replace (length (objs st2) + i - length (objs st2))%nat
      with i by lia. }
  split; [now rewrite <- Iparse|].
  split; [apply Imat | reflexivity].
Qed.

(** X7.  The first commit of the history that cannot be materialized ends
    the hook with an exception: [KeyError] when its tree lacks the file,
    the reader's error otherwise.  By then the live document is the one
    [inferred] yields, with the dates inferred from the first and the
    latest commit of the history, but without a [git] attribute; the
    revisions of the commits before the failing one stay in the store, in a
    list of their own, without a [git] attribute; the later commits are
    never read, and the older objects and lists are as they were. *)
Theorem materialization_stops_at_first_failure `{W : World} (fuel : nat)
    (content : ref) (live : Content) (repository : Repo)
    (pre post : list Commit) (c : Commit) (st : State) :
  tracked content live repository (pre ++ c :: post) st ->
  forallb (materializable live repository) pre = true ->
  parse_commit live repository c = None ->
  exists st' o,
    on_content_object_init (S fuel) content st
    = (Raise (if hasattr
                   (tree c !! make_repository_file_path repository
                                (source_path live))
              then ReaderError else KeyError), st')
    /\ objs st' !! content = Some o
    /\ git o = None
    /\ undated o = undated live
    /\ (forall first_commit latest_commit,
          (pre ++ c :: post) !! 0%nat = Some first_commit ->
          last (pre ++ c :: post) = Some latest_commit ->
          o = inferred first_commit latest_commit live)
    /\ length (objs st') = (length (objs st) + length pre)%nat
    /\ lists st' = lists st ++ [seq (length (objs st)) (length pre)]
    /\ (forall r x, r <> content -> objs st !! r = Some x ->
          objs st' !! r = Some x)
    /\ (forall i ci, pre !! i = Some ci ->
          exists x parsed,
            objs st' !! (length (objs st) + i)%nat = Some x
            /\ parse_commit live repository ci = Some parsed
            /\ x = materialized live ci parsed
            /\ git x = None).
Proof.
  intros [Hc Hs Hg Hloc Hh Hne] Hpre Hfail.
  destruct (first_failure_spec fuel content live repository pre post c st
              Hc Hs Hg Hloc Hh Hpre Hfail) as (st' & o & H).
  now exists st', o.
Qed.

Lemma chain_build_frame_witness :
  exists st' o,
    on_content_object_init (W := ex_world ex_log) 2 0%nat (ex_state ex_live)
    = (Ret tt, st')
    /\ length (objs st') = 4%nat
    /\ length (lists st') = 1%nat
    /\ objs st' !! 0%nat = Some o
    /\ undated o = undated ex_live.
Proof.
  destruct (chain_build_frame (W := ex_world ex_log) 0 0%nat ex_live
              (ex_repo ex_log) [ex_c1; ex_c2; ex_c3] (ex_state ex_live))
    as (st' & o & E & Hn & Hl & _ & _ & Ho & Hu);
    [example_tracked | vm_compute; reflexivity |].
  exists st', o. split; [exact E|]. split; [exact Hn|].
  split; [exact Hl|]. split; [exact Ho | exact Hu].
Defined.

Lemma revisions_take_live_identity_witness :
  exists st' x,
    on_content_object_init (W := ex_world ex_log) 2 0%nat (ex_state ex_live)
    = (Ret tt, st')
    /\ objs st' !! 2%nat = Some x
    /\ source_path x = "/repo/content/post.md"
    /\ cls x = Article.
Proof.
  destruct (revisions_take_live_identity (W := ex_world ex_log) 0 0%nat
              ex_live (ex_repo ex_log) [ex_c1; ex_c2; ex_c3]
              (ex_state ex_live))
    as (st' & o & g & E & _ & _ & _ & H);
    [example_tracked | vm_compute; reflexivity |].
  destruct (H 1%nat ex_c2 eq_refl) as (x & gx & Hx & Hsrc & Hcls & _).
  exists st', x. split; [exact E|]. split; [exact Hx|].
  split; [exact Hsrc | exact Hcls].
Defined.

(** A history whose second commit lacks the file: the hook raises
    [KeyError] and leaves the revision of the first commit behind. *)
Lemma materialization_stops_at_first_failure_witness :
  exists st' o,
    on_content_object_init (W := ex_world [ex_c3; ex_gone; ex_c1]) 1 0%nat
      (ex_state ex_live)
    = (Raise KeyError, st')
    /\ objs st' !! 0%nat = Some o
    /\ git o = None
    /\ date o = Some (fromtimestamp 100)
    /\ modified o = Some (fromtimestamp 300)
    /\ length (objs st') = 2%nat
    /\ lists st' = [[1%nat]].
Proof.
  destruct (materialization_stops_at_first_failure
              (W := ex_world [ex_c3; ex_gone; ex_c1]) 0 0%nat ex_live
              (ex_repo [ex_c3; ex_gone; ex_c1]) [ex_c1] [ex_c3] ex_gone
              (ex_state ex_live))
    as (st' & o & E & Ho & Hg & _ & Hd & Hn & Hl & _);
    [example_tracked | vm_compute; reflexivity | vm_compute; reflexivity |].
  exists st', o. split; [exact E|]. split; [exact Ho|].
  split; [exact Hg|].
  rewrite (Hd ex_c1 ex_c3 eq_refl eq_refl).
  split; [reflexivity|]. split; [reflexivity|].
  split; [exact Hn | exact Hl].
Defined.

(** ** Publishing the revisions *)

Section Publishing.
Context `{H : Host}.
Variables (content_type : string) (generator : Generator) (st : State).

(** The revision at [r] can be written: the store holds it, its template
    is found and the writer accepts the call. *)
Let writable (r : ref) : Prop :=
  exists x t,
    objs st !! r = Some x
    /\ get_template (template_of r) = Some t
    /\ write_file (write_kwargs content_type generator r (save_as x) t)
       = true.

(** [kw] is the call made for the revision at [r]. *)
Let call_for (r : ref) (kw : gmap string kwarg) : Prop :=
  exists x t,
    objs st !! r = Some x
    /\ get_template (template_of r) = Some t
    /\ kw = write_kwargs content_type generator r (save_as x) t.

Lemma write_revisions_ok (revs : list ref) :
  forall out,
    Forall writable revs ->
    exists calls,
      write_revisions content_type generator st revs out
      = (None, out ++ calls)
      /\ Forall2 call_for revs calls.
Proof.
  induction revs as [|r revs IH]; intros out Hok.
  - exists []. split; [cbn; now rewrite app_nil_r | constructor].
  - apply Forall_cons in Hok as [(x & t & Hx & Ht & Hw) Hok].
    cbn [write_revisions]. rewrite Hx, Ht, Hw.
    destruct (IH (out ++ [write_kwargs content_type generator r (save_as x) t])
                Hok) as (calls & E & Hcalls).
    exists (write_kwargs content_type generator r (save_as x) t :: calls).
    split.
    + rewrite E. now rewrite <- app_assoc.
    + constructor; [|exact Hcalls]. exists x, t. now repeat split.
Qed.

Lemma write_revisions_app (pre post : list ref) :
  forall out,
    write_revisions content_type generator st (pre ++ post) out
    = match write_revisions content_type generator st pre out with
      | (None, out') =>
          write_revisions content_type generator st post out'
      | failed => failed
      end.
Proof.
  induction pre as [|r pre IH]; intros out; [reflexivity|].
  cbn [app write_revisions].
  destruct (objs st !! r) as [x|]; [|reflexivity].
  destruct (get_template (template_of r)) as [t|]; [|reflexivity].
  destruct (write_file _); [apply IH | reflexivity].
Qed.

Lemma write_contents_ok (contents : list ref) :
  forall out,
    Forall (fun content =>
              exists c, objs st !! content = Some c
                /\ forall g, git c = Some g ->
                     is_Some (lists st !! revisions g)) contents ->
    Forall writable (concat (map (revisions_of st) contents)) ->
    exists calls,
      write_contents content_type generator st contents out
      = (None, out ++ calls)
      /\ Forall2 call_for (concat (map (revisions_of st) contents)) calls.
Proof.
  induction contents as [|content contents IH]; intros out Hc Hok.
  - exists []. split; [cbn; now rewrite app_nil_r | constructor].
  - apply Forall_cons in Hc as [(c & Hc & Hl) Hcs].
    cbn [map concat] in Hok |- *. apply Forall_app in Hok as [Hok1 Hok2].
    cbn [write_contents]. unfold revisions_of at 1 in Hok1.
    unfold revisions_of at 1. rewrite Hc in *.
    destruct (git c) as [g|].
    + destruct (Hl g eq_refl) as [revs Hrevs]. rewrite Hrevs in *.
      cbn [default] in *.
      destruct (write_revisions_ok revs out Hok1) as (calls1 & E1 & H1).
      rewrite E1.
      destruct (IH (out ++ calls1) Hcs Hok2) as (calls2 & E2 & H2).
      exists (calls1 ++ calls2). split.
      * rewrite E2. now rewrite <- app_assoc.
      * now apply Forall2_app.
    + exact (IH out Hcs Hok2).
Qed.

Lemma write_revisions_fails (pre post : list ref) (r : ref) (x : Content)
    (out : list (gmap string kwarg)) :
  Forall writable pre ->
  objs st !! r = Some x ->
  (forall t, get_template (template_of r) = Some t ->
     write_file (write_kwargs content_type generator r (save_as x) t)
     = false) ->
  exists calls,
    write_revisions content_type generator st (pre ++ r :: post) out
    = (Some (if hasattr (get_template (template_of r))
             then WriteError else TemplateNotFound), out ++ calls)
    /\ Forall2 call_for pre calls.
Proof.
  intros Hpre Hx Hbad.
  destruct (write_revisions_ok pre out Hpre) as (calls & E & Hcalls).
  exists calls. split; [|exact Hcalls].
  rewrite write_revisions_app, E. cbn [write_revisions]. rewrite Hx.
  destruct (get_template (template_of r)) as [t|]; [|reflexivity].
  now rewrite (Hbad t eq_refl).
Qed.

End Publishing.

(** X8.  On the writer's signal every revision of every chained document
    of the list is written once, in the order of the documents and, for
    one document, in the order of its list of revisions; a document
    without [git] is passed over.  The call for a revision has the
    revision's own [save_as] as its name.  This holds when the writer
    accepts every call and every template is found. *)
Theorem publishing_writes_every_revision `{H : Host}
    (content_type : string) (generator : Generator) (st : State)
    (out : list (gmap string kwarg)) :
  let contents :=
    if String.eqb content_type "article" then articles generator
    else pages generator in
  (forall content, In content contents ->
     exists c, objs st !! content = Some c
       /\ forall g, git c = Some g -> is_Some (lists st !! revisions g)) ->
  (forall r, In r (concat (map (revisions_of st) contents)) ->
     exists x t,
       objs st !! r = Some x
       /\ get_template (template_of r) = Some t
       /\ write_file (write_kwargs content_type generator r (save_as x) t)
          = true) ->
  exists calls,
    on_content_writer_finalized content_type generator st out
    = (None, out ++ calls)
    /\ Forall2 (fun r kw =>
                  exists x t,
                    objs st !! r = Some x
                    /\ get_template (template_of r) = Some t
                    /\ kw = write_kwargs content_type generator r
                              (save_as x) t)
         (concat (map (revisions_of st) contents)) calls.
Proof.
  cbv zeta. intros Hc Hok. unfold on_content_writer_finalized.
  apply write_contents_ok.
  - apply List.Forall_forall. exact Hc.
  - apply List.Forall_forall. exact Hok.
Qed.

(** X9.  The first revision whose template is not found or whose call the
    writer refuses ends the publishing with that exception: the calls made
    before stay made, the later revisions of the document and all later
    documents are not written. *)
Theorem publishing_stops_at_first_failure `{H : Host}
    (content_type : string) (generator : Generator) (st : State)
    (content : ref) (later : list ref) (c x : Content) (g : git_class)
    (pre post : list ref) (r : ref) (out : list (gmap string kwarg)) :
  objs st !! content = Some c ->
  git c = Some g ->
  lists st !! revisions g = Some (pre ++ r :: post) ->
  (forall p, In p pre ->
     exists y t,
       objs st !! p = Some y
       /\ get_template (template_of p) = Some t
       /\ write_file (write_kwargs content_type generator p (save_as y) t)
          = true) ->
  objs st !! r = Some x ->
  (forall t, get_template (template_of r) = Some t ->
     write_file (write_kwargs content_type generator r (save_as x) t)
     = false) ->
  exists calls,
    write_contents content_type generator st (content :: later) out
    = (Some (if hasattr (get_template (template_of r))
             then WriteError else TemplateNotFound), out ++ calls)
    /\ Forall2 (fun p kw =>
                  exists y t,
                    objs st !! p = Some y
                    /\ get_template (template_of p) = Some t
                    /\ kw = write_kwargs content_type generator p
                              (save_as y) t) pre calls.
Proof.
  intros Hc Hg Hl Hpre Hx Hbad.
  destruct (write_revisions_fails content_type generator st pre post r x out)
    as (calls & E & Hcalls);
    [apply List.Forall_forall; exact Hpre | exact Hx | exact Hbad |].
  exists calls. split; [|exact Hcalls].
  cbn [write_contents]. rewrite Hc, Hg, Hl, E. reflexivity.
Qed.

Section PublishingChain.
Context `{W : World} `{H : Host}.

(** The keyword arguments of a call for articles or pages. *)
Lemma write_kwargs_lookup (content_type : string) (generator : Generator)
    (revision : ref) (name template : string) :
  content_type = "article" \/ content_type = "page" ->
  let kw := write_kwargs content_type generator revision name template in
  kw !! "name" = Some (KStr name)
  /\ kw !! "template" = Some (KTemplate template)
  /\ kw !! content_type = Some (KContent revision)
  /\ kw !! "category" = Some (KStr (category_of revision))
  /\ kw !! "context" = Some (KContext (generator_context generator))
  /\ kw !! "relative_urls" = Some (KBool (RELATIVE_URLS generator)).
Proof.
  intros [-> | ->]; cbv zeta; unfold write_kwargs;
    repeat split; vm_compute; reflexivity.
Qed.

(** The list the publisher reads off a live document after its chain has
    been built. *)
Lemma built_revisions_of (content : ref) (live : Content)
    (repository : Repo) (st st' : State) :
  objs st !! content = Some live ->
  history repository (source_path live) <> [] ->
  built content live repository st st' ->
  revisions_of st' content
  = seq (length (objs st)) (length (history repository (source_path live))).
Proof.
  intros Hc Hne B.
  destruct (history repository (source_path live))
    as [|first_commit rest] eqn:Ecs; [congruence|].
  destruct (last (first_commit :: rest)) as [latest_commit|] eqn:Elast;
    [|now apply last_None in Elast].
  pose proof (built_live _ _ _ _ _ B first_commit latest_commit) as Hlive.
  cbv zeta in Hlive. rewrite Ecs in Hlive.
  specialize (Hlive eq_refl Elast).
  unfold revisions_of. rewrite Hlive. cbn [git set_git revisions].
  rewrite (built_lists _ _ _ _ _ B), Ecs.
  now rewrite list_lookup_middle by reflexivity.
Qed.

End PublishingChain.

(** X10.  Hook and publisher together, under three assumptions on the
    host: the generator lists this one document and no other as its
    articles (or as its pages), [get_template] finds every template, and
    the writer's [write_file] accepts every call.  Then, for a fresh
    document whose tracked history is not empty and whose commits can all
    be materialized, the hook returns, and the writer's signal for
    articles (or for pages) that follows returns after exactly one call of
    [write_file] per commit of the history, oldest commit first; the call
    for a commit has the path computed for it from the live document and
    the commit's hash as its [name], the commit's revision as its article
    (or page), and the generator's context and ['RELATIVE_URLS'] setting.
    No call writes the live document itself. *)
Theorem built_revisions_published `{W : World} `{H : Host} (fuel : nat)
    (content : ref) (live : Content) (repository : Repo)
    (commits : list Commit) (st : State) (generator : Generator)
    (content_type : string) :
  tracked content live repository commits st ->
  forallb (materializable live repository) commits = true ->
  content_type = "article" /\ articles generator = [content]
  \/ content_type = "page" /\ pages generator = [content] ->
  (forall t, is_Some (get_template t)) ->
  (forall kw, write_file kw = true) ->
  exists st' calls,
    on_content_object_init (S (S fuel)) content st = (Ret tt, st')
    /\ (if String.eqb content_type "article"
        then on_article_writer_finalized generator st' []
        else on_page_writer_finalized generator st' []) = (None, calls)
    /\ length calls = length commits
    /\ (forall i c, commits !! i = Some c ->
          exists kw,
            calls !! i = Some kw
            /\ kw !! "name" = Some (KStr (revision_save_as live c))
            /\ kw !! content_type
               = Some (KContent (length (objs st) + i)%nat)
            /\ kw !! "context"
               = Some (KContext (generator_context generator))
            /\ kw !! "relative_urls"
               = Some (KBool (RELATIVE_URLS generator))).
Proof.
  intros [Hc Hs Hg Hloc Hh Hne] Hmat Hlisted Htemplates Hwrites.
  subst commits.
  destruct (build_spec fuel content st live repository Hc Hs Hg Hloc Hne Hmat)
    as (st' & E & B).
  pose proof (built_revisions_of content live repository st st' Hc Hne B)
    as Hrevs.
  set (commits := history repository (source_path live)) in *.
  assert (Hobj : forall i c, commits !! i = Some c ->
            exists x, objs st' !! (length (objs st) + i)%nat = Some x
              /\ save_as x = revision_save_as live c).
  { intros i c Hi.
    destruct (built_revisions _ _ _ _ _ B i c Hi)
      as (x & parsed & Hx & _ & Hu & _).
    exists x. split; [exact Hx|].
    change (save_as x) with (save_as (undated x)). now rewrite Hu. }
  assert (Htype : content_type = "article" \/ content_type = "page")
    by (destruct Hlisted as [[-> _]|[-> _]]; auto).
  destruct (write_contents_ok content_type generator st' [content] [])
    as (calls & Ecalls & Hcalls).
  { apply List.Forall_forall. intros r [<-|[]].
    destruct commits as [|first_commit rest] eqn:Ecs; [congruence|].
    destruct (last (first_commit :: rest)) as [latest_commit|] eqn:Elast;
      [|now apply last_None in Elast].
    pose proof (built_live _ _ _ _ _ B first_commit latest_commit) as Hlive.
    cbv zeta in Hlive. fold commits in Hlive. rewrite Ecs in Hlive.
    specialize (Hlive eq_refl Elast).
    eexists. split; [exact Hlive|].
    intros g [= <-]. cbn [revisions].
    rewrite (built_lists _ _ _ _ _ B).
    rewrite list_lookup_middle by reflexivity. eauto. }
  { apply List.Forall_forall. cbn [map concat].
    rewrite app_nil_r, Hrevs.
    intros r Hr. apply in_seq in Hr.
    destruct (lookup_lt_is_Some_2 commits (r - length (objs st)))
      as [c Hci]; [lia|].
    destruct (Hobj _ c Hci) as (x & Hx & _).
    replace (length (objs st) + (r - length (objs st)))%nat with r in Hx
      by lia.
    destruct (Htemplates (template_of r)) as [t Ht].
    exists x, t. split; [exact Hx|]. split; [exact Ht | apply Hwrites]. }
  cbn [map concat] in Hcalls. rewrite app_nil_r, Hrevs in Hcalls.
  exists st', calls. split; [exact E|].
  split.
  { unfold on_article_writer_finalized, on_page_writer_finalized,
      on_content_writer_finalized.
    destruct Hlisted as [[-> Hl]|[-> Hl]];
      cbn [String.eqb Ascii.eqb Bool.eqb]; rewrite Hl; exact Ecalls. }
  split.
  { rewrite <- (Forall2_length _ _ _ Hcalls). apply length_seq. }
  intros i c Hi.
  pose proof (lookup_lt_Some _ _ _ Hi) as Hlt.
  destruct (Forall2_lookup_l _ _ _ i _ Hcalls (lookup_seq_lt _ _ _ Hlt))
    as (kw & Hkw & x & t & Hx & _ & ->).
  destruct (Hobj i c Hi) as (x' & Hx' & Hsave).
  rewrite Hx in Hx'. inversion Hx'; subst x'.
  destruct (write_kwargs_lookup content_type generator
              (length (objs st) + i)%nat (save_as x) t Htype)
    as (Hname & _ & Hart & _ & Hctx & Hrel).
  exists (write_kwargs content_type generator (length (objs st) + i)%nat
            (save_as x) t).
  split; [exact Hkw|]. rewrite <- Hsave.
  split; [exact Hname|]. split; [exact Hart|].
  split; [exact Hctx | exact Hrel].
Qed.

Lemma publishing_writes_every_revision_witness :
  exists calls,
    on_content_writer_finalized (H := ex_host []) "article"
      {| articles := [1%nat; 0%nat]; pages := [];
         generator_context := []; RELATIVE_URLS := false |}
      ex_chained []
    = (None, calls)
    /\ length calls = 2%nat.
Proof.
  destruct (publishing_writes_every_revision (H := ex_host []) "article"
              {| articles := [1%nat; 0%nat]; pages := [];
                 generator_context := []; RELATIVE_URLS := false |}
              ex_chained [])
    as (calls & E & Hcalls).
  - intros content Hin. vm_compute in Hin.
    destruct Hin as [<-|[<-|[]]]; eexists; (split; [reflexivity|]);
      intros g Hg; vm_compute in Hg; inversion Hg; vm_compute; eauto.
  - intros r Hin. vm_compute in Hin.
    destruct Hin as [<-|[<-|[]]]; eexists _, _;
      (split; [reflexivity|]); split; reflexivity.
  - exists calls. split; [exact E|].
    apply Forall2_length in Hcalls. rewrite <- Hcalls. reflexivity.
Defined.

(** A writer that refuses [post.html]: nothing is written. *)
Lemma publishing_stops_at_first_failure_witness :
  write_contents (H := ex_host ["post.html"]) "article"
    {| articles := [0%nat]; pages := [];
       generator_context := []; RELATIVE_URLS := false |}
    ex_chained [0%nat; 1%nat] []
  = (Some WriteError, []).
Proof.
  destruct (publishing_stops_at_first_failure (H := ex_host ["post.html"])
              "article"
              {| articles := [0%nat]; pages := [];
                 generator_context := []; RELATIVE_URLS := false |}
              ex_chained 0%nat [1%nat]
              (set_git (Some {| commit := ex_c2;
                                file_path := "content/post.md";
                                revisions := 0%nat;
                                previous_revision := Some 1%nat;
                                next_revision := None |}) ex_live)
              ex_live
              {| commit := ex_c2; file_path := "content/post.md";
                 revisions := 0%nat; previous_revision := Some 1%nat;
                 next_revision := None |}
              [] [0%nat] 1%nat [])
    as (calls & E & Hcalls);
    [ reflexivity | reflexivity | reflexivity | intros p []
    | reflexivity | intros t _; reflexivity | ].
  inversion Hcalls; subst calls. exact E.
Defined.

(** The example document: three files, oldest commit first. *)
Lemma built_revisions_published_witness :
  exists st' calls,
    on_content_object_init (W := ex_world ex_log) 2 0%nat (ex_state ex_live)
    = (Ret tt, st')
    /\ on_article_writer_finalized (H := ex_host [])
         {| articles := [0%nat]; pages := [];
            generator_context := []; RELATIVE_URLS := false |} st' []
       = (None, calls)
    /\ length calls = 3%nat
    /\ (exists kw, calls !! 0%nat = Some kw
          /\ kw !! "name" = Some (KStr "post/a1/index.html")).
Proof.
  destruct (built_revisions_published (W := ex_world ex_log)
              (H := ex_host []) 0 0%nat ex_live (ex_repo ex_log)
              [ex_c1; ex_c2; ex_c3] (ex_state ex_live)
              {| articles := [0%nat]; pages := [];
                 generator_context := []; RELATIVE_URLS := false |}
              "article")
    as (st' & calls & E & Ecalls & Hn & Hcalls);
    [ example_tracked | vm_compute; reflexivity | left; split; reflexivity
    | intros t; simpl; eauto
    | intros kw; simpl; now destruct (kw !! "name") as [[]|]
    | ].
  exists st', calls. split; [exact E|]. split; [exact Ecalls|].
  split; [exact Hn|].
  destruct (Hcalls 0%nat ex_c1 eq_refl) as (kw & Hkw & Hname & _).
  exists kw. split; [exact Hkw | exact Hname].
Defined.

(** ** The URL of a revision *)

Module UrlFacts.
Import StrFacts JoinFacts WalkFacts.

Lemma drop_0 (s : string) : Str.drop 0 s = s.
Proof. now destruct s. Qed.

Lemma contains_drop (c : ascii) (n : nat) :
  forall s, Str.contains c s = false -> Str.contains c (Str.drop n s) = false.
Proof.
  induction n as [|n IH]; intros s H; [now rewrite drop_0|].
  destruct s as [|a s]; [reflexivity|]. simpl in *.
  apply orb_false_iff in H as [_ H]. now apply IH.
Qed.

(** What follows the last occurrence of a character is free of it. *)
Lemma drop_rfind_free (c : ascii) (s : string) :
  Str.contains c (Str.drop (Z.to_nat (Str.rfind c s + 1)) s) = false.
Proof.
  induction s as [|a s IH]; [reflexivity|].
  cbn [Str.rfind]. pose proof (rfind_lower c s) as Hl.
  destruct (0 <=? Str.rfind c s) eqn:E.
  - apply Z.leb_le in E.
    replace (Z.to_nat (Str.rfind c s + 1 + 1))
      with (S (Z.to_nat (Str.rfind c s + 1))) by lia.
    exact IH.
  - apply Z.leb_gt in E.
    assert (Hr : Str.rfind c s = -1) by lia.
    rewrite Hr in IH. change (Z.to_nat (-1 + 1)) with 0%nat in IH.
    rewrite drop_0 in IH.
    destruct (Ascii.eqb a c) eqn:Ea.
    + change (Z.to_nat (0 + 1)) with 1%nat. exact IH.
    + change (Z.to_nat (-1 + 1)) with 0%nat. rewrite drop_0.
      cbn [Str.contains]. now rewrite Ea, IH.
Qed.

Lemma basename_free (p : string) :
  Str.contains posixpath.sep (posixpath.basename p) = false.
Proof. apply drop_rfind_free. Qed.

Lemma splitext_ext_free (f : string) :
  Str.contains posixpath.sep f = false ->
  Str.contains posixpath.sep (snd (posixpath.splitext f)) = false.
Proof.
  intros Hf. unfold posixpath.splitext.
  match goal with |- context [if ?b then _ else _] => destruct b end;
    [now apply contains_drop | reflexivity].
Qed.

(** [dirname] and [basename] of a path that ends in a segment and a file
    name. *)
Lemma dirname_segment_file (pre h file : string) :
  segment_like h = true ->
  Str.contains posixpath.sep file = false ->
  posixpath.dirname (pre +:+ h +:+ "/" +:+ file) = pre +:+ h
  /\ posixpath.basename (pre +:+ h +:+ "/" +:+ file) = file.
Proof.
  intros Hh Hfile. apply PathFacts.segment_like_inv in Hh as [Hne Hfree].
  unfold posixpath.dirname, posixpath.basename.
  rewrite <- append_assoc, (cut_app _ _ Hfile). cbn [fst snd].
  split; [|reflexivity].
  unfold posixpath.strip_head.
  rewrite is_empty_app, is_empty_app, Hne, andb_false_r. cbn [andb negb].
  rewrite all_eq_app, all_eq_app, (all_eq_free _ _ Hne Hfree).
  rewrite andb_false_r. cbn [andb negb].
  change ((pre +:+ h) +:+ "/")
    with ((pre +:+ h) +:+ String posixpath.sep "").
  rewrite rstrip_app_sep. apply rstrip_id.
  now apply endswith_app_free.
Qed.

Lemma basename_segment (pre h : string) :
  segment_like h = true ->
  (pre = "" \/ exists q, pre = q +:+ "/") ->
  posixpath.basename (pre +:+ h) = h.
Proof.
  intros Hh Hpre. apply PathFacts.segment_like_inv in Hh as [_ Hfree].
  unfold posixpath.basename. destruct Hpre as [-> | [q ->]].
  - change ("" +:+ h) with h. now rewrite (cut_no_sep _ Hfree).
  - rewrite append_assoc. now rewrite (cut_app _ _ Hfree).
Qed.

(** The shape of the path of lines 98-107 with its extension named. *)
Lemma revision_save_as_ext (live : Content) :
  exists pre,
    (pre = "" \/ exists q, pre = q +:+ "/") /\
    forall c, segment_like (hexsha c) = true ->
      revision_save_as live c
      = pre +:+ hexsha c +:+ "/" +:+ "index"
        +:+ snd (posixpath.splitext (posixpath.basename (save_as live))).
Proof.
  unfold revision_save_as.
  destruct (posixpath.splitext (posixpath.basename (save_as live)))
    as [root ext].
  set (base := if Str.endswith posixpath.sep (url live) then url live
               else posixpath.dirname (url live)).
  set (seg := if negb (String.eqb root "index") then root else "").
  set (c0 := {| hexsha := "0"; authored_date := 0; tree := ∅ |}).
  destruct (join_hash (posixpath.join_step base seg) (hexsha c0)
                      ("index" +:+ ext) eq_refl eq_refl)
    as (pre & _ & Hpre & Hall).
  exists pre. split; [exact Hpre|].
  intros c Hc. exact (Hall _ Hc).
Qed.

End UrlFacts.

(** X11.  The URL computed for a revision is the directory of its output
    path: it ends in the commit's hash, without a separator after it, and
    the output path is that URL followed by [/index] and the extension of
    the live document's file.  As for C6, a hash is a non-empty string
    without the separator. *)
Theorem revision_url_ends_in_hash (live : Content) (c : Commit) :
  segment_like (hexsha c) = true ->
  let path := revision_save_as live c in
  let revision_url := posixpath.dirname path in
  let extension :=
    snd (posixpath.splitext (posixpath.basename (save_as live))) in
  path = revision_url +:+ "/" +:+ "index" +:+ extension
  /\ posixpath.basename revision_url = hexsha c
  /\ Str.endswith posixpath.sep revision_url = false
  /\ posixpath.basename path = "index" +:+ extension.
Proof.
  intros Hc. cbv zeta.
  destruct (UrlFacts.revision_save_as_ext live) as (pre & Hpre & Hshape).
  rewrite (Hshape c Hc).
  set (ext := snd (posixpath.splitext (posixpath.basename (save_as live)))).
  assert (Hfile : Str.contains posixpath.sep ("index" +:+ ext) = false).
  { rewrite WalkFacts.contains_app. unfold ext.
    rewrite (UrlFacts.splitext_ext_free _ (UrlFacts.basename_free _)).
    reflexivity. }
  destruct (UrlFacts.dirname_segment_file pre (hexsha c) ("index" +:+ ext)
              Hc Hfile) as [Hd Hb].
  change (pre +:+ hexsha c +:+ "/" +:+ "index" +:+ ext)
    with (pre +:+ hexsha c +:+ "/" +:+ ("index" +:+ ext)) in *.
  rewrite Hd, Hb. split; [now rewrite StrFacts.append_assoc|].
  split; [now apply UrlFacts.basename_segment|].
  split; [|reflexivity].
  apply PathFacts.segment_like_inv in Hc as [Hne Hfree].
  now apply StrFacts.endswith_app_free.
Qed.

Lemma revision_url_ends_in_hash_witness :
  revision_save_as ex_live ex_c2 = "post/b2" +:+ "/" +:+ "index" +:+ ".html"
  /\ posixpath.basename (posixpath.dirname (revision_save_as ex_live ex_c2))
     = "b2".
Proof.
  destruct (revision_url_ends_in_hash ex_live ex_c2 eq_refl)
    as (Hp & Hb & _ & _).
  split; [exact Hp | exact Hb].
Defined.

(** ** The dates of the revisions *)

Section LinkDates.
Context `{W : World}.
Variables (fuel : nat) (content : ref) (live : Content) (repository : Repo).
Variables (rl : lref) (n0 : nat) (cs : list Commit) (news : list Content).
Variable s1 : State.

Let path := make_repository_file_path repository (source_path live).
Let revs := seq n0 (length news).

Hypothesis Hlen : length cs = length news.
Hypothesis Hrevs : lists s1 !! rl = Some revs.
Hypothesis Hcache :
  repo_cache s1 !! posixpath.dirname (source_path live)
  = Some (Some repository).
Hypothesis Hhist : history repository (source_path live) <> [].
Hypothesis Hstatic : is_Static (cls live) = false.
Hypothesis Hnews :
  Forall2 (fun c o => exists parsed,
             parse_commit live repository c = Some parsed
             /\ o = materialized live c parsed) cs news.

(** One round of the second loop, object by object: the revision of the
    round gets its [git] tuple and its date, the one before it is
    back-patched, every other object is as it was. *)
Lemma link_step_lookup (k : nat) (s : State) (c : Commit) (o : Content) :
  linking content path rl n0 cs news s1 k s ->
  cs !! k = Some c ->
  objs s !! (n0 + k)%nat = Some o ->
  let g := expected_link content path rl revs k c in
  let created := fromtimestamp (authored_date c) in
  exists s',
    link (on_content_object_init (S fuel)) content path rl
         (Z.of_nat k, (c, (n0 + k)%nat)) s = (Ret tt, s')
    /\ forall j,
         objs s' !! j
         = (if decide (j = (n0 + k)%nat)
            then (fun x => dated created (set_git (Some g) x))
            else if decide (previous_revision g = Some j)
                 then superseded created (date_format o)
                 else id) <$> objs s !! j.
Proof.
  intros L Hk Ho g created.
  assert (Hkn : (k < length news)%nat).
  { rewrite <- Hlen. eapply lookup_lt_Some; eauto. }
  destruct (lookup_lt_is_Some_2 news k Hkn) as [o1 Ho1].
  destruct (linking_new _ _ _ _ _ _ _ _ _ L k c o1 Hk Ho1)
    as (o' & Ho' & Hu & Hg).
  rewrite Ho in Ho'. inversion Ho'; subst o'. clear Ho'.
  destruct (revision_identity live repository cs news Hnews k o o1 Ho1 Hu)
    as [Hcls Hsrc].
  assert (Hl : lists s !! rl = Some revs).
  { now rewrite (linking_lists _ _ _ _ _ _ _ _ _ L). }
  assert (Hrl : length revs = length news) by apply length_seq.
  unfold link.
  rewrite (bind_Ret _ _ _ _ _ (get_list_Some _ _ _ Hl)).
  rewrite (bind_Ret _ _ _ _ _ (previous_spec revs k s ltac:(lia))).
  rewrite (bind_Ret _ _ _ _ _ (next_spec content revs k s ltac:(lia))).
  match goal with
  | |- context [set_git (Some ?x)] =>
      change x with (expected_link content path rl revs k c)
  end.
  fold g.
  rewrite (bind_Ret _ _ _ _ _ (modify_obj_Some _ _ _ _ Ho)).
  remember (with_objs (alter (set_git (Some g)) (n0 + k)%nat) s) as s2 eqn:E2.
  set (o2 := set_git (Some g) o).
  assert (Ho2 : objs s2 !! (n0 + k)%nat = Some o2).
  { subst s2. cbn [objs with_objs]. now rewrite list_lookup_alter_eq, Ho. }
  assert (Hd : discover_repository (posixpath.dirname (source_path o2)) s2
               = (Ret (Some repository), s2)).
  { apply discover_repository_hit. subst s2. cbn [repo_cache with_objs].
    rewrite (linking_cache _ _ _ _ _ _ _ _ _ L).
    change (source_path o2) with (source_path o). now rewrite Hsrc. }
  assert (Hlen2 : length (objs s2) = (n0 + length news)%nat).
  { subst s2. cbn [objs with_objs]. rewrite length_alter.
    apply (linking_length _ _ _ _ _ _ _ _ _ L). }
  assert (Hprev : forall p, previous_revision g = Some p ->
                    (n0 <= p < length (objs s2))%nat /\ p <> (n0 + k)%nat).
  { intros p. unfold g, expected_link. cbn [previous_revision].
    destruct (0 <? Z.of_nat k) eqn:E0; [|discriminate].
    apply Z.ltb_lt in E0.
    intros Hp. apply revs_lookup_inv in Hp as [-> Hp]. lia. }
  cbv beta.
  rewrite (hook_guards fuel (n0 + k)%nat s2 s2 o2 repository Ho2);
    [ | change (cls o2) with (cls o); now rewrite Hcls
      | exact Hd | reflexivity
      | change (source_path o2) with (source_path o); now rewrite Hsrc
      | reflexivity ].
  rewrite (on_revision_spec (n0 + k)%nat s2 o2 g Ho2 eq_refl);
    [|intros p Hp; now apply Hprev].
  eexists. split; [reflexivity|].
  intros j. cbn [objs with_objs]. unfold revisited.
  change (fromtimestamp (authored_date (commit g))) with created.
  change (date_format o2) with (date_format o).
  subst s2. cbn [objs with_objs].
  destruct (previous_revision g) as [p|] eqn:Ep.
  - destruct (Hprev p eq_refl) as [_ Hpk].
    rewrite list_lookup_alter.
    destruct (decide (p = j)) as [<-|Hpj].
    + rewrite list_lookup_alter_ne by congruence.
      rewrite list_lookup_alter_ne by congruence.
      destruct (decide (p = (n0 + k)%nat)); [congruence|].
      destruct (decide (Some p = Some p)); [reflexivity | congruence].
    + destruct (decide (Some p = Some j)) as [[=]|_]; [congruence|].
      rewrite !list_lookup_alter.
      destruct (decide ((n0 + k)%nat = j)) as [<-|Hj].
      * destruct (decide ((n0 + k)%nat = (n0 + k)%nat)); [|congruence].
        destruct (objs s !! (n0 + k)%nat); reflexivity.
      * destruct (decide (j = (n0 + k)%nat)); [congruence|].
        destruct (objs s !! j); reflexivity.
  - rewrite !list_lookup_alter.
    destruct (decide ((n0 + k)%nat = j)) as [<-|Hj].
    + destruct (decide ((n0 + k)%nat = (n0 + k)%nat)); [|congruence].
      destruct (objs s !! (n0 + k)%nat); reflexivity.
    + destruct (decide (j = (n0 + k)%nat)); [congruence|].
      destruct (decide (None = Some j)); [congruence|].
      destruct (objs s !! j); reflexivity.
Qed.

Lemma ltb_S_other (i k : nat) : i <> k -> (i <? S k)%nat = (i <? k)%nat.
Proof.
  intros H. destruct (i <? k)%nat eqn:E.
  - apply Nat.ltb_lt in E. apply Nat.ltb_lt. lia.
  - apply Nat.ltb_ge in E. apply Nat.ltb_ge. lia.
Qed.

(** One round keeps the revisions those of [linked_revision]. *)
Lemma link_step_chained (k : nat) (s : State) (c : Commit) :
  linking content path rl n0 cs news s1 k s ->
  chained content path rl n0 cs news k s ->
  cs !! k = Some c ->
  exists s',
    link (on_content_object_init (S fuel)) content path rl
         (Z.of_nat k, (c, (n0 + k)%nat)) s = (Ret tt, s')
    /\ linking content path rl n0 cs news s1 (S k) s'
    /\ chained content path rl n0 cs news (S k) s'.
Proof.
  intros L C Hk.
  assert (Hkn : (k < length news)%nat).
  { rewrite <- Hlen. eapply lookup_lt_Some; eauto. }
  destruct (lookup_lt_is_Some_2 news k Hkn) as [o1 Ho1].
  pose proof (C k c o1 Hk Ho1) as Ho.
  assert (Hself : forall g next, linked_revision g next k k o1 = o1).
  { intros g next. unfold linked_revision.
    rewrite Nat.ltb_irrefl.
    replace (S k <? k)%nat with false
      by (symmetry; apply Nat.ltb_ge; lia).
    now destruct next as [[]|]. }
  rewrite Hself in Ho.
  destruct (link_step_lookup k s c o1 L Hk Ho) as (s' & E & Hlook).
  destruct (link_step fuel content live repository rl n0 cs news s1 Hlen
              Hrevs Hcache Hhist Hstatic Hnews k s c L Hk)
    as (s'' & E' & L').
  fold path in E'. rewrite E in E'. inversion E'; subst s''. clear E'.
  exists s'. split; [exact E|]. split; [exact L'|].
  intros i ci oi Hci Hoi. rewrite Hlook, (C i ci oi Hci Hoi).
  cbn [fmap option_fmap option_map]. f_equal.
  fold revs.
  destruct (decide ((n0 + i)%nat = (n0 + k)%nat)) as [Eik|Nik].
  - assert (i = k) by lia. subst i.
    rewrite Hk in Hci. inversion Hci; subst ci.
    rewrite Ho1 in Hoi. inversion Hoi; subst oi.
    rewrite Hself. unfold linked_revision.
    replace (k <? S k)%nat with true by (symmetry; apply Nat.ltb_lt; lia).
    rewrite Nat.ltb_irrefl.
    cbn [commit expected_link].
    now destruct (successor cs news k) as [[]|].
  - assert (Hik : i <> k) by lia.
    destruct (decide
                (previous_revision (expected_link content path rl revs k c)
                 = Some (n0 + i)%nat)) as [Hp|Hp].
    + unfold expected_link in Hp. cbn [previous_revision] in Hp.
      destruct (0 <? Z.of_nat k) eqn:E0; [|discriminate].
      apply Z.ltb_lt in E0.
      apply revs_lookup_inv in Hp as [Hp _].
      assert (Hsi : S i = k) by lia.
      unfold successor. rewrite Hsi, Hk, Ho1.
      unfold linked_revision. rewrite Hsi.
      replace (i <? k)%nat with true by (symmetry; apply Nat.ltb_lt; lia).
      replace (i <? S k)%nat with true by (symmetry; apply Nat.ltb_lt; lia).
      replace (k <? S k)%nat with true by (symmetry; apply Nat.ltb_lt; lia).
      rewrite Nat.ltb_irrefl. reflexivity.
    + assert (Hsi : S i <> k).
      { intros Hsi. apply Hp. unfold expected_link.
        cbn [previous_revision].
        replace (0 <? Z.of_nat k) with true
          by (symmetry; apply Z.ltb_lt; lia).
        unfold revs. rewrite lookup_seq_lt by lia. f_equal. lia. }
      unfold linked_revision.
      rewrite (ltb_S_other i k Hik).
      replace (S i <? S k)%nat with (S i <? k)%nat
        by (symmetry; apply (ltb_S_other (S i) k Hsi)).
      reflexivity.
Qed.

Lemma chained_done (k : nat) (s : State) :
  (length cs <= k)%nat ->
  chained content path rl n0 cs news k s ->
  chained content path rl n0 cs news (length cs) s.
Proof.
  intros Hk C i c o1 Hc Ho1. rewrite (C i c o1 Hc Ho1). f_equal.
  pose proof (lookup_lt_Some _ _ _ Hc) as Hi.
  unfold linked_revision.
  replace (i <? length cs)%nat with true
    by (symmetry; apply Nat.ltb_lt; lia).
  replace (i <? k)%nat with true by (symmetry; apply Nat.ltb_lt; lia).
  unfold successor.
  destruct (cs !! S i) as [c'|] eqn:Hc'; [|reflexivity].
  pose proof (lookup_lt_Some _ _ _ Hc') as Hi'.
  destruct (news !! S i) as [o'|]; [|reflexivity].
  replace (S i <? length cs)%nat with true
    by (symmetry; apply Nat.ltb_lt; lia).
  replace (S i <? k)%nat with true by (symmetry; apply Nat.ltb_lt; lia).
  reflexivity.
Qed.

(** The second loop from round [k] on. *)
Lemma link_loop_chained (rest : list Commit) :
  forall (k : nat) (s : State),
    drop k cs = rest ->
    linking content path rl n0 cs news s1 k s ->
    chained content path rl n0 cs news k s ->
    exists s',
      for_each (enumerate_from (Z.of_nat k) (zip rest (drop k revs)))
        (link (on_content_object_init (S fuel)) content path rl) s
      = (Ret tt, s')
      /\ linking content path rl n0 cs news s1 (length cs) s'
      /\ chained content path rl n0 cs news (length cs) s'.
Proof.
  induction rest as [|c rest IH]; intros k s Hd L C.
  - exists s. split; [reflexivity|].
    assert (Hk : (length cs <= k)%nat).
    { apply (f_equal length) in Hd. rewrite length_drop in Hd.
      simpl in Hd. lia. }
    split.
    + apply linking_done with (k := k); assumption.
    + now apply (chained_done k).
  - assert (Hk : cs !! k = Some c).
    { rewrite <- (Nat.add_0_r k), <- lookup_drop, Hd. reflexivity. }
    assert (Hd' : drop (S k) cs = rest).
    { rewrite (drop_S _ _ _ Hk) in Hd. now inversion Hd. }
    assert (Hkn : (k < length news)%nat).
    { rewrite <- Hlen. eapply lookup_lt_Some; eauto. }
    unfold revs. rewrite (drop_S _ _ _ (revs_lookup n0 news k Hkn)).
    cbn [zip enumerate_from for_each].
    destruct (link_step_chained k s c L C Hk) as (s2 & E2 & L2 & C2).
    rewrite (bind_Ret _ _ _ _ _ E2).
    replace (Z.of_nat k + 1) with (Z.of_nat (S k)) by lia.
    exact (IH (S k) s2 Hd' L2 C2).
Qed.

End LinkDates.

Section BuildDates.
Context `{W : World}.

(** The commit after the one at index [i], with the date format of its
    revision, read off the history. *)
Lemma successor_parsed (live : Content) (repository : Repo)
    (cs : list Commit) (news : list Content) (i : nat) :
  Forall2 (fun c o => exists parsed,
             parse_commit live repository c = Some parsed
             /\ o = materialized live c parsed) cs news ->
  successor cs news i
  = match cs !! S i with
    | Some c' =>
        match parse_commit live repository c' with
        | Some parsed' => Some (c', p_date_format parsed')
        | None => None
        end
    | None => None
    end.
Proof.
  intros Hnews. unfold successor.
  destruct (cs !! S i) as [c'|] eqn:Hc'; [|reflexivity].
  destruct (Forall2_lookup_l _ _ _ _ _ Hnews Hc')
    as (o' & Ho' & parsed' & Hp' & ->).
  now rewrite Ho', Hp'.
Qed.

(** Lines 83-130 when every commit can be materialized, with every
    attribute of the revisions. *)
Lemma build_chain_chained (fuel : nat) (content : ref) (st2 : State)
    (live1 : Content) (repository : Repo) (commits : list Commit)
    (latest_commit : Commit) :
  objs st2 !! content = Some live1 ->
  is_Static (cls live1) = false ->
  repo_cache st2 !! posixpath.dirname (source_path live1)
  = Some (Some repository) ->
  history repository (source_path live1) <> [] ->
  forallb (materializable live1 repository) commits = true ->
  let path := make_repository_file_path repository (source_path live1) in
  let rl := length (lists st2) in
  let n0 := length (objs st2) in
  let revs := seq n0 (length commits) in
  exists st',
    build_chain (on_content_object_init (S fuel)) content path commits
      latest_commit st2 = (Ret tt, st')
    /\ (forall i c, commits !! i = Some c ->
          exists parsed,
            parse_commit live1 repository c = Some parsed
            /\ objs st' !! (n0 + i)%nat
               = Some (linked_revision
                         (expected_link content path rl revs i c)
                         match commits !! S i with
                         | Some c' =>
                             match parse_commit live1 repository c' with
                             | Some parsed' =>
                                 Some (c', p_date_format parsed')
                             | None => None
                             end
                         | None => None
                         end
                         (length commits) i
                         (materialized live1 c parsed))).
Proof.
  intros Hc2 Hstatic1 Hcache2 Hhist1 Hmat1 path rl n0 revs.
  unfold build_chain.
  rewrite (bind_Ret _ _ st2
             (with_lists (fun ls => ls ++ [[]]) st2) (length (lists st2)))
    by reflexivity.
  fold rl.
  remember (with_lists (fun ls => ls ++ [[]]) st2) as st3 eqn:E3.
  assert (O3 : objs st3 = objs st2) by now subst st3.
  assert (L3 : lists st3 = lists st2 ++ [[]]) by now subst st3.
  assert (C3 : repo_cache st3 = repo_cache st2) by now subst st3.
  assert (Hc3 : objs st3 !! content = Some live1) by now rewrite O3.
  assert (Hl3 : lists st3 !! rl = Some []).
  { rewrite L3. apply list_lookup_middle. reflexivity. }
  assert (Hlt : (content < n0)%nat) by (eapply lookup_lt_Some; eauto).
  destruct (materialize_loop content rl live1 repository commits st3 []
              Hc3 Hl3 Hmat1) as (news & E4 & Hnews).
  rewrite !O3 in E4. fold path n0 in E4. rewrite (bind_Ret _ _ _ _ _ E4).
  assert (Hlen : length commits = length news)
    by (eapply Forall2_length; eauto).
  unfold revs. rewrite Hlen in *. cbn [app] in *.
  remember {| objs := objs st2 ++ news;
              lists := <[rl := seq n0 (length news)]> (lists st3);
              repo_cache := repo_cache st3; probes := probes st3 |}
    as st4 eqn:E4'.
  assert (Hrevs : lists st4 !! rl = Some (seq n0 (length news))).
  { subst st4. cbn [lists]. apply list_lookup_insert_eq.
    eapply lookup_lt_Some; eauto. }
  rewrite (bind_Ret _ _ _ _ _ (get_list_Some _ _ _ Hrevs)).
  assert (Hcache4 : repo_cache st4 !! posixpath.dirname (source_path live1)
                    = Some (Some repository)).
  { subst st4. cbn [repo_cache]. now rewrite C3. }
  assert (Hnew4 : forall i o1, news !! i = Some o1 ->
            objs st4 !! (n0 + i)%nat = Some o1).
  { intros i o1 Hoi. subst st4. cbn [objs]. unfold n0.
    rewrite lookup_app_r by lia.
    now replace (length (objs st2) + i - length (objs st2))%nat
      with i by lia. }
  assert (L0 : linking content path rl n0 commits news st4 0 st4).
  { constructor; try reflexivity.
    - subst st4. cbn [objs]. rewrite length_app. reflexivity.
    - intros i c o1 Hci Hoi. exists o1.
      split; [now apply Hnew4|]. split; [reflexivity|].
      destruct (Forall2_lookup_r _ _ _ _ _ Hnews Hoi)
        as (c' & _ & parsed & _ & ->).
      reflexivity. }
  assert (C0 : chained content path rl n0 commits news 0 st4).
  { intros i c o1 Hci Hoi. rewrite (Hnew4 i o1 Hoi). f_equal.
    unfold linked_revision. cbn [Nat.ltb Nat.leb].
    now destruct (successor commits news i) as [[]|]. }
  destruct (link_loop_chained fuel content live1 repository rl n0 commits
              news st4 Hlen Hrevs Hcache4 Hhist1 Hstatic1 Hnews commits
              0%nat st4 eq_refl L0 C0) as (st5 & E5 & L5 & C5).
  change (enumerate (zip commits (seq n0 (length news))))
    with (enumerate_from (Z.of_nat 0)
            (zip commits (drop 0 (seq n0 (length news))))).
  fold path in E5. rewrite (bind_Ret _ _ _ _ _ E5).
  fold path in L5, C5.
  assert (Hrevs5 : lists st5 !! rl = Some (seq n0 (length news))).
  { now rewrite (linking_lists _ _ _ _ _ _ _ _ _ L5). }
  rewrite (bind_Ret _ _ _ _ _ (get_list_Some _ _ _ Hrevs5)).
  rewrite (bind_Ret _ _ _ _ _ (last_previous_spec _ st5)).
  assert (Hc5 : objs st5 !! content = Some live1).
  { rewrite (linking_old _ _ _ _ _ _ _ _ _ L5) by lia.
    subst st4. cbn [objs]. now apply lookup_app_l_Some. }
  rewrite (modify_obj_Some _ _ _ _ Hc5).
  eexists. split; [reflexivity|]. cbn [objs with_objs].
  intros i c Hci.
  destruct (Forall2_lookup_l _ _ _ _ _ Hnews Hci)
    as (o1 & Ho1 & parsed & Hparsed & ->).
  exists parsed. split; [exact Hparsed|].
  rewrite list_lookup_alter_ne by lia.
  rewrite (C5 i c _ Hci Ho1).
  now rewrite (successor_parsed live1 repository commits news i Hnews), Hlen.
Qed.

End BuildDates.

(** X12.  After a chain build every revision is dated by its own commit
    and superseded by the next one: its [date] is the authored time of its
    commit, its [modified] the authored time of the commit after it, each
    rendered for [locale_date] and [locale_modified]; [locale_modified] is
    rendered in the date format of the later revision.  The revision of
    the latest commit keeps the [modified] and [locale_modified] the reader
    gave it. *)
Theorem revisions_dated_by_commits `{W : World} (fuel : nat) (content : ref)
    (live : Content) (repository : Repo) (commits : list Commit)
    (st : State) :
  tracked content live repository commits st ->
  forallb (materializable live repository) commits = true ->
  exists st',
    on_content_object_init (S (S fuel)) content st = (Ret tt, st')
    /\ (forall i c, commits !! i = Some c ->
          exists o parsed,
            objs st' !! (length (objs st) + i)%nat = Some o
            /\ parse_commit live repository c = Some parsed
            /\ date o = Some (fromtimestamp (authored_date c))
            /\ locale_date o
               = Some (strftime (fromtimestamp (authored_date c))
                         (p_date_format parsed))
            /\ match commits !! S i with
               | Some c' =>
                   exists parsed',
                     parse_commit live repository c' = Some parsed'
                     /\ modified o = Some (fromtimestamp (authored_date c'))
                     /\ locale_modified o
                        = Some (strftime (fromtimestamp (authored_date c'))
                                  (p_date_format parsed'))
               | None =>
                   modified o = p_modified parsed
                   /\ locale_modified o = p_locale_modified parsed
               end).
Proof.
  intros [Hc Hs Hg Hloc Hh Hne] Hmat. subst commits.
  destruct (history repository (source_path live))
    as [|first_commit rest] eqn:Ecs; [congruence|].
  set (commits := first_commit :: rest) in *.
  set (latest_commit := List.last commits first_commit).
  destruct (hook_fresh (S fuel) content st live repository first_commit rest
              Hc Hs Hg Hloc Ecs) as (st2 & E & O2 & L2 & C2).
  fold commits latest_commit in E, O2.
  destruct (inferred_identity first_commit latest_commit live)
    as (Isrc & Icls & Iparse & Imat).
  remember (inferred first_commit latest_commit live) as live1 eqn:Elive1.
  assert (Hlt : (content < length (objs st))%nat)
    by (eapply lookup_lt_Some; eauto).
  assert (Hc2 : objs st2 !! content = Some live1).
  { rewrite O2. now apply list_lookup_insert_eq. }
  assert (Hn : length (objs st2) = length (objs st))
    by now rewrite O2, length_insert.
  destruct (build_chain_chained fuel content st2 live1 repository commits
              latest_commit Hc2) as (st' & E' & Hall).
  - now rewrite Icls.
  - now rewrite Isrc.
  - rewrite Isrc, Ecs. discriminate.
  - apply forallb_forall. intros c Hin.
    pose proof (proj1 (forallb_forall _ _) Hmat c Hin) as Hm.
    unfold materializable in *. now rewrite Iparse.
  - exists st'. split; [now rewrite E, <- Isrc|].
    intros i c Hi. destruct (Hall i c Hi) as (parsed & Hp & Ho).
    rewrite Hn in Ho. rewrite Iparse in Hp.
    eexists _, parsed. split; [exact Ho|]. split; [exact Hp|].
    pose proof (lookup_lt_Some _ _ _ Hi) as Hil.
    unfold linked_revision.
    replace (i <? length commits)%nat with true
      by (symmetry; apply Nat.ltb_lt; lia).
    destruct (commits !! S i) as [c'|] eqn:Hc'.
    + pose proof (lookup_lt_Some _ _ _ Hc') as Hil'.
      assert (Hm' : materializable live repository c' = true).
      { apply (proj1 (forallb_forall _ _) Hmat).
        eapply list_elem_of_In, list_elem_of_lookup_2; eauto. }
      unfold materializable in Hm'. rewrite Iparse.
      destruct (parse_commit live repository c') as [parsed'|];
        [|discriminate].
      replace (S i <? length commits)%nat with true
        by (symmetry; apply Nat.ltb_lt; lia).
      split; [reflexivity|]. split; [reflexivity|].
      exists parsed'. repeat split.
    + repeat split.
Qed.

(** The example: the revision of the second commit is dated 200 and
    superseded at 300. *)
Lemma revisions_dated_by_commits_witness :
  exists st' o,
    on_content_object_init (W := ex_world ex_log) 2 0%nat (ex_state ex_live)
    = (Ret tt, st')
    /\ objs st' !! 2%nat = Some o
    /\ date o = Some (fromtimestamp 200)
    /\ modified o = Some (fromtimestamp 300).
Proof.
  destruct (revisions_dated_by_commits (W := ex_world ex_log) 0 0%nat
              ex_live (ex_repo ex_log) [ex_c1; ex_c2; ex_c3]
              (ex_state ex_live))
    as (st' & E & H);
    [example_tracked | vm_compute; reflexivity |].
  destruct (H 1%nat ex_c2 eq_refl)
    as (o & parsed & Ho & _ & Hd & _ & parsed' & _ & Hm & _).
  exists st', o. split; [exact E|]. split; [exact Ho|].
  split; [exact Hd | exact Hm].
Defined.

(** ** What no run undoes *)

Section Keeps.
Context `{W : World}.

Lemma grows_refl (n m : nat) (st : State) : grows n m st st.
Proof.
  constructor; auto.
  - intros r o _ Ho. now exists o.
  - exists []. now rewrite app_nil_r.
Qed.

Lemma grows_trans (n m : nat) (st1 st2 st3 : State) :
  grows n m st1 st2 -> grows n m st2 st3 -> grows n m st1 st3.
Proof.
  intros [S1 O1 LS1 L1 C1 [more1 P1]] [S2 O2 LS2 L2 C2 [more2 P2]].
  constructor.
  - lia.
  - intros r o Hr Ho. destruct (O1 r o Hr Ho) as (o' & Ho' & Hu').
    destruct (O2 r o' Hr Ho') as (o'' & Ho'' & Hu'').
    exists o''. split; [exact Ho'' | congruence].
  - lia.
  - intros l xs Hl Hxs. apply (L2 l xs Hl). now apply L1.
  - intros p r Hp. apply C2. now apply C1.
  - exists (more1 ++ more2). now rewrite P2, P1, app_assoc.
Qed.

(** A change to the objects alone that keeps [undated] below [m]. *)
Lemma grows_objs_only (n m : nat) (st : State)
    (f : list Content -> list Content) :
  (length (objs st) <= length (f (objs st)))%nat ->
  (forall r o, (r < m)%nat -> objs st !! r = Some o ->
     exists o', f (objs st) !! r = Some o' /\ undated o' = undated o) ->
  grows n m st (with_objs f st).
Proof.
  intros Hs Ho. constructor; cbn [objs lists repo_cache probes with_objs];
    auto.
  exists []. now rewrite app_nil_r.
Qed.

Lemma keeps_ret {A} (n m : nat) (Q : A -> Prop) (a : A) :
  Q a -> keeps n m Q (ret a).
Proof.
  intros Ha st _ _. split; [apply grows_refl|].
  now intros a' [= <-].
Qed.

Lemma keeps_raise {A} (n m : nat) (Q : A -> Prop) (e : exn) :
  keeps n m Q (raise e).
Proof. intros st _ _. split; [apply grows_refl | discriminate]. Qed.

Lemma keeps_out_of_fuel {A} (n m : nat) (Q : A -> Prop) :
  keeps n m Q out_of_fuel.
Proof. intros st _ _. split; [apply grows_refl | discriminate]. Qed.

Lemma keeps_bind {A B} (n m : nat) (Q : A -> Prop) (R : B -> Prop)
    (c : M A) (k : A -> M B) :
  keeps n m Q c -> (forall a, Q a -> keeps n m R (k a)) ->
  keeps n m R (bind c k).
Proof.
  intros Hc Hk st Hn Hm. destruct (Hc st Hn Hm) as [G HQ].
  unfold bind. destruct (c st) as [[a| e |] st1]; cbn [fst snd] in *.
  - destruct (Hk a (HQ a eq_refl) st1) as [G' HR].
    + pose proof (grows_lists_size _ _ _ _ G). lia.
    + pose proof (grows_size _ _ _ _ G). lia.
    + split; [now apply (grows_trans n m st st1) | exact HR].
  - split; [exact G | discriminate].
  - split; [exact G | discriminate].
Qed.

Lemma keeps_weaken {A} (n m : nat) (Q Q' : A -> Prop) (c : M A) :
  keeps n m Q c -> (forall a, Q a -> Q' a) -> keeps n m Q' c.
Proof.
  intros Hc HQ st Hn Hm. destruct (Hc st Hn Hm) as [G H].
  split; [exact G | intros a Ha; now apply HQ, H].
Qed.

(** A computation that only reads. *)
Lemma keeps_read {A} (n m : nat) (c : M A) :
  (forall st, snd (c st) = st) -> keeps n m (fun _ => True) c.
Proof.
  intros Hc st _ _. rewrite Hc. split; [apply grows_refl | auto].
Qed.

Lemma keeps_of_option {A} (n m : nat) (e : exn) (o : option A) :
  keeps n m (fun _ => True) (of_option e o).
Proof. apply keeps_read. intros st. now destruct o. Qed.

Lemma keeps_get_obj (n m : nat) (r : ref) :
  keeps n m (fun _ => True) (get_obj r).
Proof.
  apply keeps_read. intros st. unfold get_obj.
  now destruct (objs st !! r).
Qed.

Lemma keeps_get_list (n m : nat) (l : lref) :
  keeps n m (fun _ => True) (get_list l).
Proof.
  apply keeps_read. intros st. unfold get_list.
  now destruct (lists st !! l).
Qed.

Lemma keeps_get_git (n m : nat) (r : ref) :
  keeps n m (fun _ => True) (get_git r).
Proof.
  apply keeps_read. intros st. unfold get_git, bind, get_obj.
  destruct (objs st !! r) as [c|]; [|reflexivity]. cbn.
  now destruct (git c).
Qed.

Lemma keeps_py_getitem {A} (n m : nat) (xs : list A) (i : Z) :
  keeps n m (fun _ => True) (py_getitem xs i).
Proof.
  apply keeps_read. intros st. unfold py_getitem. cbv zeta.
  destruct (_ && _); [|reflexivity].
  now destruct (xs !! _).
Qed.

(** An assignment to an attribute: of a new object, or to the dates and
    [git]. *)
Lemma keeps_modify_obj (n m : nat) (r : ref) (f : Content -> Content) :
  (m <= r)%nat \/ (forall c, undated (f c) = undated c) ->
  keeps n m (fun _ => True) (modify_obj r f).
Proof.
  intros Hf st _ _. split; [|auto]. unfold modify_obj.
  destruct (objs st !! r) as [c|] eqn:Hc; [|apply grows_refl].
  cbn [snd]. apply grows_objs_only.
  - now rewrite length_insert.
  - intros j o Hj Ho. destruct (decide (j = r)) as [->|Hjr].
    + rewrite Hc in Ho. inversion Ho; subst o.
      exists (f c). split.
      * apply list_lookup_insert_eq. eapply lookup_lt_Some; eauto.
      * destruct Hf as [Hf|Hf]; [lia | apply Hf].
    + exists o. split; [|reflexivity].
      now rewrite list_lookup_insert_ne by congruence.
Qed.

Lemma keeps_new_obj (n m : nat) (c : Content) :
  keeps n m (fun r => (m <= r)%nat) (new_obj c).
Proof.
  intros st _ Hm. unfold new_obj. cbn [fst snd]. split.
  - apply grows_objs_only.
    + rewrite length_app. lia.
    + intros r o _ Ho. exists o. split; [|reflexivity].
      now apply lookup_app_l_Some.
  - now intros a [= <-].
Qed.

Lemma keeps_new_list (n m : nat) :
  keeps n m (fun l => (n <= l)%nat) new_list.
Proof.
  intros st Hn _. unfold new_list. cbn [fst snd]. split.
  - constructor; cbn [objs lists repo_cache probes with_lists]; auto.
    + intros r o _ Ho. now exists o.
    + rewrite length_app. lia.
    + intros l xs _ Hl. now apply lookup_app_l_Some.
    + exists []. now rewrite app_nil_r.
  - now intros a [= <-].
Qed.

Lemma keeps_list_append (n m : nat) (l : lref) (x : ref) :
  (n <= l)%nat -> keeps n m (fun _ => True) (list_append l x).
Proof.
  intros Hl st _ _. split; [|auto]. unfold list_append.
  destruct (lists st !! l) as [xs|]; [|apply grows_refl].
  cbn [snd]. constructor; cbn [objs lists repo_cache probes with_lists];
    auto.
  - intros r o _ Ho. now exists o.
  - now rewrite length_insert.
  - intros j ys Hj Hys. rewrite list_lookup_insert_ne by lia. exact Hys.
  - exists []. now rewrite app_nil_r.
Qed.

Lemma keeps_for_each {A} (n m : nat) (xs : list A) (body : A -> M unit) :
  (forall x, keeps n m (fun _ => True) (body x)) ->
  keeps n m (fun _ => True) (for_each xs body).
Proof.
  intros Hb. induction xs as [|x xs IH]; cbn [for_each].
  - now apply keeps_ret.
  - eapply keeps_bind; [apply Hb | intros _ _; exact IH].
Qed.

(** A lookup adds to the table and to the trace, never takes away. *)
Lemma keeps_discover_repository (n m : nat) (p : string) :
  keeps n m (fun _ => True) (discover_repository p).
Proof.
  intros st _ _. split; [|auto]. unfold discover_repository.
  destruct (repo_cache st !! p) as [r|] eqn:Hp; [apply grows_refl|].
  destruct (discover_loop _ p None) as [[r|e|] visited];
    [| |apply grows_refl];
    cbn [snd]; constructor; cbn [objs lists repo_cache probes]; auto.
  - intros r' o _ Ho. now exists o.
  - intros q v Hq. rewrite lookup_insert_ne; [exact Hq | congruence].
  - now exists visited.
  - intros r' o _ Ho. now exists o.
  - now exists visited.
Qed.

Lemma keeps_materialize (n m : nat) (content : ref) (path : string)
    (rl : lref) (c : Commit) :
  (n <= rl)%nat ->
  keeps n m (fun _ => True) (materialize content path rl c).
Proof.
  intros Hrl. unfold materialize.
  eapply keeps_bind; [apply keeps_of_option | intros blob _].
  eapply keeps_bind; [apply keeps_get_obj | intros live _].
  eapply keeps_bind; [apply keeps_of_option | intros parsed _].
  eapply keeps_bind; [apply keeps_new_obj | intros revision Hr].
  eapply keeps_bind; [apply keeps_get_obj | intros live1 _].
  eapply keeps_bind; [apply keeps_modify_obj; now left | intros _ _].
  eapply keeps_bind; [apply keeps_get_obj | intros live2 _].
  eapply keeps_bind; [apply keeps_modify_obj; now left | intros _ _].
  eapply keeps_bind; [apply keeps_get_obj | intros r _].
  eapply keeps_bind; [apply keeps_modify_obj; now left | intros _ _].
  now apply keeps_list_append.
Qed.

Lemma keeps_on_revision (n m : nat) (content : ref) :
  keeps n m (fun _ => True) (on_revision content).
Proof.
  unfold on_revision.
  eapply keeps_bind; [apply keeps_get_git | intros g _].
  eapply keeps_bind;
    [apply keeps_modify_obj; right; reflexivity | intros _ _].
  eapply keeps_bind; [apply keeps_get_obj | intros c _].
  eapply keeps_bind;
    [apply keeps_modify_obj; right; reflexivity | intros _ _].
  eapply keeps_bind; [apply keeps_get_git | intros g' _].
  destruct (previous_revision g') as [p|]; [|now apply keeps_ret].
  eapply keeps_bind;
    [apply keeps_modify_obj; right; reflexivity | intros _ _].
  eapply keeps_bind; [apply keeps_get_obj | intros c' _].
  apply keeps_modify_obj; right; reflexivity.
Qed.

Lemma keeps_link (n m : nat) (send : ref -> M unit) (content : ref)
    (path : string) (rl : lref) (item : Z * (Commit * ref)) :
  (forall r, keeps n m (fun _ => True) (send r)) ->
  keeps n m (fun _ => True) (link send content path rl item).
Proof.
  intros Hsend. destruct item as [index [c revision]]. unfold link.
  eapply keeps_bind; [apply keeps_get_list | intros revs _].
  eapply (keeps_bind _ _ (fun _ => True)).
  { destruct (0 <? index); [|now apply keeps_ret].
    eapply keeps_bind; [apply keeps_py_getitem | intros r _].
    now apply keeps_ret. }
  intros previous _.
  eapply (keeps_bind _ _ (fun _ => True)).
  { destruct (index =? _); [now apply keeps_ret|].
    destruct (index <? _); [|now apply keeps_ret].
    eapply keeps_bind; [apply keeps_py_getitem | intros r _].
    now apply keeps_ret. }
  intros next _.
  eapply keeps_bind;
    [apply keeps_modify_obj; right; reflexivity | intros _ _].
  apply Hsend.
Qed.

Lemma keeps_build_chain (n m : nat) (send : ref -> M unit) (content : ref)
    (path : string) (commits : list Commit) (latest_commit : Commit) :
  (forall r, keeps n m (fun _ => True) (send r)) ->
  keeps n m (fun _ => True)
    (build_chain send content path commits latest_commit).
Proof.
  intros Hsend. unfold build_chain.
  eapply keeps_bind; [apply keeps_new_list | intros rl Hrl].
  eapply keeps_bind.
  { apply keeps_for_each. intros c. now apply keeps_materialize. }
  intros _ _.
  eapply keeps_bind; [apply keeps_get_list | intros revs _].
  eapply keeps_bind.
  { apply keeps_for_each. intros item. now apply keeps_link. }
  intros _ _.
  eapply keeps_bind; [apply keeps_get_list | intros revs' _].
  eapply (keeps_bind _ _ (fun _ => True)).
  { destruct (1 <? _); [|now apply keeps_ret].
    eapply keeps_bind; [apply keeps_py_getitem | intros r _].
    now apply keeps_ret. }
  intros previous _.
  apply keeps_modify_obj; right; reflexivity.
Qed.

(** The hook, at any depth of re-entry and on any reference. *)
Lemma keeps_hook (fuel : nat) :
  forall (n m : nat) (content : ref),
    keeps n m (fun _ => True) (on_content_object_init fuel content).
Proof.
  induction fuel as [|fuel IH]; intros n m content;
    [apply keeps_out_of_fuel|].
  cbn [on_content_object_init].
  eapply keeps_bind; [apply keeps_get_obj | intros c _].
  destruct (is_Static (cls c)); [now apply keeps_ret|].
  eapply keeps_bind; [apply keeps_discover_repository | intros repo _].
  destruct repo as [repository|]; [|now apply keeps_ret].
  eapply keeps_bind; [apply keeps_of_option | intros listed _].
  destruct (rev listed) as [|first_commit rest]; [now apply keeps_ret|].
  eapply keeps_bind; [apply keeps_get_obj | intros c1 _].
  destruct (hasattr (git c1)); [apply keeps_on_revision|].
  eapply (keeps_bind _ _ (fun _ => True)).
  { destruct (negb _); [|now apply keeps_ret].
    eapply keeps_bind;
      [apply keeps_modify_obj; right; reflexivity | intros _ _].
    eapply keeps_bind; [apply keeps_get_obj | intros c2 _].
    apply keeps_modify_obj; right; reflexivity. }
  intros _ _.
  eapply keeps_bind; [apply keeps_get_obj | intros c3 _].
  eapply (keeps_bind _ _ (fun _ => True)).
  { destruct (_ && _); [|now apply keeps_ret].
    eapply keeps_bind;
      [apply keeps_modify_obj; right; reflexivity | intros _ _].
    eapply keeps_bind; [apply keeps_get_obj | intros c4 _].
    apply keeps_modify_obj; right; reflexivity. }
  intros _ _.
  apply keeps_build_chain. intros r. apply IH.
Qed.

End Keeps.

(** X13.  However a run of the hook ends, by returning, by an exception
    or cut short, and on whatever reference it is started: every object of
    the store is still there and differs from what it was at most in its
    dates, their renderings and [git]; every list that existed is as it
    was; no answer is removed from the table of repository lookups or
    changed in it, and the trace of probes is only extended. *)
Theorem hook_never_undoes `{W : World} (fuel : nat) (content : ref)
    (st : State) :
  let st' := snd (on_content_object_init fuel content st) in
  (forall r o, objs st !! r = Some o ->
     exists o', objs st' !! r = Some o' /\ undated o' = undated o)
  /\ (forall l xs, lists st !! l = Some xs -> lists st' !! l = Some xs)
  /\ (forall p r, repo_cache st !! p = Some r ->
        repo_cache st' !! p = Some r)
  /\ (exists more, probes st' = probes st ++ more).
Proof.
  cbv zeta.
  destruct (keeps_hook fuel (length (lists st)) (length (objs st)) content
              st (le_n _) (le_n _)) as [[_ Ho _ Hl Hc Hp] _].
  split.
  { intros r o Hr. apply Ho; [|exact Hr]. eapply lookup_lt_Some; eauto. }
  split.
  { intros l xs Hxs. apply Hl; [|exact Hxs]. eapply lookup_lt_Some; eauto. }
  split; [exact Hc | exact Hp].
Qed.

(** The example document after its chain build: still there, and the same
    but for its dates and [git]. *)
Lemma hook_never_undoes_witness :
  exists o',
    objs (snd (on_content_object_init (W := ex_world ex_log) 2 0%nat
                 (ex_state ex_live))) !! 0%nat = Some o'
    /\ undated o' = undated ex_live.
Proof.
  apply (proj1 (hook_never_undoes (W := ex_world ex_log) 2 0%nat
                  (ex_state ex_live)) 0%nat ex_live).
  reflexivity.
Defined.

(** ** The signal sent again for the live document *)

(** X14.  When the signal reaches the live document a second time, after
    its chain has been built, no second chain is built: the hook takes the
    branch for revisions.  The lists and the number of objects stay as
    they are and the [git] tuple is kept, but the live document's [date]
    is overwritten with the authored time of the latest commit, whatever
    it was before. *)
Theorem second_signal_builds_no_chain `{W : World} (fuel fuel' : nat)
    (content : ref) (live : Content) (repository : Repo)
    (commits : list Commit) (latest_commit : Commit) (st : State) :
  tracked content live repository commits st ->
  forallb (materializable live repository) commits = true ->
  last commits = Some latest_commit ->
  exists st' st'' o g,
    on_content_object_init (S (S fuel)) content st = (Ret tt, st')
    /\ objs st' !! content = Some o
    /\ git o = Some g
    /\ on_content_object_init (S fuel') content st' = (Ret tt, st'')
    /\ st'' = with_objs (revisited content o g) st'
    /\ lists st'' = lists st'
    /\ length (objs st'') = length (objs st')
    /\ objs st'' !! content
       = Some (dated (fromtimestamp (authored_date latest_commit)) o).
Proof.
  intros [Hc Hs Hg Hloc Hh Hne] Hmat Hlast. subst commits.
  destruct (build_spec fuel content st live repository Hc Hs Hg Hloc Hne Hmat)
    as (st' & E & B).
  destruct (history repository (source_path live))
    as [|first_commit rest] eqn:Ecs; [congruence|].
  pose proof (built_live _ _ _ _ _ B first_commit latest_commit) as Hlive.
  cbv zeta in Hlive. rewrite Ecs in Hlive.
  specialize (Hlive eq_refl Hlast).
  pose proof (built_size _ _ _ _ _ B) as Hsize. rewrite Ecs in Hsize.
  (* the table of lookups after the build *)
  destruct (hook_fresh (S fuel) content st live repository first_commit rest
              Hc Hs Hg Hloc Ecs) as (st2 & E2 & _ & _ & C2).
  assert (Hcache : repo_cache st' !! posixpath.dirname (source_path live)
                   = Some (Some repository)).
  { destruct (keeps_build_chain (length (lists st2)) (length (objs st2))
                (on_content_object_init (S fuel)) content
                (make_repository_file_path repository (source_path live))
                (first_commit :: rest)
                (List.last (first_commit :: rest) first_commit)
                (fun r => keeps_hook (S fuel) _ _ r) st2 (le_n _) (le_n _))
      as [G _].
    rewrite <- E2, E in G. cbn [snd] in G.
    exact (grows_cache _ _ _ _ G _ _ C2). }
  destruct (inferred_identity first_commit latest_commit live)
    as (Isrc & Icls & _ & _).
  match type of Hlive with
  | _ = Some (set_git (Some ?x) ?y) => set (g := x) in *; set (o := y) in *
  end.
  assert (Hprev : forall p, previous_revision g = Some p ->
            (length (objs st) <= p < length (objs st'))%nat).
  { intros p. unfold g. cbn [previous_revision]. rewrite length_seq.
    destruct (1 <? Z.of_nat (length (first_commit :: rest))) eqn:E1;
      [|discriminate].
    apply Z.ltb_lt in E1. intros Hp. apply lookup_seq in Hp as [-> Hp].
    rewrite Hsize. lia. }
  pose proof (lookup_lt_Some _ _ _ Hc) as Hlt.
  exists st', (with_objs (revisited content (set_git (Some g) o) g) st'),
    (set_git (Some g) o), g.
  split; [exact E|]. split; [exact Hlive|]. split; [reflexivity|].
  split.
  { rewrite (hook_guards fuel' content st' st' (set_git (Some g) o)
               repository Hlive).
    - apply (on_revision_spec content st' _ g Hlive eq_refl).
      intros p Hp. now apply Hprev.
    - change (cls (set_git (Some g) o)) with (cls o). now rewrite Icls.
    - apply discover_repository_hit.
      change (source_path (set_git (Some g) o)) with (source_path o).
      now rewrite Isrc.
    - reflexivity.
    - change (source_path (set_git (Some g) o)) with (source_path o).
      rewrite Isrc, Ecs. discriminate.
    - reflexivity. }
  split; [reflexivity|]. split; [reflexivity|].
  cbn [objs with_objs]. unfold revisited.
  change (authored_date (commit g)) with (authored_date latest_commit).
  split.
  - destruct (previous_revision g); now rewrite ?length_alter.
  - destruct (previous_revision g) as [p|] eqn:Ep.
    + destruct (Hprev p eq_refl) as [Hp _].
      rewrite list_lookup_alter_ne by lia.
      now rewrite list_lookup_alter_eq, Hlive.
    + now rewrite list_lookup_alter_eq, Hlive.
Qed.

(** The example document: after the second signal it is dated by the
    latest commit, not by the first. *)
Lemma second_signal_builds_no_chain_witness :
  exists st' st'' o',
    on_content_object_init (W := ex_world ex_log) 2 0%nat (ex_state ex_live)
    = (Ret tt, st')
    /\ on_content_object_init (W := ex_world ex_log) 1 0%nat st'
       = (Ret tt, st'')
    /\ lists st'' = lists st'
    /\ objs st'' !! 0%nat = Some o'
    /\ date o' = Some (fromtimestamp 300).
Proof.
  destruct (second_signal_builds_no_chain (W := ex_world ex_log) 0 0 0%nat
              ex_live (ex_repo ex_log) [ex_c1; ex_c2; ex_c3] ex_c3
              (ex_state ex_live))
    as (st' & st'' & o & g & E & _ & _ & E' & _ & Hl & _ & Ho);
    [example_tracked | vm_compute; reflexivity | reflexivity |].
  exists st', st'',
    (dated (W := ex_world ex_log) (fromtimestamp (authored_date ex_c3)) o).
  split; [exact E|]. split; [exact E'|]. split; [exact Hl|].
  split; [exact Ho | reflexivity].
Defined.

(** ** How the hook ends on a fresh document *)

Section Outcome.
Context `{W : World}.



End Outcome.



(** ** The signal sent again for a chained object *)

Section Redating.
Context `{W : World}.

(** [revisited], object by object. *)
Lemma revisited_lookup (content : ref) (c : Content) (g : git_class)
    (os : list Content) (j : nat) :
  revisited content c g os !! j
  = (fun x =>
       let x1 :=
         if decide (j = content)
         then dated (fromtimestamp (authored_date (commit g))) x else x in
       if decide (previous_revision g = Some j)
       then superseded (fromtimestamp (authored_date (commit g)))
                       (date_format c) x1
       else x1) <$> os !! j.
Proof.
  unfold revisited. cbv zeta.
  destruct (previous_revision g) as [p|].
  - rewrite list_lookup_alter.
    destruct (decide (p = j)) as [->|Hpj].
    + destruct (decide (Some j = Some j)); [|congruence].
      rewrite list_lookup_alter.
      destruct (decide (content = j)) as [->|Hcj].
      * destruct (decide (j = j)); [|congruence].
        now destruct (os !! j).
      * destruct (decide (j = content)); [congruence|].
        now destruct (os !! j).
    + destruct (decide (Some p = Some j)) as [[=]|_]; [congruence|].
      rewrite list_lookup_alter.
      destruct (decide (content = j)) as [->|Hcj].
      * destruct (decide (j = j)); [|congruence].
        now destruct (os !! j).
      * destruct (decide (j = content)); [congruence|].
        now destruct (os !! j).
  - destruct (decide (None = Some j)); [congruence|].
    rewrite list_lookup_alter.
    destruct (decide (content = j)) as [->|Hcj].
    + destruct (decide (j = j)); [|congruence]. now destruct (os !! j).
    + destruct (decide (j = content)); [congruence|].
      now destruct (os !! j).
Qed.

Lemma revisited_length (content : ref) (c : Content) (g : git_class)
    (os : list Content) :
  length (revisited content c g os) = length os.
Proof.
  unfold revisited. destruct (previous_revision g);
    now rewrite ?length_alter.
Qed.

(** Dating again changes nothing. *)
Lemma revisited_idem (content : ref) (c c' : Content) (g : git_class)
    (os : list Content) :
  date_format c' = date_format c ->
  revisited content c' g (revisited content c g os)
  = revisited content c g os.
Proof.
  intros Hf. apply list_eq. intros j.
  rewrite (revisited_lookup content c'), (revisited_lookup content c).
  rewrite Hf. destruct (os !! j) as [x|]; [|reflexivity].
  cbn [fmap option_fmap option_map]. f_equal. cbv zeta.
  destruct (decide (j = content)), (decide (previous_revision g = Some j));
    reflexivity.
Qed.

End Redating.

(** X16.  Dating a chained object is idempotent: when the signal is sent
    for it once more, the hook returns and the state is the one the first
    signal left, the table of lookups and the trace of probes included. *)
Theorem redating_idempotent `{W : World} (fuel fuel' : nat) (content : ref)
    (st : State) (c : Content) (g : git_class) (repository : Repo) :
  objs st !! content = Some c ->
  is_Static (cls c) = false ->
  located st (posixpath.dirname (source_path c)) = Some repository ->
  history repository (source_path c) <> [] ->
  git c = Some g ->
  (forall p, previous_revision g = Some p -> (p < length (objs st))%nat) ->
  exists st',
    on_content_object_init (S fuel) content st = (Ret tt, st')
    /\ on_content_object_init (S fuel') content st' = (Ret tt, st').
Proof.
  intros Hc Hs Hloc Hh Hg Hp.
  destruct (located_spec st (posixpath.dirname (source_path c)) repository
              Hloc)
    as (st1 & Hd & Hcache & Ho & Hl).
  rewrite (hook_guards fuel content st st1 c repository Hc Hs Hd Ho Hh)
    by now rewrite Hg.
  rewrite <- Ho in Hc, Hp.
  rewrite (on_revision_spec content st1 c g Hc Hg Hp).
  eexists. split; [reflexivity|].
  set (st' := with_objs (revisited content c g) st1).
  pose proof (revisited_lookup content c g (objs st1) content) as Hc'.
  rewrite Hc in Hc'. cbn [fmap option_fmap option_map] in Hc'.
  cbv zeta in Hc'. destruct (decide (content = content)); [|congruence].
  match type of Hc' with _ = Some ?x => set (c' := x) in * end.
  assert (Hid : cls c' = cls c /\ source_path c' = source_path c
                /\ git c' = git c /\ date_format c' = date_format c).
  { unfold c'. destruct (decide (previous_revision g = Some content));
      now repeat split. }
  destruct Hid as (Icls & Isrc & Igit & Ifmt).
  assert (Hc1 : objs st' !! content = Some c') by exact Hc'.
  rewrite (hook_guards fuel' content st' st' c' repository Hc1).
  - rewrite (on_revision_spec content st' c' g Hc1).
    + unfold st'. rewrite with_objs_compose. f_equal.
      unfold with_objs. f_equal. now apply revisited_idem.
    + now rewrite Igit.
    + intros p Hpp. unfold st'. cbn [objs with_objs].
      rewrite revisited_length. now apply Hp.
  - now rewrite Icls.
  - apply discover_repository_hit. unfold st'. cbn [repo_cache with_objs].
    now rewrite Isrc.
  - reflexivity.
  - now rewrite Isrc.
  - now rewrite Igit, Hg.
Qed.

(** The chained object of the example, dated twice. *)
Lemma redating_idempotent_witness :
  exists st',
    on_content_object_init (W := ex_world ex_log) 1 0%nat ex_chained
    = (Ret tt, st')
    /\ on_content_object_init (W := ex_world ex_log) 1 0%nat st'
       = (Ret tt, st').
Proof.
  apply (redating_idempotent (W := ex_world ex_log) 0 0 0%nat ex_chained
           (set_git (Some {| commit := ex_c2;
                             file_path := "content/post.md";
                             revisions := 0%nat;
                             previous_revision := Some 1%nat;
                             next_revision := None |}) ex_live)
           {| commit := ex_c2; file_path := "content/post.md";
              revisions := 0%nat; previous_revision := Some 1%nat;
              next_revision := None |}
           (ex_repo ex_log));
    [ reflexivity | reflexivity | vm_compute; reflexivity
    | vm_compute; discriminate | reflexivity
    | intros p [= <-]; simpl; lia ].
Defined.

(** ** Navigating a chain *)

(** X18.  The links of a chain fit together, with the live document
    standing in for the revision of the latest commit: from a revision,
    [next_revision] leads to an object whose [previous_revision] is that
    revision, and [previous_revision] leads to a revision whose
    [next_revision] is the revision one came from, or the live document
    when one came from the revision of the latest commit.  No
    [next_revision] of the chain leads to the revision of the latest
    commit. *)
Theorem chain_links_fit `{W : World} (fuel : nat) (content : ref)
    (live : Content) (repository : Repo) (commits : list Commit)
    (st : State) :
  tracked content live repository commits st ->
  forallb (materializable live repository) commits = true ->
  exists st',
    on_content_object_init (S (S fuel)) content st = (Ret tt, st')
    /\ (forall i c, commits !! i = Some c ->
          exists o g,
            objs st' !! (length (objs st) + i)%nat = Some o
            /\ git o = Some g
            /\ (forall nx, next_revision g = Some nx ->
                  exists x gx,
                    objs st' !! nx = Some x /\ git x = Some gx
                    /\ previous_revision gx
                       = Some (length (objs st) + i)%nat)
            /\ (forall pv, previous_revision g = Some pv ->
                  exists x gx,
                    objs st' !! pv = Some x /\ git x = Some gx
                    /\ next_revision gx
                       = Some (if (S i =? length commits)%nat then content
                               else (length (objs st) + i)%nat))
            /\ next_revision g
               <> Some (length (objs st) + length commits - 1)%nat).
Proof.
  intros [Hc Hs Hg Hloc Hh Hne] Hmat. subst commits.
  destruct (build_spec fuel content st live repository Hc Hs Hg Hloc Hne Hmat)
    as (st' & E & B).
  exists st'. split; [exact E|].
  pose proof (lookup_lt_Some _ _ _ Hc) as Hlt.
  set (commits := history repository (source_path live)) in *.
  set (n0 := length (objs st)) in *.
  set (N := length commits).
  assert (Hrev : forall j cj, commits !! j = Some cj ->
            exists x,
              objs st' !! (n0 + j)%nat = Some x
              /\ git x
                 = Some (expected_link content
                           (make_repository_file_path repository
                              (source_path live))
                           (length (lists st)) (seq n0 N) j cj)).
  { intros j cj Hj.
    destruct (built_revisions _ _ _ _ _ B j cj Hj) as (x & _ & Hx & _ & _ & Hgx).
    now exists x. }
  assert (Hlive : exists x gx,
            objs st' !! content = Some x /\ git x = Some gx
            /\ previous_revision gx
               = if 1 <? Z.of_nat N then seq n0 N !! (N - 2)%nat else None).
  { destruct commits as [|first_commit rest] eqn:Ecs; [congruence|].
    destruct (last (first_commit :: rest)) as [latest_commit|] eqn:Elast;
      [|now apply last_None in Elast].
    pose proof (built_live _ _ _ _ _ B first_commit latest_commit) as Hl.
    cbv zeta in Hl. fold commits in Hl. rewrite Ecs in Hl.
    specialize (Hl eq_refl Elast).
    eexists _, _. split; [exact Hl|]. split; [reflexivity|].
    cbn [previous_revision]. now rewrite length_seq. }
  intros i c Hi.
  pose proof (lookup_lt_Some _ _ _ Hi) as HiN. fold N in HiN.
  destruct (Hrev i c Hi) as (o & Ho & Hgo).
  eexists o, _. split; [exact Ho|]. split; [exact Hgo|].
  unfold expected_link. cbn [next_revision previous_revision].
  rewrite length_seq.
  split; [|split].
  - intros nx.
    destruct (Z.of_nat i =? Z.of_nat N - 2) eqn:E1.
    + apply Z.eqb_eq in E1. intros [= <-].
      destruct Hlive as (x & gx & Hx & Hgx & Hprev).
      exists x, gx. split; [exact Hx|]. split; [exact Hgx|].
      rewrite Hprev.
      replace (1 <? Z.of_nat N) with true by (symmetry; apply Z.ltb_lt; lia).
      rewrite lookup_seq_lt by lia. f_equal. lia.
    + apply Z.eqb_neq in E1.
      destruct (Z.of_nat i <? Z.of_nat N - 1) eqn:E2; [|discriminate].
      apply Z.ltb_lt in E2. rewrite lookup_seq_lt by lia. intros [= <-].
      destruct (lookup_lt_is_Some_2 commits (i + 1)) as [c' Hc'];
        [fold N; lia|].
      destruct (Hrev (i + 1)%nat c' Hc') as (x & Hx & Hgx).
      eexists x, _. split; [exact Hx|]. split; [exact Hgx|].
      unfold expected_link. cbn [previous_revision].
      replace (0 <? Z.of_nat (i + 1)) with true
        by (symmetry; apply Z.ltb_lt; lia).
      rewrite lookup_seq_lt by lia. f_equal. lia.
  - intros pv.
    destruct (0 <? Z.of_nat i) eqn:E0; [|discriminate].
    apply Z.ltb_lt in E0. rewrite lookup_seq_lt by lia. intros [= <-].
    destruct (lookup_lt_is_Some_2 commits (i - 1)) as [c' Hc'];
      [fold N; lia|].
    destruct (Hrev (i - 1)%nat c' Hc') as (x & Hx & Hgx).
    eexists x, _. split; [exact Hx|]. split; [exact Hgx|].
    unfold expected_link. cbn [next_revision]. rewrite length_seq. fold N.
    destruct (S i =? N)%nat eqn:E1.
    + apply Nat.eqb_eq in E1.
      replace (Z.of_nat (i - 1) =? Z.of_nat N - 2) with true
        by (symmetry; apply Z.eqb_eq; lia).
      reflexivity.
    + apply Nat.eqb_neq in E1.
      replace (Z.of_nat (i - 1) =? Z.of_nat N - 2) with false
        by (symmetry; apply Z.eqb_neq; lia).
      replace (Z.of_nat (i - 1) <? Z.of_nat N - 1) with true
        by (symmetry; apply Z.ltb_lt; lia).
      rewrite lookup_seq_lt by lia. f_equal. lia.
  - fold N.
    destruct (Z.of_nat i =? Z.of_nat N - 2) eqn:E1.
    + intros [= H]. lia.
    + apply Z.eqb_neq in E1.
      destruct (Z.of_nat i <? Z.of_nat N - 1) eqn:E2; [|discriminate].
      apply Z.ltb_lt in E2. rewrite lookup_seq_lt by lia.
      intros [= H]. lia.
Qed.

(** The example: from the second of three revisions, forth and back. *)
Lemma chain_links_fit_witness :
  exists st' o g,
    on_content_object_init (W := ex_world ex_log) 2 0%nat (ex_state ex_live)
    = (Ret tt, st')
    /\ objs st' !! 2%nat = Some o
    /\ git o = Some g
    /\ (forall nx, next_revision g = Some nx ->
          exists x gx,
            objs st' !! nx = Some x /\ git x = Some gx
            /\ previous_revision gx = Some 2%nat).
Proof.
  destruct (chain_links_fit (W := ex_world ex_log) 0 0%nat ex_live
              (ex_repo ex_log) [ex_c1; ex_c2; ex_c3] (ex_state ex_live))
    as (st' & E & H);
    [example_tracked | vm_compute; reflexivity |].
  destruct (H 1%nat ex_c2 eq_refl) as (o & g & Ho & Hg & Hnext & _).
  exists st', o, g. split; [exact E|]. split; [exact Ho|].
  split; [exact Hg | exact Hnext].
Defined.
